(** * Collective operations of Horovod: a shallow embedding

    The development follows [horovod/common/ops/collective_operations.cc]:
    the staging of a reduction batch into the fusion buffer
    ([AllreduceOp::MemcpyInFusionBuffer], [AllreduceOp::MemcpyOutFusionBuffer]),
    the layout computation of the variable-length gather
    ([AllgatherOp::Execute]), the broadcast ([BroadcastOp::Execute],
    [BroadcastOp::Enabled]) and the error operation ([ErrorOp::Execute]).

    Conventions.
    - C++ integers are values of [Z]; every arithmetic operation of the source
      is followed by the conversion to the type of its result ([to_int],
      [to_uint], [to_int64], [to_size_t]).  For the signed types this is the
      two's complement result; overflow of a signed operation is formally
      undefined in C++, a narrowing conversion is not.
    - Arrays ([new T[n]()]) are lists updated in place with [<[i:=v]>].
    - The collaborators whose code lies outside this file (the framework's
      [AllocateOutput], the timeline, [memcpy], the transport primitives
      [DoAllgather] and [DoBroadcast]) are observed through a log of calls.
    - A function returns [None] where the C++ code returns no value at all:
      undefined behaviour (an index outside a vector or array, a null
      output), a failed [assert], or [new] of a negative length. *)

From Stdlib Require Import ZArith Lia.
From stdpp Require Import base option list strings.

Local Open Scope Z_scope.

(** ** Machine integers *)

Module MachineInt.

Definition wrap_unsigned (w x : Z) : Z := x mod 2 ^ w.

Definition wrap_signed (w x : Z) : Z :=
  (x + 2 ^ (w - 1)) mod 2 ^ w - 2 ^ (w - 1).

(** [int] *)
Definition to_int (x : Z) : Z := wrap_signed 32 x.
(** [unsigned int] *)
Definition to_uint (x : Z) : Z := wrap_unsigned 32 x.
(** [int64_t] *)
Definition to_int64 (x : Z) : Z := wrap_signed 64 x.
(** [size_t] *)
Definition to_size_t (x : Z) : Z := wrap_unsigned 64 x.

Definition INT_MAX : Z := 2 ^ 31 - 1.
Definition INT64_MAX : Z := 2 ^ 63 - 1.

Definition in_int (x : Z) : Prop := - 2 ^ 31 <= x <= INT_MAX.
Definition in_uint (x : Z) : Prop := 0 <= x < 2 ^ 32.
Definition in_int64 (x : Z) : Prop := - 2 ^ 63 <= x <= INT64_MAX.
Definition in_size_t (x : Z) : Prop := 0 <= x < 2 ^ 64.

End MachineInt.
Export MachineInt.

(** ** Data model *)

(** The [DataType] and [Framework] enumerations are declared in a header
    outside this file; a value is represented by its integer code. *)
Definition DataType : Type := Z.
Definition Framework : Type := Z.

(** Modelled from the spec: the [TensorShape] class (declared in the absent
    [common.h]): an ordered sequence of extents, with [AddDim] appending one
    extent, [AppendShape] appending all extents of another shape, [dims] the
    number of extents, [dim_size] one extent and [num_elements] the element
    count, "the slice shape's element count", the product of the extents. *)
Record TensorShape : Type := mkTensorShape { shape_ : list Z }.

Module Shape.
Definition empty : TensorShape := mkTensorShape [].
Definition AddDim (s : TensorShape) (dim : Z) : TensorShape :=
  mkTensorShape (shape_ s ++ [dim]).
Definition AppendShape (s other : TensorShape) : TensorShape :=
  mkTensorShape (shape_ s ++ shape_ other).
Definition dims (s : TensorShape) : nat := length (shape_ s).
Definition dim_size (s : TensorShape) (i : nat) : Z := shape_ s !!! i.
Definition num_elements (s : TensorShape) : Z :=
  foldl Z.mul 1 (shape_ s).
End Shape.

(** Modelled from the spec: [Status], "success, or a typed failure carrying a
    human-readable message" (the class is declared in the absent [common.h]);
    the source uses [Status::OK()], [Status::PreconditionError(message)] and
    [status.ok()]. *)
Inductive StatusType : Type :=
| OK
| UNKNOWN_ERROR
| PRECONDITION_ERROR
| ABORTED.

Record Status : Type := mkStatus { type_ : StatusType; reason_ : string }.

Definition Status_OK : Status := mkStatus OK EmptyString.
Definition Status_PreconditionError (message : string) : Status :=
  mkStatus PRECONDITION_ERROR message.
Definition Status_UnknownError (message : string) : Status :=
  mkStatus UNKNOWN_ERROR message.
Definition Status_ok (s : Status) : bool :=
  match type_ s with OK => true | _ => false end.

(** The [Tensor] interface: [dtype()], [shape()], [data()] (an address) and
    [size()] (the size of the data in bytes). *)
Module Tensor.
Record t : Type := mk {
  dtype : DataType;
  shape : TensorShape;
  data : Z;
  size : Z
}.
End Tensor.

(** The [OpContext] interface: [framework()] and
    [AllocateOutput(shape, &output)], which returns a [Status] and stores a
    tensor through its second argument; the function receives the current
    content of [*output] and returns its new content.  Every entry carries
    its own context, and [Execute] calls [AllocateOutput] once per entry, so
    every sequence of answers over a batch is the behaviour of some batch of
    contexts. *)
Module OpContext.
Record t : Type := mk {
  framework : Framework;
  AllocateOutput : TensorShape -> option Tensor.t -> Status * option Tensor.t
}.
End OpContext.

Record TensorTableEntry : Type := mkEntry {
  tensor_name : string;
  context : OpContext.t;
  tensor : Tensor.t;
  output : option Tensor.t;
  root_rank : Z;
  device : Z
}.

Definition set_output (e : TensorTableEntry) (o : option Tensor.t) : TensorTableEntry :=
  mkEntry (tensor_name e) (context e) (tensor e) o (root_rank e) (device e).

Record Response : Type := mkResponse {
  tensor_sizes : list Z;
  error_message : string
}.

(** [PersistentBuffer::AccessData(context)] gives the address of the buffer,
    [FusionBufferManager::GetBuffer(device, framework)] the buffer of a
    device and framework. *)
Record PersistentBuffer : Type := mkPersistentBuffer {
  AccessData : OpContext.t -> Z
}.

Record FusionBufferManager : Type := mkFusionBufferManager {
  GetBuffer : Z -> Framework -> PersistentBuffer
}.

Module GlobalState.
Record t : Type := mk {
  rank : Z;
  size : Z;
  fusion_buffer : FusionBufferManager
}.
End GlobalState.

(** ** The log of calls to the collaborators *)

Record AllgatherArgs : Type := mkAllgatherArgs {
  ag_entries : list TensorTableEntry;
  ag_recvcounts : list Z;
  ag_displcmnts : list Z;
  ag_entry_component_offsets : list (list Z);
  ag_entry_component_sizes : list (list Z);
  ag_total_size : Z;
  ag_element_size : Z
}.

Record BroadcastArgs : Type := mkBroadcastArgs {
  bc_entries : list TensorTableEntry;
  bc_buffer_data : Z;
  bc_num_elements : Z;
  bc_dtype : DataType;
  bc_root_rank : Z
}.

(** [R] is the type of what a transport primitive hands back to its caller;
    the declarations of [DoAllgather] and [DoBroadcast] are not part of this
    file. *)
Inductive Call (R : Type) : Type :=
| ActivityStartAll (names : list string) (activity : string)
| ActivityEndAll (names : list string)
| CallAllocateOutput (ec : nat) (shape : TensorShape) (status : Status)
| CallMemcpy (dst src n : Z)
| CallDoAllgather (args : AllgatherArgs) (result : R)
| CallDoBroadcast (args : BroadcastArgs) (result : R).

Arguments ActivityStartAll {R} names activity.
Arguments ActivityEndAll {R} names.
Arguments CallAllocateOutput {R} ec shape status.
Arguments CallMemcpy {R} dst src n.
Arguments CallDoAllgather {R} args result.
Arguments CallDoBroadcast {R} args result.

Definition ALLOCATE_OUTPUT : string := "ALLOCATE_OUTPUT".

Definition is_transport {R} (c : Call R) : bool :=
  match c with
  | CallDoAllgather _ _ | CallDoBroadcast _ _ => true
  | _ => false
  end.

(** ** Loops *)

(** A [for] loop over the indices [range] whose body may be undefined. *)
Fixpoint for_each {S : Type} (body : S -> nat -> option S) (range : list nat) (s : S)
    : option S :=
  match range with
  | [] => Some s
  | i :: range' => s' ← body s i; for_each body range' s'
  end.

(** Two-dimensional arrays [int64_t**]. *)
Definition get2 (a : list (list Z)) (i j : nat) : Z := (a !!! i) !!! j.
Definition set2 (a : list (list Z)) (i j : nat) (v : Z) : list (list Z) :=
  <[i := <[j := v]> (a !!! i)]> a.

(** [a[i]] for an [int] index. *)
Definition at_int (a : list Z) (i : Z) : option Z :=
  if i <? 0 then None else a !! Z.to_nat i.

(** ** AllreduceOp *)

Section Ops.

Context {R : Type}.
Variable GetElementSize : DataType -> Z.
Variable DoAllgather : AllgatherArgs -> R.
Variable DoBroadcast : BroadcastArgs -> R.

Definition NumElements (entries : list TensorTableEntry) : Z :=
  foldl (fun num_elements e =>
           to_int64 (num_elements + Shape.num_elements (Tensor.shape (tensor e))))
        0 entries.

Definition MemcpyEntryInFusionBuffer (buffer_data_at_offset : Z)
    (e : TensorTableEntry) (entries : list TensorTableEntry) : list (Call R) :=
  [CallMemcpy buffer_data_at_offset (Tensor.data (tensor e))
              (to_size_t (Tensor.size (tensor e)))].

(** [e.output->data()] is undefined for a null output. *)
Definition MemcpyEntryOutFusionBuffer (buffer_data_at_offset : Z)
    (e : TensorTableEntry) (entries : list TensorTableEntry) : option (list (Call R)) :=
  o ← output e;
  Some [CallMemcpy (Tensor.data o) buffer_data_at_offset
                   (to_size_t (Tensor.size (tensor e)))].

(** The loop of [MemcpyInFusionBuffer]: the state is the running [offset]
    and the log. *)
Fixpoint memcpy_in_loop (buffer_data : Z) (entries es : list TensorTableEntry)
    (offset : Z) (log : list (Call R)) : Z * list (Call R) :=
  match es with
  | [] => (offset, log)
  | e :: es' =>
      let buffer_data_at_offset := buffer_data + offset in
      let log' := log ++ MemcpyEntryInFusionBuffer buffer_data_at_offset e entries in
      memcpy_in_loop buffer_data entries es'
                     (to_int64 (offset + Tensor.size (tensor e))) log'
  end.

Record FusedInput : Type := mkFusedInput {
  fused_input_data : Z;
  buffer_data : Z;
  buffer_len : Z
}.

Definition MemcpyInFusionBuffer (gs : GlobalState.t) (entries : list TensorTableEntry)
    : option (FusedInput * list (Call R)) :=
  first_entry ← entries !! 0%nat;
  let buffer := GetBuffer (GlobalState.fusion_buffer gs) (device first_entry)
                          (OpContext.framework (context first_entry)) in
  let buffer_data := AccessData buffer (context first_entry) in
  let '(offset, log) := memcpy_in_loop buffer_data entries entries 0 [] in
  let buffer_len := to_size_t offset in
  Some (mkFusedInput buffer_data buffer_data buffer_len, log).

Fixpoint memcpy_out_loop (buffer_data : Z) (entries es : list TensorTableEntry)
    (offset : Z) (log : list (Call R)) : option (list (Call R)) :=
  match es with
  | [] => Some log
  | e :: es' =>
      let buffer_data_at_offset := buffer_data + offset in
      calls ← MemcpyEntryOutFusionBuffer buffer_data_at_offset e entries;
      memcpy_out_loop buffer_data entries es'
                      (to_int64 (offset + Tensor.size (tensor e))) (log ++ calls)
  end.

Definition MemcpyOutFusionBuffer (entries : list TensorTableEntry) (buffer_data : Z)
    : option (list (Call R)) :=
  memcpy_out_loop buffer_data entries entries 0 [].

(** ** AllgatherOp *)

(** The shape of the entry's tensor sliced by its first dimension:
    [for (int i = 1; i < dims(); ++i) AddDim(dim_size(i))]. *)
Definition single_slice_shape (e : TensorTableEntry) : TensorShape :=
  let s := Tensor.shape (tensor e) in
  foldl (fun slice i => Shape.AddDim slice (Shape.dim_size s i)) Shape.empty
        (seq 1 (Shape.dims s - 1)).

(** [ec * global_state_->size + rc], computed in [size_t]. *)
Definition component_index (size : Z) (ec rc : nat) : nat :=
  Z.to_nat (to_size_t (to_size_t (Z.of_nat ec * to_size_t size) + to_size_t (Z.of_nat rc))).

(** The body of the loop over the ranks for entry [ec]; the state is
    [total_entry_dimension_size], [recvcounts] and
    [entry_component_sizes]. *)
Definition sizes_body (tensor_sizes : list Z) (size : Z) (ec : nat) (slice_elements : Z)
    (st : Z * list Z * list (list Z)) (rc : nat) : option (Z * list Z * list (list Z)) :=
  let '(total_entry_dimension_size, recvcounts, entry_component_sizes) := st in
  component_size ← tensor_sizes !! component_index size ec rc;
  Some (to_int64 (total_entry_dimension_size + component_size),
        <[rc := to_int (to_int64 (recvcounts !!! rc
                                  + to_int64 (component_size * slice_elements)))]>
          recvcounts,
        set2 entry_component_sizes ec rc (to_int64 (component_size * slice_elements))).

Record AllocState : Type := mkAllocState {
  st_entries : list TensorTableEntry;
  st_recvcounts : list Z;
  st_sizes : list (list Z);
  st_log : list (Call R)
}.

(** The loop over the entries that computes the sizes and allocates the
    outputs; [Some status] in the result is the early [return status]. *)
Fixpoint allocate_loop (tensor_sizes : list Z) (size : Z) (range : list nat)
    (st : AllocState) : option (option Status * AllocState) :=
  match range with
  | [] => Some (None, st)
  | ec :: range' =>
      e ← st_entries st !! ec;
      let slice := single_slice_shape e in
      r ← for_each (sizes_body tensor_sizes size ec (Shape.num_elements slice))
                   (seq 0 (Z.to_nat size)) (0, st_recvcounts st, st_sizes st);
      let '(total_entry_dimension_size, recvcounts, entry_component_sizes) := r in
      let output_shape :=
        Shape.AppendShape (Shape.AddDim Shape.empty total_entry_dimension_size) slice in
      let '(status, out) :=
        OpContext.AllocateOutput (context e) output_shape (output e) in
      let st' := mkAllocState (<[ec := set_output e out]> (st_entries st))
                              recvcounts entry_component_sizes
                              (st_log st ++ [CallAllocateOutput ec output_shape status]) in
      if Status_ok status then allocate_loop tensor_sizes size range' st'
      else Some (Some status, st')
  end.

Definition displcmnts_body (recvcounts displcmnts : list Z) (rc : nat) : list Z :=
  if decide (rc = 0%nat) then <[rc := 0]> displcmnts
  else <[rc := to_int (displcmnts !!! (rc - 1)%nat + recvcounts !!! (rc - 1)%nat)]>
         displcmnts.

Definition displcmnts_loop (size : nat) (recvcounts displcmnts : list Z) : list Z :=
  foldl (displcmnts_body recvcounts) displcmnts (seq 0 size).

(** [rank_displacement] is an [unsigned int]; assigning it to an [int64_t]
    keeps its value. *)
Definition offsets_entry_body (entry_component_sizes : list (list Z))
    (rank_displacement : Z) (rc : nat)
    (entry_component_offsets : list (list Z)) (ec : nat) : list (list Z) :=
  if decide (ec = 0%nat) then set2 entry_component_offsets ec rc rank_displacement
  else set2 entry_component_offsets ec rc
            (to_int64 (get2 entry_component_offsets (ec - 1) rc
                       + get2 entry_component_sizes (ec - 1) rc)).

Definition offsets_rank_body (entries : nat) (recvcounts : list Z)
    (entry_component_sizes : list (list Z))
    (st : Z * list (list Z)) (rc : nat) : Z * list (list Z) :=
  let '(rank_displacement, entry_component_offsets) := st in
  (to_uint (rank_displacement + to_uint (recvcounts !!! rc)),
   foldl (offsets_entry_body entry_component_sizes rank_displacement rc)
         entry_component_offsets (seq 0 entries)).

Definition offsets_loop (size entries : nat) (recvcounts : list Z)
    (entry_component_sizes entry_component_offsets : list (list Z)) : list (list Z) :=
  snd (foldl (offsets_rank_body entries recvcounts entry_component_sizes)
             (0, entry_component_offsets) (seq 0 size)).

Definition AllgatherExecute (gs : GlobalState.t) (entries : list TensorTableEntry)
    (response : Response) : option (Status * list TensorTableEntry * list (Call R)) :=
  let size := GlobalState.size gs in
  if size <? 0 then None else
  let G := Z.to_nat size in
  let n := length entries in
  let entry_component_sizes := replicate n (replicate G 0) in
  let entry_component_offsets := replicate n (replicate G 0) in
  let recvcounts := replicate G 0 in
  let displcmnts := replicate G 0 in
  _ ← entries !! 0%nat;
  let names := tensor_name <$> entries in
  r ← allocate_loop (tensor_sizes response) size (seq 0 n)
        (mkAllocState entries recvcounts entry_component_sizes
                      [ActivityStartAll names ALLOCATE_OUTPUT]);
  match r with
  | (Some status, st) => Some (status, st_entries st, st_log st)
  | (None, st) =>
      let entries := st_entries st in
      let recvcounts := st_recvcounts st in
      let entry_component_sizes := st_sizes st in
      let log := st_log st ++ [ActivityEndAll (tensor_name <$> entries)] in
      let displcmnts := displcmnts_loop G recvcounts displcmnts in
      let entry_component_offsets :=
        offsets_loop G n recvcounts entry_component_sizes entry_component_offsets in
      first_entry ← entries !! 0%nat;
      let element_size := GetElementSize (Tensor.dtype (tensor first_entry)) in
      d ← at_int displcmnts (size - 1);
      c ← at_int recvcounts (size - 1);
      let total_size := to_int (d + c) in
      let args := mkAllgatherArgs entries recvcounts displcmnts
                                  entry_component_offsets entry_component_sizes
                                  total_size element_size in
      Some (Status_OK, entries, log ++ [CallDoAllgather args (DoAllgather args)])
  end.

(** ** BroadcastOp *)

(** [assert(entries.size() == 1)]; [e.output->data()] needs an output. *)
Definition BroadcastExecute (gs : GlobalState.t) (entries : list TensorTableEntry)
    (response : Response) : option (Status * list TensorTableEntry * list (Call R)) :=
  match entries with
  | [e] =>
      data_ptr ← (if decide (GlobalState.rank gs = root_rank e)
                  then Some (Tensor.data (tensor e))
                  else Tensor.data <$> output e);
      let args := mkBroadcastArgs entries data_ptr
                    (to_int (Shape.num_elements (Tensor.shape (tensor e))))
                    (Tensor.dtype (tensor e)) (root_rank e) in
      Some (Status_OK, entries, [CallDoBroadcast args (DoBroadcast args)])
  | _ => None
  end.

Definition BroadcastEnabled {ParameterManager : Type} (param_manager : ParameterManager)
    (entries : list TensorTableEntry) (response : Response) : bool :=
  true.

(** ** ErrorOp *)

Definition ErrorExecute (entries : list TensorTableEntry) (response : Response)
    : option (Status * list TensorTableEntry * list (Call R)) :=
  match entries with
  | [e] => Some (Status_PreconditionError (error_message response), entries, [])
  | _ => None
  end.

End Ops.

(** ** A transport primitive that raises

    [Execute] calls [DoAllgather] and [DoBroadcast] as statements, and their
    declarations are not part of this file.  Such a call either returns,
    handing back a value that the statement discards, or raises an
    exception. *)
Inductive Outcome (R X : Type) : Type :=
| Returns (r : R)
| Throws (x : X).

Arguments Returns {R X} r.
Arguments Throws {R X} x.

(** How a call of [Execute] ends: it returns a [Status], or an exception
    leaves it. *)
Inductive Completion (X : Type) : Type :=
| Returned (st : Status)
| Raised (x : X).

Arguments Returned {X} st.
Arguments Raised {X} x.

(** The exception that a call of the log raised, if it raised one. *)
Definition call_threw {R X : Type} (c : Call (Outcome R X)) : option X :=
  match c with
  | CallDoAllgather _ (Throws x) | CallDoBroadcast _ (Throws x) => Some x
  | _ => None
  end.

(** Neither [Execute] has a handler, and the transport call is followed by
    [return Status::OK()] alone: an exception raised by that call leaves
    [Execute], which then returns no [Status].  The batch is passed by
    reference and keeps what the run stored in it. *)
Definition propagate {R X : Type}
    (run : option (Status * list TensorTableEntry * list (Call (Outcome R X))))
    : option (Completion X * list TensorTableEntry * list (Call (Outcome R X))) :=
  r ← run;
  Some (match last r.2 ≫= call_threw with
        | Some x => Raised x
        | None => Returned r.1.1
        end, r.1.2, r.2).

Definition AllgatherExecute_exn {R X : Type} (GetElementSize : DataType -> Z)
    (DoAllgather : AllgatherArgs -> Outcome R X)
    (gs : GlobalState.t) (entries : list TensorTableEntry) (response : Response)
    : option (Completion X * list TensorTableEntry * list (Call (Outcome R X))) :=
  propagate (AllgatherExecute GetElementSize DoAllgather gs entries response).

Definition BroadcastExecute_exn {R X : Type}
    (DoBroadcast : BroadcastArgs -> Outcome R X)
    (gs : GlobalState.t) (entries : list TensorTableEntry) (response : Response)
    : option (Completion X * list TensorTableEntry * list (Call (Outcome R X))) :=
  propagate (BroadcastExecute DoBroadcast gs entries response).

(** * Vocabulary of the statements *)

(** ** Arrays as tabulated functions *)

Definition vector {A : Type} (n : nat) (f : nat -> A) : list A := f <$> seq 0 n.

Definition matrix {A : Type} (n m : nat) (f : nat -> nat -> A) : list (list A) :=
  vector n (fun i => vector m (f i)).

(** ** The gather layout in closed form

    The arrays that the loops of [AllgatherOp::Execute] fill, written as
    functions of the entry and rank indices, with the conversions of the
    source. *)

Section Layout.

Variable tensor_sizes : list Z.
(** the group size and the number of entries *)
Variable G n : nat.
(** the element count of the slice shape of entry [ec] *)
Variable slice_elements : nat -> Z.

(** The leading-dimension extent that rank [rc] contributes to entry [ec]. *)
Definition extent (ec rc : nat) : Z := tensor_sizes !!! (ec * G + rc)%nat.

Definition layout_size (ec rc : nat) : Z :=
  to_int64 (extent ec rc * slice_elements ec).

Fixpoint layout_total_dimension (ec k : nat) : Z :=
  match k with
  | O => 0
  | S k' => to_int64 (layout_total_dimension ec k' + extent ec k')
  end.

(** [recvcounts[rc]] after the first [j] entries. *)
Fixpoint layout_recvcount (j rc : nat) : Z :=
  match j with
  | O => 0
  | S j' => to_int (to_int64 (layout_recvcount j' rc + layout_size j' rc))
  end.

Fixpoint layout_displcmnt (rc : nat) : Z :=
  match rc with
  | O => 0
  | S rc' => to_int (layout_displcmnt rc' + layout_recvcount n rc')
  end.

(** [rank_displacement] when the loop reaches rank [rc]. *)
Fixpoint layout_rank_displacement (rc : nat) : Z :=
  match rc with
  | O => 0
  | S rc' => to_uint (layout_rank_displacement rc' + to_uint (layout_recvcount n rc'))
  end.

Fixpoint layout_offset (ec rc : nat) : Z :=
  match ec with
  | O => layout_rank_displacement rc
  | S ec' => to_int64 (layout_offset ec' rc + layout_size ec' rc)
  end.

Definition layout_total_size : Z :=
  to_int (layout_displcmnt (G - 1) + layout_recvcount n (G - 1)).

End Layout.

(** ** The run of [AllgatherOp::Execute] *)

(** The inputs on which [AllgatherOp::Execute] is defined: a batch that is
    not empty, a group of at least one process, and a table of sizes (a
    [std::vector], so of a length below [2^64]) that has a row of [size]
    extents for every entry. *)
Definition gather_wf (gs : GlobalState.t) (entries : list TensorTableEntry)
    (response : Response) : Prop :=
  entries <> [] /\ 1 <= GlobalState.size gs /\
  in_size_t (Z.of_nat (length (tensor_sizes response))) /\
  (length entries * Z.to_nat (GlobalState.size gs) <= length (tensor_sizes response))%nat.

Definition slice_elements_of (entries : list TensorTableEntry) (ec : nat) : Z :=
  match entries !! ec with
  | Some e => Shape.num_elements (single_slice_shape e)
  | None => 0
  end.

Section AllocationTerms.

Context {R : Type}.
Variable tensor_sizes : list Z.
Variable G : nat.
Variable entries : list TensorTableEntry.

Local Abbreviation n := (length entries).
Local Abbreviation lsize := (layout_size tensor_sizes G (slice_elements_of entries)).
Local Abbreviation lrecv := (layout_recvcount tensor_sizes G (slice_elements_of entries)).

(** The shape that the loop passes to [AllocateOutput] for entry [ec]. *)
Definition output_shape_of (ec : nat) (e : TensorTableEntry) : TensorShape :=
  Shape.AppendShape
    (Shape.AddDim Shape.empty (layout_total_dimension tensor_sizes G ec G))
    (single_slice_shape e).

(** What [AllocateOutput] answers for entry [ec]. *)
Definition allocation (ec : nat) (e : TensorTableEntry) : Status * option Tensor.t :=
  OpContext.AllocateOutput (context e) (output_shape_of ec e) (output e).

Definition allocation_ok (ec : nat) : bool :=
  match entries !! ec with
  | Some e => Status_ok (fst (allocation ec e))
  | None => true
  end.

(** The batch once the allocations of the entries below [j] are done. *)
Definition entries_after (j : nat) : list TensorTableEntry :=
  imap (fun ec e => if decide (ec < j)%nat
                    then set_output e (snd (allocation ec e)) else e) entries.

Definition allocation_calls : list (Call R) :=
  imap (fun ec e => CallAllocateOutput ec (output_shape_of ec e) (fst (allocation ec e)))
       entries.

Definition log_after (j : nat) : list (Call R) :=
  ActivityStartAll (tensor_name <$> entries) ALLOCATE_OUTPUT :: take j allocation_calls.

Definition state_after (j : nat) : AllocState :=
  mkAllocState (entries_after j) (vector G (lrecv j))
               (matrix n G (fun i rc => if decide (i < j)%nat then lsize i rc else 0))
               (log_after j).

End AllocationTerms.

Section GatherRunTerms.

Context {R : Type}.
Variable GetElementSize : DataType -> Z.
Variable DoAllgather : AllgatherArgs -> R.
Variable gs : GlobalState.t.
Variable entries : list TensorTableEntry.
Variable response : Response.

Local Abbreviation ts := (tensor_sizes response).
Local Abbreviation G := (Z.to_nat (GlobalState.size gs)).
Local Abbreviation n := (length entries).
Local Abbreviation sl := (slice_elements_of entries).

(** The arguments of the transport call, in closed form. *)
Definition gather_args : AllgatherArgs :=
  mkAllgatherArgs
    (entries_after ts G entries n)
    (vector G (layout_recvcount ts G sl n))
    (vector G (layout_displcmnt ts G n sl))
    (matrix n G (layout_offset ts G n sl))
    (matrix n G (layout_size ts G sl))
    (layout_total_size ts G n sl)
    (match entries with
     | e :: _ => GetElementSize (Tensor.dtype (tensor e))
     | [] => 0
     end).

(** The log of a run in which every allocation succeeds. *)
Definition gather_log : list (Call R) :=
  log_after ts G entries n
  ++ [ActivityEndAll (tensor_name <$> entries);
      CallDoAllgather gather_args (DoAllgather gather_args)].

End GatherRunTerms.

(** ** Sums and the layout in exact arithmetic *)

Fixpoint sum_to (k : nat) (f : nat -> Z) : Z :=
  match k with
  | O => 0
  | S k' => sum_to k' f + f k'
  end.

Definition sumZ (l : list Z) : Z := foldr Z.add 0 l.

Section InRangeTerms.

Variable tensor_sizes : list Z.
Variable G n : nat.
Variable slice_elements : nat -> Z.

(** The size of the component of entry [ec] that rank [rc] contributes:
    the rank's leading-dimension extent times the element count of the
    entry's slice shape. *)
Definition component_size (ec rc : nat) : Z :=
  extent tensor_sizes G ec rc * slice_elements ec.

(** The sum of the component sizes of one rank. *)
Definition rank_total (rc : nat) : Z := sum_to n (fun ec => component_size ec rc).

(** The sum over all entries and ranks. *)
Definition components_total : Z :=
  sum_to n (fun ec => sum_to G (fun rc => component_size ec rc)).

End InRangeTerms.

(** ** The statements about the gather layout *)

Definition group_size (gs : GlobalState.t) : nat := Z.to_nat (GlobalState.size gs).

(** The component size of entry [ec] at rank [rc], from the inputs. *)
Definition gather_component_size (gs : GlobalState.t) (entries : list TensorTableEntry)
    (response : Response) (ec rc : nat) : Z :=
  component_size (tensor_sizes response) (group_size gs) (slice_elements_of entries) ec rc.

Definition gather_components_total (gs : GlobalState.t) (entries : list TensorTableEntry)
    (response : Response) : Z :=
  components_total (tensor_sizes response) (group_size gs) (length entries)
                   (slice_elements_of entries).

(** No component size is negative and their total fits an [int]. *)
Definition gather_in_range (gs : GlobalState.t) (entries : list TensorTableEntry)
    (response : Response) : Prop :=
  (forall ec rc, (ec < length entries)%nat -> (rc < group_size gs)%nat ->
                 0 <= gather_component_size gs entries response ec rc) /\
  gather_components_total gs entries response <= INT_MAX.

(** The offset table: entry 0 starts at the running rank displacement, the
    sum of the receive counts of the ranks before, which is the rank's
    displacement; a later entry starts where the entry before it ends. *)
Definition offset_table_ok (G n : nat) (a : AllgatherArgs) : Prop :=
  (forall rc, (rc < G)%nat ->
     get2 (ag_entry_component_offsets a) 0 rc = sumZ (take rc (ag_recvcounts a)) /\
     ag_displcmnts a !! rc = Some (get2 (ag_entry_component_offsets a) 0 rc)) /\
  (forall ec rc, (0 < ec < n)%nat -> (rc < G)%nat ->
     get2 (ag_entry_component_offsets a) ec rc
     = get2 (ag_entry_component_offsets a) (ec - 1) rc
       + get2 (ag_entry_component_sizes a) (ec - 1) rc).

(** Receive counts, displacements and total length. *)
Definition counts_ok (G : nat) (total : Z) (a : AllgatherArgs) : Prop :=
  length (ag_recvcounts a) = G /\ length (ag_displcmnts a) = G /\
  sumZ (ag_recvcounts a) = total /\
  ag_displcmnts a !! 0%nat = Some 0 /\
  (forall rc, (0 < rc < G)%nat ->
     ag_displcmnts a !!! rc
     = ag_displcmnts a !!! (rc - 1)%nat + ag_recvcounts a !!! (rc - 1)%nat) /\
  ag_total_size a
  = ag_displcmnts a !!! (G - 1)%nat + ag_recvcounts a !!! (G - 1)%nat /\
  ag_total_size a = sumZ (ag_recvcounts a).

(** ** Concrete inputs *)

(** A framework context that allocates every output (of one-byte elements,
    at address 4096), and one that refuses every allocation and leaves the
    output as it is. *)
Definition accepting_context : OpContext.t :=
  OpContext.mk 0 (fun shape _ =>
                    (Status_OK, Some (Tensor.mk 0 shape 4096 (Shape.num_elements shape)))).

Definition refusing_context : OpContext.t :=
  OpContext.mk 0 (fun _ old => (Status_UnknownError "allocation failed", old)).

Definition one_buffer : FusionBufferManager :=
  mkFusionBufferManager (fun _ _ => mkPersistentBuffer (fun _ => 1000)).

(** An entry of one-byte elements with the given name, context and shape. *)
Definition byte_entry (name : string) (ctx : OpContext.t) (dims : list Z) : TensorTableEntry :=
  mkEntry name ctx
          (Tensor.mk 0 (mkTensorShape dims) 64 (Shape.num_elements (mkTensorShape dims)))
          None 0 0.

(** Two entries of slice shape [[4]] gathered over two ranks. *)
Definition small_gs : GlobalState.t := GlobalState.mk 0 2 one_buffer.
Definition small_entries : list TensorTableEntry :=
  [byte_entry "a" accepting_context [2; 4]; byte_entry "b" accepting_context [5; 4]].
Definition small_response : Response := mkResponse [2; 3; 5; 7] EmptyString.

(** One vector of [3 * 2^30] one-byte elements on rank 0, nothing on rank 1. *)
Definition big_gs : GlobalState.t := GlobalState.mk 0 2 one_buffer.
Definition big_entries : list TensorTableEntry :=
  [byte_entry "big" accepting_context [3221225472]].
Definition big_response : Response := mkResponse [3221225472; 0] EmptyString.

(** ** Reduction staging *)

(** [e.tensor->size()], the byte size of the entry's input. *)
Definition entry_size (e : TensorTableEntry) : Z := Tensor.size (tensor e).

(** The sum of the byte sizes of the entries before entry [i]. *)
Definition staging_offset (entries : list TensorTableEntry) (i : nat) : Z :=
  sumZ (entry_size <$> take i entries).

Definition staged_length (entries : list TensorTableEntry) : Z :=
  sumZ (entry_size <$> entries).

(** The destinations of the copies into the buffer, and the sources of the
    copies out of it, in the order of the calls. *)
Definition memcpy_dsts {R : Type} (log : list (Call R)) : list Z :=
  omap (fun c => match c with CallMemcpy dst _ _ => Some dst | _ => None end) log.

Definition memcpy_srcs {R : Type} (log : list (Call R)) : list Z :=
  omap (fun c => match c with CallMemcpy _ src _ => Some src | _ => None end) log.

Section StagingTerms.

Context {R : Type}.
Variable buffer : Z.

(** The calls of the loops, with the running offset kept exact. *)
Fixpoint copy_in_from (offset : Z) (es : list TensorTableEntry) : list (Call R) :=
  match es with
  | [] => []
  | e :: es' =>
      CallMemcpy (buffer + offset) (Tensor.data (tensor e)) (entry_size e)
      :: copy_in_from (offset + entry_size e) es'
  end.

Fixpoint copy_out_from (offset : Z) (es : list (TensorTableEntry * Tensor.t))
    : list (Call R) :=
  match es with
  | [] => []
  | (e, o) :: es' =>
      CallMemcpy (Tensor.data o) (buffer + offset) (entry_size e)
      :: copy_out_from (offset + entry_size e) es'
  end.

End StagingTerms.

(** [e.tensor->shape().num_elements()] *)
Definition elements_of (e : TensorTableEntry) : Z :=
  Shape.num_elements (Tensor.shape (tensor e)).

(** Three entries of 10, 20 and 5 four-byte elements, with their outputs. *)
Definition word_entry (name : string) (elements data out : Z) : TensorTableEntry :=
  mkEntry name accepting_context
          (Tensor.mk 5 (mkTensorShape [elements]) data (4 * elements))
          (Some (Tensor.mk 5 (mkTensorShape [elements]) out (4 * elements))) 0 0.

Definition staging_entries : list TensorTableEntry :=
  [word_entry "x" 10 5000 8000; word_entry "y" 20 6000 9000; word_entry "z" 5 7000 9500].

(** ** Broadcast and transport *)

(** The process of rank 1 in a group of two. *)
Definition receiver_gs : GlobalState.t := GlobalState.mk 1 2 one_buffer.

(** A transport primitive that fails: it raises an exception that carries a
    message. *)
Definition raising_broadcast (args : BroadcastArgs) : Outcome unit string :=
  Throws "MPI_Bcast failed".
Definition raising_allgather (args : AllgatherArgs) : Outcome unit string :=
  Throws "MPI_Allgatherv failed".

(** ** Allocation in the gather *)

(** The answer of [AllocateOutput] for entry [ec] of a batch, the shape it
    is asked for, and whether it succeeds. *)
Definition gather_output_shape (gs : GlobalState.t) (response : Response)
    (ec : nat) (e : TensorTableEntry) : TensorShape :=
  output_shape_of (tensor_sizes response) (group_size gs) ec e.

Definition gather_allocation (gs : GlobalState.t) (response : Response)
    (ec : nat) (e : TensorTableEntry) : Status * option Tensor.t :=
  allocation (tensor_sizes response) (group_size gs) ec e.

Definition gather_allocation_ok (gs : GlobalState.t) (entries : list TensorTableEntry)
    (response : Response) (ec : nat) : bool :=
  allocation_ok (tensor_sizes response) (group_size gs) entries ec.

Definition is_activity_end {R : Type} (c : Call R) : bool :=
  match c with ActivityEndAll _ => true | _ => false end.

(** A batch whose second entry cannot be allocated. *)
Definition refused_entries : list TensorTableEntry :=
  [byte_entry "a" accepting_context [2; 4]; byte_entry "b" refusing_context [5; 4];
   byte_entry "c" accepting_context [1; 4]].
Definition refused_response : Response := mkResponse [2; 3; 5; 7; 1; 1] EmptyString.

(** ** Zero extents *)

(** The entry index in the full batch of entry [ec] of the batch without
    entry [k]. *)
Definition skip (k ec : nat) : nat := if decide (ec < k)%nat then ec else S ec.

(** The table without the row of entry [k]. *)
Definition remove_row (G k : nat) (tensor_sizes : list Z) : list Z :=
  take (k * G) tensor_sizes ++ drop (S k * G) tensor_sizes.

(** The inputs of the batch without entry [k]. *)
Definition without_entry_response (gs : GlobalState.t) (k : nat) (response : Response)
    : Response :=
  mkResponse (remove_row (group_size gs) k (tensor_sizes response))
             (error_message response).

(** The extent that rank [rc] contributes to entry [ec], from the inputs. *)
Definition gather_extent (gs : GlobalState.t) (response : Response) (ec rc : nat) : Z :=
  extent (tensor_sizes response) (group_size gs) ec rc.

(** Three entries over two ranks; no rank contributes to the second one. *)
Definition zero_entries : list TensorTableEntry :=
  [byte_entry "a" accepting_context [2; 4]; byte_entry "z" accepting_context [0; 4];
   byte_entry "b" accepting_context [5; 4]].
Definition zero_response : Response := mkResponse [2; 3; 0; 0; 5; 7] EmptyString.

(** * Vocabulary of the further properties *)

(** ** Memory *)

(** A memory gives the byte at every address. *)
Definition Memory : Type := Z -> Z.

(** [std::memcpy(dst, src, n)]: the [n] bytes at [src] are copied to [dst];
    the call is undefined when the two regions overlap. *)
Definition memcpy (m : Memory) (dst src n : Z) : option Memory :=
  if decide (n <= 0 \/ dst + n <= src \/ src + n <= dst)
  then Some (fun a => if decide (dst <= a < dst + n) then m (src + (a - dst)) else m a)
  else None.

(** The effect on the memory of the [memcpy] calls of a log, in order. *)
Fixpoint run_memcpys {R : Type} (log : list (Call R)) (m : Memory) : option Memory :=
  match log with
  | [] => Some m
  | CallMemcpy dst src n :: log' => m' ← memcpy m dst src n; run_memcpys log' m'
  | _ :: log' => run_memcpys log' m
  end.

(** The address [a] lies in the [n] bytes at [p]. *)
Definition in_region (p n a : Z) : Prop := p <= a < p + n.

(** The regions [(p, n)] and [(q, k)] share no byte. *)
Definition apart (p n q k : Z) : Prop := n <= 0 \/ k <= 0 \/ p + n <= q \/ q + k <= p.

(** The regions of a list are pairwise apart. *)
Fixpoint all_apart (regions : list (Z * Z)) : Prop :=
  match regions with
  | [] => True
  | (p, n) :: rest => Forall (fun r => apart p n r.1 r.2) rest /\ all_apart rest
  end.

(** The region that receives the entry's slice of the buffer in an output. *)
Definition output_region (eo : TensorTableEntry * Tensor.t) : Z * Z :=
  (Tensor.data eo.2, entry_size eo.1).

(** The address of the fusion buffer that [MemcpyInFusionBuffer] obtains for
    a batch: the buffer of the device and framework of the first entry. *)
Definition fusion_buffer_data (gs : GlobalState.t) (entries : list TensorTableEntry) : Z :=
  match entries with
  | e :: _ => AccessData (GetBuffer (GlobalState.fusion_buffer gs) (device e)
                                    (OpContext.framework (context e)))
                         (context e)
  | [] => 0
  end.

(** The memory in which the byte at address [a] is [a]. *)
Definition address_memory : Memory := fun a => a.

(** The outputs of [staging_entries]. *)
Definition staging_outputs : list Tensor.t :=
  [Tensor.mk 5 (mkTensorShape [10]) 8000 40; Tensor.mk 5 (mkTensorShape [20]) 9000 80;
   Tensor.mk 5 (mkTensorShape [5]) 9500 20].

(** ** Calls of a log *)

Definition is_allocation_call {R : Type} (c : Call R) : bool :=
  match c with CallAllocateOutput _ _ _ => true | _ => false end.


(** The copy-out call [c2] reads what the copy-in call [c1] wrote: its
    source is the destination of [c1], its byte count the same. *)
Definition mirrors {R : Type} (c1 c2 : Call R) : Prop :=
  match c1, c2 with
  | CallMemcpy dst _ n, CallMemcpy _ src' n' => src' = dst /\ n' = n
  | _, _ => False
  end.

(** The call copies the input of [e], or to the output of [e]. *)
Definition copies_input {R : Type} (e : TensorTableEntry) (c : Call R) : Prop :=
  match c with
  | CallMemcpy _ src n =>
      src = Tensor.data (tensor e) /\ n = to_size_t (Tensor.size (tensor e))
  | _ => False
  end.

Definition copies_to_output {R : Type} (e : TensorTableEntry) (c : Call R) : Prop :=
  match c with
  | CallMemcpy dst _ n =>
      Tensor.data <$> output e = Some dst /\ n = to_size_t (Tensor.size (tensor e))
  | _ => False
  end.

(** ** The layout as a tiling *)

(** Every component lies inside the buffer of [ag_total_size] elements; at a
    rank the component of the last entry ends where the segment of the next
    rank starts, or at the end of the buffer; and the receive count of a
    rank is the sum of the sizes of its components. *)
Definition tiling_ok (G n : nat) (a : AllgatherArgs) : Prop :=
  (forall ec rc, (ec < n)%nat -> (rc < G)%nat ->
     0 <= get2 (ag_entry_component_offsets a) ec rc /\
     0 <= get2 (ag_entry_component_sizes a) ec rc /\
     get2 (ag_entry_component_offsets a) ec rc + get2 (ag_entry_component_sizes a) ec rc
     <= ag_total_size a) /\
  (forall rc, (rc < G)%nat ->
     get2 (ag_entry_component_offsets a) (n - 1) rc
     + get2 (ag_entry_component_sizes a) (n - 1) rc
     = if decide (S rc < G)%nat
       then get2 (ag_entry_component_offsets a) 0 (S rc)
       else ag_total_size a) /\
  (forall rc, (rc < G)%nat ->
     ag_recvcounts a !!! rc
     = sum_to n (fun ec => get2 (ag_entry_component_sizes a) ec rc)).

(** The part of the transport arguments that describes the layout. *)
Definition layout_of (a : AllgatherArgs)
    : list Z * list Z * list (list Z) * list (list Z) * Z :=
  (ag_recvcounts a, ag_displcmnts a, ag_entry_component_offsets a,
   ag_entry_component_sizes a, ag_total_size a).

(** Two entries have the same dimensions after the first. *)
Definition same_slice_shape (e e' : TensorTableEntry) : Prop :=
  drop 1 (shape_ (Tensor.shape (tensor e))) = drop 1 (shape_ (Tensor.shape (tensor e'))).

(** The same batch seen from another process: other rank, contexts, outputs
    and data, possibly other leading dimensions. *)
Definition other_gs : GlobalState.t := GlobalState.mk 1 2 one_buffer.
Definition other_entries : list TensorTableEntry :=
  [mkEntry "a" accepting_context (Tensor.mk 0 (mkTensorShape [3; 4]) 128 12) None 0 1;
   mkEntry "b" accepting_context (Tensor.mk 0 (mkTensorShape [7; 4]) 256 28) None 0 1].

(** Entry 0 of a rank starts at the rank's displacement read as an
    [unsigned int]. *)
Definition first_offsets_unsigned (G : nat) (a : AllgatherArgs) : Prop :=
  forall rc, (rc < G)%nat ->
    get2 (ag_entry_component_offsets a) 0 rc = to_uint (ag_displcmnts a !!! rc) /\
    (0 <= ag_displcmnts a !!! rc ->
     get2 (ag_entry_component_offsets a) 0 rc = ag_displcmnts a !!! rc) /\
    (ag_displcmnts a !!! rc < 0 ->
     get2 (ag_entry_component_offsets a) 0 rc = ag_displcmnts a !!! rc + 2 ^ 32).

(** The components are laid out rank by rank and, within a rank, entry by
    entry: a component ends before every later one starts, so that no two
    components overlap. *)
Definition components_ordered (G n : nat) (a : AllgatherArgs) : Prop :=
  forall ec rc ec' rc',
    (ec < n)%nat -> (rc < G)%nat -> (ec' < n)%nat -> (rc' < G)%nat ->
    (rc < rc')%nat \/ (rc = rc' /\ (ec < ec')%nat) ->
    get2 (ag_entry_component_offsets a) ec rc + get2 (ag_entry_component_sizes a) ec rc
    <= get2 (ag_entry_component_offsets a) ec' rc'.

(** * Properties *)

(** ** Machine integers *)

Section MachineIntFacts.

Lemma to_int_id x : in_int x -> to_int x = x.
Proof.
  unfold in_int, INT_MAX, to_int, wrap_signed. intros H.
  rewrite Z.mod_small; lia.
Qed.

Lemma to_int64_id x : in_int64 x -> to_int64 x = x.
Proof.
  unfold in_int64, INT64_MAX, to_int64, wrap_signed. intros H.
  rewrite Z.mod_small; lia.
Qed.

Lemma to_uint_id x : in_uint x -> to_uint x = x.
Proof. unfold in_uint, to_uint, wrap_unsigned. intros H. apply Z.mod_small; lia. Qed.

Lemma to_size_t_id x : in_size_t x -> to_size_t x = x.
Proof. unfold in_size_t, to_size_t, wrap_unsigned. intros H. apply Z.mod_small; lia. Qed.

Lemma to_int_range x : in_int (to_int x).
Proof.
  unfold in_int, INT_MAX, to_int, wrap_signed.
  pose proof (Z.mod_pos_bound (x + 2 ^ (32 - 1)) (2 ^ 32)). lia.
Qed.

Lemma to_int64_range x : in_int64 (to_int64 x).
Proof.
  unfold in_int64, INT64_MAX, to_int64, wrap_signed.
  pose proof (Z.mod_pos_bound (x + 2 ^ (64 - 1)) (2 ^ 64)). lia.
Qed.

Lemma to_uint_range x : in_uint (to_uint x).
Proof.
  unfold in_uint, to_uint, wrap_unsigned.
  pose proof (Z.mod_pos_bound x (2 ^ 32)). lia.
Qed.

Lemma in_int_int64 x : in_int x -> in_int64 x.
Proof. unfold in_int, in_int64, INT_MAX, INT64_MAX. lia. Qed.

Lemma in_uint_int64 x : in_uint x -> in_int64 x.
Proof. unfold in_uint, in_int64, INT64_MAX. lia. Qed.

Lemma in_int_0 : in_int 0.
Proof. unfold in_int, INT_MAX. lia. Qed.

Lemma in_uint_0 : in_uint 0.
Proof. unfold in_uint. lia. Qed.

(** The unsigned reading of an [int]. *)
Lemma to_uint_to_int x : to_uint (to_int x) = to_uint x.
Proof.
  unfold to_uint, to_int, wrap_unsigned, wrap_signed.
  replace (2 ^ (32 - 1)) with (2 ^ 31) by reflexivity.
  rewrite Zminus_mod, Zmod_mod, <- Zminus_mod. f_equal. lia.
Qed.

End MachineIntFacts.

(** ** Arrays as tabulated functions *)

Section Tabulate.

Context {A : Type}.

Lemma length_vector n (f : nat -> A) : length (vector n f) = n.
Proof. unfold vector. by rewrite length_fmap, length_seq. Qed.

Lemma lookup_vector n (f : nat -> A) i : (i < n)%nat -> vector n f !! i = Some (f i).
Proof. intros H. unfold vector. by rewrite list_lookup_fmap, lookup_seq_lt. Qed.

Lemma lookup_vector_ge n (f : nat -> A) i : (n <= i)%nat -> vector n f !! i = None.
Proof. intros H. apply lookup_ge_None. by rewrite length_vector. Qed.

Lemma vector_ext n (f g : nat -> A) :
  (forall i, (i < n)%nat -> f i = g i) -> vector n f = vector n g.
Proof.
  intros H. apply list_eq. intros i.
  destruct (decide (i < n)%nat).
  - rewrite !lookup_vector by done. f_equal. auto.
  - rewrite !lookup_vector_ge by lia. done.
Qed.

Lemma insert_vector n (f : nat -> A) i v :
  <[i := v]> (vector n f) = vector n (fun j => if decide (j = i) then v else f j).
Proof.
  apply list_eq. intros j.
  destruct (decide (j < n)%nat) as [Hj|Hj].
  - rewrite lookup_vector by done.
    destruct (decide (j = i)) as [->|Hne].
    + rewrite list_lookup_insert_eq; [done | by rewrite length_vector].
    + rewrite list_lookup_insert_ne by done. by rewrite lookup_vector.
  - rewrite lookup_vector_ge by lia.
    apply lookup_ge_None. rewrite length_insert, length_vector. lia.
Qed.

Lemma vector_replicate n (x : A) : replicate n x = vector n (fun _ => x).
Proof.
  apply list_eq. intros i. destruct (decide (i < n)%nat).
  - rewrite lookup_vector by done. by apply lookup_replicate_2.
  - rewrite lookup_vector_ge by lia. apply lookup_replicate_None. lia.
Qed.

Lemma vector_S n (f : nat -> A) : vector (S n) f = vector n f ++ [f n].
Proof. unfold vector. by rewrite seq_S, fmap_app. Qed.

End Tabulate.

Lemma matrix_ext {A : Type} n m (f g : nat -> nat -> A) :
  (forall i j, (i < n)%nat -> (j < m)%nat -> f i j = g i j) ->
  matrix n m f = matrix n m g.
Proof.
  intros H. unfold matrix. apply vector_ext. intros i Hi. apply vector_ext. auto.
Qed.

Lemma matrix_replicate {A : Type} n m (x : A) :
  replicate n (replicate m x) = matrix n m (fun _ _ => x).
Proof. unfold matrix. by rewrite vector_replicate, (vector_replicate m). Qed.

Lemma lookup_total_vector {A : Type} `{!Inhabited A} n (f : nat -> A) i :
  (i < n)%nat -> vector n f !!! i = f i.
Proof. intros H. apply list_lookup_total_correct. by apply lookup_vector. Qed.

Lemma get2_matrix n m (f : nat -> nat -> Z) i j :
  (i < n)%nat -> (j < m)%nat -> get2 (matrix n m f) i j = f i j.
Proof.
  intros Hi Hj. unfold get2, matrix.
  rewrite (lookup_total_vector n) by done. by apply lookup_total_vector.
Qed.

Lemma set2_matrix n m (f : nat -> nat -> Z) i j v :
  (i < n)%nat ->
  set2 (matrix n m f) i j v
  = matrix n m (fun i' j' => if decide (i' = i /\ j' = j) then v else f i' j').
Proof.
  intros Hi. unfold set2, matrix.
  rewrite (lookup_total_vector n) by done.
  rewrite insert_vector. apply vector_ext. intros i' Hi'.
  destruct (decide (i' = i)) as [->|Hne].
  - rewrite insert_vector. apply vector_ext. intros j' Hj'.
    destruct (decide (j' = j)); destruct (decide (i = i /\ j' = j)); tauto || done.
  - apply vector_ext. intros j' Hj'.
    destruct (decide (i' = i /\ j' = j)); tauto || done.
Qed.

(** ** The loops of the gather *)

Lemma for_each_app {S : Type} (body : S -> nat -> option S) (l1 l2 : list nat) (s : S) :
  for_each body (l1 ++ l2) s = s' ← for_each body l1 s; for_each body l2 s'.
Proof.
  revert s. induction l1 as [|i l1 IH]; intros s; simpl; [done|].
  destruct (body s i) as [s'|]; simpl; [apply IH | done].
Qed.

Section Loops.

Variable tensor_sizes : list Z.
Variable G n : nat.
Variable slice_elements : nat -> Z.

Local Abbreviation extent := (extent tensor_sizes G).
Local Abbreviation layout_size := (layout_size tensor_sizes G slice_elements).
Local Abbreviation layout_recvcount := (layout_recvcount tensor_sizes G slice_elements).
Local Abbreviation layout_displcmnt := (layout_displcmnt tensor_sizes G n slice_elements).
Local Abbreviation layout_rank_displacement :=
  (layout_rank_displacement tensor_sizes G n slice_elements).
Local Abbreviation layout_offset := (layout_offset tensor_sizes G n slice_elements).

(** A table read inside the table is the extent. *)
Lemma lookup_component_index ec rc :
  in_size_t (Z.of_nat (length tensor_sizes)) ->
  (G <= length tensor_sizes)%nat ->
  (ec * G + rc < length tensor_sizes)%nat ->
  tensor_sizes !! component_index (Z.of_nat G) ec rc = Some (extent ec rc).
Proof.
  intros Hlen HG Hlt. unfold in_size_t in Hlen.
  assert (Hidx : component_index (Z.of_nat G) ec rc = (ec * G + rc)%nat).
  { unfold component_index.
    rewrite (to_size_t_id (Z.of_nat G)) by (unfold in_size_t; nia).
    rewrite (to_size_t_id (Z.of_nat rc)) by (unfold in_size_t; nia).
    rewrite (to_size_t_id (Z.of_nat ec * Z.of_nat G)) by (unfold in_size_t; nia).
    rewrite to_size_t_id by (unfold in_size_t; nia).
    lia. }
  rewrite Hidx. unfold extent. apply list_lookup_lookup_total_lt. done.
Qed.

(** The loop over the ranks for entry [ec]. *)
Lemma sizes_loop_spec ec (r : nat -> Z) (s : nat -> nat -> Z) k :
  in_size_t (Z.of_nat (length tensor_sizes)) ->
  (ec < n)%nat -> (k <= G)%nat ->
  (ec * G + G <= length tensor_sizes)%nat ->
  for_each (sizes_body tensor_sizes (Z.of_nat G) ec (slice_elements ec))
           (seq 0 k) (0, vector G r, matrix n G s)
  = Some (layout_total_dimension tensor_sizes G ec k,
          vector G (fun rc => if decide (rc < k)%nat
                              then to_int (to_int64 (r rc + layout_size ec rc))
                              else r rc),
          matrix n G (fun i j => if decide (i = ec /\ (j < k)%nat)
                                 then layout_size ec j else s i j)).
Proof.
  intros Hlen Hec Hk Htab. induction k as [|k IH].
  - simpl. apply (f_equal Some).
    apply (f_equal2 pair); [apply (f_equal2 pair); [done|] |].
    + apply vector_ext. intros i Hi. destruct (decide (i < 0)%nat); [lia | done].
    + apply matrix_ext. intros i j Hi Hj.
      destruct (decide (i = ec /\ (j < 0)%nat)); [lia | done].
  - rewrite seq_S, for_each_app, IH by lia. simpl.
    rewrite lookup_component_index by (done || lia). simpl.
    rewrite lookup_total_vector by lia.
    destruct (decide (k < k)%nat); [lia|].
    rewrite insert_vector, set2_matrix by done.
    apply (f_equal Some).
    apply (f_equal2 pair); [apply (f_equal2 pair); [done|] |].
    + apply vector_ext. intros i Hi.
      destruct (decide (i = k)) as [->|]; repeat case_decide; done || lia.
    + apply matrix_ext. intros i j Hi Hj.
      repeat case_decide; try done; try lia.
      destruct_and?; subst; done.
Qed.

(** The loop of the displacements. *)
Lemma displcmnts_loop_spec k :
  (k <= G)%nat ->
  foldl (displcmnts_body (vector G (layout_recvcount n))) (replicate G 0) (seq 0 k)
  = vector G (fun rc => if decide (rc < k)%nat then layout_displcmnt rc else 0).
Proof.
  intros Hk. induction k as [|k IH].
  - simpl. rewrite vector_replicate. apply vector_ext. intros i Hi.
    destruct (decide (i < 0)%nat); [lia | done].
  - rewrite seq_S, foldl_app, IH by lia. simpl.
    unfold displcmnts_body. destruct (decide (k = 0%nat)) as [->|Hk0].
    + rewrite insert_vector. apply vector_ext. intros i Hi.
      repeat case_decide; subst; done || lia.
    + rewrite !lookup_total_vector by lia.
      destruct (decide (k - 1 < k)%nat); [|lia].
      rewrite insert_vector. apply vector_ext. intros i Hi.
      repeat case_decide; subst; try done; try lia.
      destruct k as [|k']; [done|]. simpl. by rewrite Nat.sub_0_r.
Qed.

Lemma displcmnts_loop_full :
  displcmnts_loop G (vector G (layout_recvcount n)) (replicate G 0)
  = vector G layout_displcmnt.
Proof.
  unfold displcmnts_loop. rewrite displcmnts_loop_spec by done.
  apply vector_ext. intros i Hi. by rewrite decide_True.
Qed.

(** The inner loop of the offsets, over the entries, at rank [k]. *)
Lemma offsets_entry_loop_spec (F : nat -> nat -> Z) k j :
  (k < G)%nat -> (j <= n)%nat ->
  foldl (offsets_entry_body (matrix n G layout_size) (layout_rank_displacement k) k)
        (matrix n G F) (seq 0 j)
  = matrix n G (fun ec rc => if decide (rc = k /\ (ec < j)%nat)
                             then layout_offset ec k else F ec rc).
Proof.
  intros Hk Hj. induction j as [|j IH].
  - simpl. apply matrix_ext. intros i i' Hi Hi'.
    destruct (decide (i' = k /\ (i < 0)%nat)); [lia | done].
  - rewrite seq_S, foldl_app, IH by lia. simpl.
    unfold offsets_entry_body. destruct (decide (j = 0%nat)) as [->|Hj0].
    + rewrite set2_matrix by lia. apply matrix_ext. intros i i' Hi Hi'.
      repeat case_decide; destruct_and?; subst; try done; lia.
    + rewrite !get2_matrix by lia.
      rewrite decide_True by (split; [done | lia]).
      rewrite set2_matrix by lia. apply matrix_ext. intros i i' Hi Hi'.
      repeat case_decide; destruct_and?; subst; try done; try lia.
      destruct j as [|j']; [done|]. simpl. by rewrite Nat.sub_0_r.
Qed.

(** The outer loop of the offsets, over the ranks. *)
Lemma offsets_rank_loop_spec k :
  (k <= G)%nat ->
  foldl (offsets_rank_body n (vector G (layout_recvcount n)) (matrix n G layout_size))
        (0, replicate n (replicate G 0)) (seq 0 k)
  = (layout_rank_displacement k,
     matrix n G (fun ec rc => if decide (rc < k)%nat then layout_offset ec rc else 0)).
Proof.
  intros Hk. induction k as [|k IH].
  - simpl. f_equal. rewrite matrix_replicate. apply matrix_ext. intros i j Hi Hj.
    destruct (decide (j < 0)%nat); [lia | done].
  - rewrite seq_S, foldl_app, IH by lia. simpl.
    rewrite lookup_total_vector by lia.
    rewrite offsets_entry_loop_spec by lia. f_equal.
    apply matrix_ext. intros i j Hi Hj.
    repeat case_decide; destruct_and?; subst; try done; lia.
Qed.

Lemma offsets_loop_full :
  offsets_loop G n (vector G (layout_recvcount n)) (matrix n G layout_size)
               (replicate n (replicate G 0))
  = matrix n G layout_offset.
Proof.
  unfold offsets_loop. rewrite offsets_rank_loop_spec by done. simpl.
  apply matrix_ext. intros i j Hi Hj. by rewrite decide_True.
Qed.

End Loops.

(** ** The run of [AllgatherOp::Execute] *)

Section Allocation.

Context {R : Type}.
Variable tensor_sizes : list Z.
Variable G : nat.
Variable entries : list TensorTableEntry.

Local Abbreviation n := (length entries).
Local Abbreviation lsize := (layout_size tensor_sizes G (slice_elements_of entries)).
Local Abbreviation lrecv := (layout_recvcount tensor_sizes G (slice_elements_of entries)).
Local Abbreviation output_shape_of := (output_shape_of tensor_sizes G).
Local Abbreviation allocation := (allocation tensor_sizes G).
Local Abbreviation allocation_ok := (allocation_ok tensor_sizes G entries).
Local Abbreviation entries_after := (entries_after tensor_sizes G entries).
Local Abbreviation allocation_calls := (allocation_calls (R:=R) tensor_sizes G entries).
Local Abbreviation log_after := (log_after (R:=R) tensor_sizes G entries).
Local Abbreviation state_after := (state_after (R:=R) tensor_sizes G entries).

Lemma entries_after_0 : entries_after 0 = entries.
Proof.
  apply list_eq. intros i. unfold entries_after. rewrite list_lookup_imap.
  destruct (entries !! i) as [e|]; [|done].
  change (Some (if decide (i < 0)%nat
                then set_output e (snd (allocation i e)) else e) = Some e).
  by rewrite decide_False by lia.
Qed.

Lemma length_entries_after j : length (entries_after j) = n.
Proof. unfold entries_after. by rewrite length_imap. Qed.

Lemma lookup_entries_after j ec e :
  entries !! ec = Some e ->
  entries_after j !! ec
  = Some (if decide (ec < j)%nat then set_output e (snd (allocation ec e)) else e).
Proof. intros H. unfold entries_after. by rewrite list_lookup_imap, H. Qed.

Lemma entries_after_S j e :
  entries !! j = Some e ->
  <[j := set_output e (snd (allocation j e))]> (entries_after j) = entries_after (S j).
Proof.
  intros He. apply list_eq. intros i. unfold entries_after.
  destruct (decide (i = j)) as [->|Hne].
  - rewrite list_lookup_insert_eq
      by (rewrite length_imap; by eapply lookup_lt_Some).
    rewrite list_lookup_imap, He. simpl. by rewrite decide_True by lia.
  - rewrite list_lookup_insert_ne by done. rewrite !list_lookup_imap.
    destruct (entries !! i); simpl; [|done].
    repeat case_decide; done || lia.
Qed.

Lemma log_after_S j e :
  entries !! j = Some e ->
  log_after j ++ [CallAllocateOutput j (output_shape_of j e) (fst (allocation j e))]
  = log_after (S j).
Proof.
  intros He. unfold log_after. simpl. f_equal. symmetry. apply take_S_r.
  unfold allocation_calls. by rewrite list_lookup_imap, He.
Qed.

Lemma names_entries_after j : tensor_name <$> entries_after j = tensor_name <$> entries.
Proof.
  apply list_eq. intros i. unfold entries_after.
  rewrite !list_lookup_fmap, list_lookup_imap.
  destruct (entries !! i); simpl; [|done]. by case_decide.
Qed.

Lemma state_after_0 :
  mkAllocState entries (replicate G 0) (replicate n (replicate G 0))
               [ActivityStartAll (tensor_name <$> entries) ALLOCATE_OUTPUT]
  = state_after 0.
Proof.
  unfold state_after. apply f_equal4.
  - by rewrite entries_after_0.
  - rewrite vector_replicate. by apply vector_ext.
  - rewrite matrix_replicate. apply matrix_ext. intros i j Hi Hj.
    by rewrite decide_False by lia.
  - done.
Qed.

Hypothesis Hlen : in_size_t (Z.of_nat (length tensor_sizes)).
Hypothesis Htab : (n * G <= length tensor_sizes)%nat.

(** One turn of the loop over the entries. *)
Lemma allocate_loop_step j e range :
  entries !! j = Some e ->
  allocate_loop tensor_sizes (Z.of_nat G) (j :: range) (state_after j)
  = if Status_ok (fst (allocation j e))
    then allocate_loop tensor_sizes (Z.of_nat G) range (state_after (S j))
    else Some (Some (fst (allocation j e)), state_after (S j)).
Proof.
  intros He. pose proof (lookup_lt_Some _ _ _ He) as Hj.
  assert (Hne : slice_elements_of entries j = Shape.num_elements (single_slice_shape e)).
  { unfold slice_elements_of. by rewrite He. }
  simpl. rewrite (lookup_entries_after j j e He), decide_False by lia. simpl.
  rewrite Nat2Z.id, <- Hne.
  rewrite (sizes_loop_spec tensor_sizes G n (slice_elements_of entries)) by (done || nia).
  simpl.
  change (OpContext.AllocateOutput (context e) _ (output e)) with (allocation j e).
  destruct (allocation j e) as [status out] eqn:Ha. simpl.
  change (Shape.AppendShape _ _) with (output_shape_of j e).
  assert (Hst : mkAllocState
            (<[j := set_output e out]> (entries_after j))
            (vector G (fun rc => if decide (rc < G)%nat
                                 then to_int (to_int64 (lrecv j rc + lsize j rc))
                                 else lrecv j rc))
            (matrix n G (fun i j0 => if decide (i = j /\ (j0 < G)%nat) then lsize j j0
                                     else if decide (i < j)%nat then lsize i j0 else 0))
            (log_after j ++ [CallAllocateOutput j (output_shape_of j e) status])
          = state_after (S j)).
  { unfold state_after. apply f_equal4.
    - rewrite <- (entries_after_S j e He). by rewrite Ha.
    - apply vector_ext. intros i Hi. by rewrite decide_True.
    - apply matrix_ext. intros i i' Hi Hi'.
      repeat case_decide; destruct_and?; subst; try done; lia.
    - rewrite <- (log_after_S j e He). by rewrite Ha. }
  by rewrite <- Hst.
Qed.

(** The whole loop, from entry [j] on: it stops at the first entry whose
    allocation fails. *)
Lemma allocate_loop_spec m j :
  (j + m = n)%nat ->
  (allocate_loop tensor_sizes (Z.of_nat G) (seq j m) (state_after j)
   = Some (None, state_after n)
   /\ forall i, (j <= i < n)%nat -> allocation_ok i = true)
  \/ exists k e,
      (j <= k < n)%nat /\ entries !! k = Some e /\
      Status_ok (fst (allocation k e)) = false /\
      (forall i, (j <= i < k)%nat -> allocation_ok i = true) /\
      allocate_loop tensor_sizes (Z.of_nat G) (seq j m) (state_after j)
      = Some (Some (fst (allocation k e)), state_after (S k)).
Proof.
  revert j. induction m as [|m IH]; intros j Hjm.
  - left. replace j with n by lia. split; [done | intros; lia].
  - destruct (lookup_lt_is_Some_2 entries j) as [e He]; [lia|].
    change (seq j (S m)) with (j :: seq (S j) m).
    rewrite (allocate_loop_step j e _ He).
    destruct (Status_ok (fst (allocation j e))) eqn:Hok.
    + destruct (IH (S j)) as [[Hrun Hall]|(k & e' & Hk & He' & Hfail & Hall & Hrun)]; [lia| |].
      * left. split; [done|]. intros i Hi.
        destruct (decide (i = j)) as [->|]; [|apply Hall; lia].
        unfold allocation_ok. by rewrite He.
      * right. exists k, e'.
        split; [lia|]. split; [done|]. split; [done|]. split; [|done].
        intros i Hi. destruct (decide (i = j)) as [->|]; [|apply Hall; lia].
        unfold allocation_ok. by rewrite He.
    + right. exists j, e.
      split; [lia|]. split; [done|]. split; [done|]. split; [intros; lia | done].
Qed.

End Allocation.

Section GatherRun.

Context {R : Type}.
Variable GetElementSize : DataType -> Z.
Variable DoAllgather : AllgatherArgs -> R.
Variable gs : GlobalState.t.
Variable entries : list TensorTableEntry.
Variable response : Response.

Local Abbreviation ts := (tensor_sizes response).
Local Abbreviation G := (Z.to_nat (GlobalState.size gs)).
Local Abbreviation n := (length entries).
Local Abbreviation sl := (slice_elements_of entries).
Local Abbreviation gather_args := (gather_args GetElementSize gs entries response).
Local Abbreviation gather_log := (gather_log GetElementSize DoAllgather gs entries response).

(** [AllgatherOp::Execute] either finds every allocation successful and
    calls the transport primitive with the layout, or returns the status
    of the first allocation that fails. *)
Lemma AllgatherExecute_spec :
  gather_wf gs entries response ->
  (AllgatherExecute GetElementSize DoAllgather gs entries response
   = Some (Status_OK, entries_after ts G entries n, gather_log)
   /\ forall i, (i < n)%nat -> allocation_ok ts G entries i = true)
  \/ exists k e,
      (k < n)%nat /\ entries !! k = Some e /\
      Status_ok (fst (allocation ts G k e)) = false /\
      (forall i, (i < k)%nat -> allocation_ok ts G entries i = true) /\
      AllgatherExecute GetElementSize DoAllgather gs entries response
      = Some (fst (allocation ts G k e), entries_after ts G entries (S k),
              log_after ts G entries (S k)).
Proof.
  intros (Hne & HG & Hlen & Htab).
  assert (Hn : (0 < n)%nat) by (destruct entries; [done | simpl; lia]).
  destruct (lookup_lt_is_Some_2 entries 0 Hn) as [first H0].
  assert (Helt : match entries with
                 | e :: _ => GetElementSize (Tensor.dtype (tensor e))
                 | [] => 0
                 end = GetElementSize (Tensor.dtype (tensor first))).
  { destruct entries; simplify_eq/=; done. }
  unfold AllgatherExecute, gather_log, gather_args, layout_total_size.
  remember (Z.to_nat (GlobalState.size gs)) as G0 eqn:HG0.
  assert (Hsz : GlobalState.size gs = Z.of_nat G0) by lia.
  rewrite Hsz, Helt. clear Helt.
  destruct (Z.of_nat G0 <? 0) eqn:Hneg; [lia|].
  rewrite H0. simpl. rewrite (state_after_0 ts G0 entries).
  destruct (allocate_loop_spec (R:=R) ts G0 entries Hlen Htab n 0 eq_refl)
    as [[Hrun Hall]|(k & e & Hk & He & Hfail & Hall & Hrun)].
  - left. split; [|intros; apply Hall; lia].
    rewrite Hrun. simpl.
    rewrite (lookup_entries_after ts G0 entries n 0 first H0). simpl.
    assert (Hsizes : matrix n G0 (fun i rc => if decide (i < n)%nat
                                              then layout_size ts G0 sl i rc else 0)
                     = matrix n G0 (layout_size ts G0 sl)).
    { apply matrix_ext. intros i j Hi Hj. by rewrite decide_True. }
    rewrite Hsizes, displcmnts_loop_full, offsets_loop_full.
    unfold at_int. destruct (Z.of_nat G0 - 1 <? 0) eqn:Hneg'; [lia|].
    replace (Z.to_nat (Z.of_nat G0 - 1)) with (G0 - 1)%nat by lia.
    rewrite !lookup_vector by lia. simpl.
    rewrite names_entries_after.
    destruct (decide (0 < n)%nat); [|lia].
    rewrite <- app_assoc. done.
  - right. exists k, e.
    split; [lia|]. split; [done|]. split; [done|]. split; [intros; apply Hall; lia|].
    by rewrite Hrun.
Qed.

End GatherRun.

(** ** Sums *)

Section Sums.

Lemma sum_to_ext k f g :
  (forall i, (i < k)%nat -> f i = g i) -> sum_to k f = sum_to k g.
Proof.
  induction k as [|k IH]; intros H; simpl; [done|].
  rewrite IH by (intros; apply H; lia). rewrite H by lia. done.
Qed.

Lemma sum_to_nonneg k f :
  (forall i, (i < k)%nat -> 0 <= f i) -> 0 <= sum_to k f.
Proof.
  induction k as [|k IH]; intros H; simpl; [lia|].
  specialize (H k ltac:(lia)) as Hk.
  assert (0 <= sum_to k f) by (apply IH; intros; apply H; lia). lia.
Qed.

Lemma sum_to_le j k f :
  (j <= k)%nat -> (forall i, (i < k)%nat -> 0 <= f i) -> sum_to j f <= sum_to k f.
Proof.
  intros Hjk. induction k as [|k IH]; intros H.
  - replace j with 0%nat by lia. done.
  - destruct (decide (j = S k)) as [->|]; [done|]. simpl.
    assert (sum_to j f <= sum_to k f) by (apply IH; [lia | intros; apply H; lia]).
    specialize (H k ltac:(lia)). lia.
Qed.

Lemma sum_to_term_le i k f :
  (i < k)%nat -> (forall i, (i < k)%nat -> 0 <= f i) -> f i <= sum_to k f.
Proof.
  intros Hik H.
  pose proof (sum_to_le (S i) k f ltac:(lia) H) as Hle. simpl in Hle.
  assert (0 <= sum_to i f) by (apply sum_to_nonneg; intros; apply H; lia). lia.
Qed.

Lemma sum_to_add k f g :
  sum_to k (fun i => f i + g i) = sum_to k f + sum_to k g.
Proof. induction k as [|k IH]; simpl; lia. Qed.

Lemma sum_to_zero k : sum_to k (fun _ => 0) = 0.
Proof. induction k as [|k IH]; simpl; lia. Qed.

(** Entries first or ranks first: the total is the same. *)
Lemma sum_to_exchange n m (f : nat -> nat -> Z) :
  sum_to n (fun i => sum_to m (fun j => f i j))
  = sum_to m (fun j => sum_to n (fun i => f i j)).
Proof.
  induction n as [|n IH]; simpl.
  - by rewrite sum_to_zero.
  - by rewrite sum_to_add, IH.
Qed.

Lemma sumZ_app l1 l2 : sumZ (l1 ++ l2) = sumZ l1 + sumZ l2.
Proof. induction l1 as [|x l1 IH]; simpl; lia. Qed.

Lemma sumZ_vector k f : sumZ (vector k f) = sum_to k f.
Proof.
  induction k as [|k IH]; [done|].
  rewrite vector_S, sumZ_app, IH. simpl. lia.
Qed.

Lemma take_vector {A : Type} j k (f : nat -> A) :
  (j <= k)%nat -> take j (vector k f) = vector j f.
Proof.
  intros Hjk. apply list_eq. intros i.
  destruct (decide (i < j)%nat).
  - rewrite lookup_take_lt by done. rewrite !lookup_vector by lia. done.
  - rewrite lookup_vector_ge by lia. apply lookup_ge_None.
    rewrite length_take, length_vector. lia.
Qed.

End Sums.

(** ** The layout when nothing overflows *)

Section InRange.

Variable tensor_sizes : list Z.
Variable G n : nat.
Variable slice_elements : nat -> Z.

Local Abbreviation component_size := (component_size tensor_sizes G slice_elements).
Local Abbreviation rank_total := (rank_total tensor_sizes G n slice_elements).
Local Abbreviation components_total := (components_total tensor_sizes G n slice_elements).
Local Abbreviation lsize := (layout_size tensor_sizes G slice_elements).
Local Abbreviation lrecv := (layout_recvcount tensor_sizes G slice_elements).
Local Abbreviation ldispl := (layout_displcmnt tensor_sizes G n slice_elements).
Local Abbreviation lrank := (layout_rank_displacement tensor_sizes G n slice_elements).
Local Abbreviation loffset := (layout_offset tensor_sizes G n slice_elements).

Hypothesis Hnonneg :
  forall ec rc, (ec < n)%nat -> (rc < G)%nat -> 0 <= component_size ec rc.
Hypothesis Htotal : components_total <= INT_MAX.

Lemma components_total_ranks : components_total = sum_to G rank_total.
Proof. unfold components_total, rank_total. apply sum_to_exchange. Qed.

Lemma rank_total_nonneg rc : (rc < G)%nat -> 0 <= rank_total rc.
Proof. intros H. apply sum_to_nonneg. intros. by apply Hnonneg. Qed.

Lemma rank_prefix_bound rc :
  (rc <= G)%nat -> 0 <= sum_to rc rank_total <= INT_MAX.
Proof.
  intros H. split.
  - apply sum_to_nonneg. intros. apply rank_total_nonneg. lia.
  - rewrite components_total_ranks in Htotal.
    pose proof (sum_to_le rc G rank_total H rank_total_nonneg). lia.
Qed.

Lemma rank_total_bound rc : (rc < G)%nat -> 0 <= rank_total rc <= INT_MAX.
Proof.
  intros H. split; [by apply rank_total_nonneg|].
  pose proof (sum_to_term_le rc G rank_total H rank_total_nonneg).
  rewrite components_total_ranks in Htotal. lia.
Qed.

Lemma entry_prefix_bound j rc :
  (j <= n)%nat -> (rc < G)%nat ->
  0 <= sum_to j (fun ec => component_size ec rc) <= rank_total rc.
Proof.
  intros Hj Hrc. split.
  - apply sum_to_nonneg. intros. apply Hnonneg; lia.
  - apply sum_to_le; [done|]. intros. by apply Hnonneg.
Qed.

Lemma component_size_bound ec rc :
  (ec < n)%nat -> (rc < G)%nat -> 0 <= component_size ec rc <= INT_MAX.
Proof.
  intros Hec Hrc. split; [by apply Hnonneg|].
  pose proof (sum_to_term_le ec n (fun ec => component_size ec rc) Hec
                (fun i Hi => Hnonneg i rc Hi Hrc)) as Hle.
  pose proof (rank_total_bound rc Hrc). unfold rank_total in *. simpl in Hle. lia.
Qed.

Lemma layout_size_in_range ec rc :
  (ec < n)%nat -> (rc < G)%nat -> lsize ec rc = component_size ec rc.
Proof.
  intros Hec Hrc. unfold layout_size. fold (component_size ec rc).
  pose proof (component_size_bound ec rc Hec Hrc).
  apply to_int64_id. unfold in_int64, INT64_MAX, INT_MAX in *. lia.
Qed.

Lemma layout_recvcount_in_range j rc :
  (j <= n)%nat -> (rc < G)%nat ->
  lrecv j rc = sum_to j (fun ec => component_size ec rc).
Proof.
  intros Hj Hrc. induction j as [|j IH]; [done|]. simpl.
  rewrite IH, layout_size_in_range by lia.
  pose proof (entry_prefix_bound (S j) rc Hj Hrc) as Hb. simpl in Hb.
  pose proof (rank_total_bound rc Hrc).
  rewrite to_int64_id by (unfold in_int64, INT64_MAX, INT_MAX in *; lia).
  apply to_int_id. unfold in_int, INT_MAX in *. lia.
Qed.

Lemma layout_displcmnt_in_range rc :
  (rc <= G)%nat -> ldispl rc = sum_to rc rank_total.
Proof.
  intros Hrc. induction rc as [|rc IH]; [done|]. simpl.
  rewrite IH, layout_recvcount_in_range by lia. fold (rank_total rc).
  pose proof (rank_prefix_bound (S rc) Hrc) as Hb. simpl in Hb.
  apply to_int_id. unfold in_int, INT_MAX in *. lia.
Qed.

Lemma layout_rank_displacement_in_range rc :
  (rc <= G)%nat -> lrank rc = sum_to rc rank_total.
Proof.
  intros Hrc. induction rc as [|rc IH]; [done|]. simpl.
  rewrite IH, layout_recvcount_in_range by lia. fold (rank_total rc).
  pose proof (rank_prefix_bound (S rc) Hrc) as Hb. simpl in Hb.
  pose proof (rank_total_bound rc ltac:(lia)).
  rewrite (to_uint_id (rank_total rc)) by (unfold in_uint, INT_MAX in *; lia).
  apply to_uint_id. unfold in_uint, INT_MAX in *. lia.
Qed.

Lemma layout_offset_in_range ec rc :
  (ec <= n)%nat -> (rc < G)%nat ->
  loffset ec rc
  = sum_to rc rank_total + sum_to ec (fun e => component_size e rc).
Proof.
  intros Hec Hrc. induction ec as [|ec IH]; simpl.
  - rewrite layout_rank_displacement_in_range by lia. lia.
  - rewrite IH, layout_size_in_range by lia.
    pose proof (entry_prefix_bound (S ec) rc Hec Hrc) as Hb. simpl in Hb.
    pose proof (rank_prefix_bound (S rc) ltac:(lia)) as Hb'. simpl in Hb'.
    pose proof (rank_prefix_bound rc ltac:(lia)).
    rewrite to_int64_id by (unfold in_int64, INT64_MAX, INT_MAX in *; lia). lia.
Qed.

Lemma layout_total_size_in_range :
  (1 <= G)%nat ->
  layout_total_size tensor_sizes G n slice_elements = sum_to G rank_total.
Proof.
  intros HG. unfold layout_total_size.
  rewrite layout_displcmnt_in_range, layout_recvcount_in_range by lia.
  fold (rank_total (G - 1)).
  pose proof (rank_prefix_bound G ltac:(lia)) as Hb.
  assert (Hsplit : sum_to G rank_total
                   = sum_to (G - 1) rank_total + rank_total (G - 1)).
  { destruct G as [|G']; [lia|]. simpl. by rewrite Nat.sub_0_r. }
  rewrite Hsplit in *.
  apply to_int_id. unfold in_int, INT_MAX in *. lia.
Qed.

End InRange.

(** ** The gather layout: statements *)

Section GatherStatements.

Context {R : Type}.
Variable GetElementSize : DataType -> Z.
Variable DoAllgather : AllgatherArgs -> R.

(** A run on a well-formed input returns; when it returns success, its
    last call is the transport call, with the arguments in closed form. *)
Lemma AllgatherExecute_args (P : AllgatherArgs -> Prop) gs entries response :
  gather_wf gs entries response ->
  P (gather_args GetElementSize gs entries response) ->
  exists st entries' log,
    AllgatherExecute GetElementSize DoAllgather gs entries response
    = Some (st, entries', log) /\
    (Status_ok st = true ->
     exists args, last log = Some (CallDoAllgather args (DoAllgather args)) /\ P args).
Proof.
  intros Hwf HP.
  destruct (AllgatherExecute_spec GetElementSize DoAllgather gs entries response Hwf)
    as [[Hrun _]|(k & e & _ & _ & Hfail & _ & Hrun)].
  - eexists _, _, _. split; [exact Hrun|]. intros _.
    eexists. split; [|exact HP].
    unfold gather_log. by rewrite last_app.
  - eexists _, _, _. split; [exact Hrun|]. intros Hok. congruence.
Qed.

Lemma gather_in_range_offsets gs entries response :
  gather_wf gs entries response ->
  gather_in_range gs entries response ->
  offset_table_ok (group_size gs) (length entries)
                  (gather_args GetElementSize gs entries response).
Proof.
  intros (Hne & HG & Hlen & Htab) [Hnn Htot].
  unfold gather_component_size, gather_components_total, group_size in *.
  set (ts := tensor_sizes response) in *.
  set (G := Z.to_nat (GlobalState.size gs)) in *.
  set (n := length entries) in *.
  set (sl := slice_elements_of entries) in *.
  assert (Hn : (0 < n)%nat) by (subst n; destruct entries; [done | simpl; lia]).
  unfold offset_table_ok, gather_args. simpl. fold ts G n sl. split.
  - intros rc Hrc.
    rewrite get2_matrix, take_vector, sumZ_vector, lookup_vector by lia.
    rewrite (layout_offset_in_range ts G n sl Hnn Htot) by lia.
    rewrite (layout_displcmnt_in_range ts G n sl Hnn Htot) by lia.
    simpl. split; [|f_equal; lia].
    rewrite Z.add_0_r. apply sum_to_ext. intros i Hi.
    by rewrite (layout_recvcount_in_range ts G n sl Hnn Htot) by lia.
  - intros ec rc Hec Hrc. rewrite !get2_matrix by lia.
    destruct ec as [|ec]; [lia|]. simpl. rewrite Nat.sub_0_r.
    rewrite (layout_offset_in_range ts G n sl Hnn Htot) by lia.
    rewrite (layout_size_in_range ts G n sl Hnn Htot) by lia.
    pose proof (entry_prefix_bound ts G n sl Hnn (S ec) rc ltac:(lia) Hrc) as Hb.
    pose proof (rank_prefix_bound ts G n sl Hnn Htot (S rc) ltac:(lia)) as Hb'.
    pose proof (rank_prefix_bound ts G n sl Hnn Htot rc ltac:(lia)).
    simpl in Hb, Hb'. unfold rank_total in Hb' at 2.
    apply to_int64_id. unfold in_int64, INT64_MAX, INT_MAX in *. lia.
Qed.

Lemma gather_in_range_counts gs entries response :
  gather_wf gs entries response ->
  gather_in_range gs entries response ->
  counts_ok (group_size gs) (gather_components_total gs entries response)
            (gather_args GetElementSize gs entries response).
Proof.
  intros (Hne & HG & Hlen & Htab) [Hnn Htot].
  unfold gather_component_size, gather_components_total, group_size in *.
  set (ts := tensor_sizes response) in *.
  set (G := Z.to_nat (GlobalState.size gs)) in *.
  set (n := length entries) in *.
  set (sl := slice_elements_of entries) in *.
  assert (HG' : (1 <= G)%nat) by lia.
  assert (Hrecv : sumZ (vector G (layout_recvcount ts G sl n)) = components_total ts G n sl).
  { rewrite sumZ_vector, (components_total_ranks ts G n sl).
    apply sum_to_ext. intros i Hi.
    by rewrite (layout_recvcount_in_range ts G n sl Hnn Htot) by lia. }
  unfold counts_ok, gather_args. simpl. fold ts G n sl.
  rewrite !length_vector. split; [done|]. split; [done|]. split; [done|].
  split; [by rewrite lookup_vector by lia|]. split; [|split].
  - intros rc Hrc. rewrite !lookup_total_vector by lia.
    destruct rc as [|rc]; [lia|]. simpl. rewrite Nat.sub_0_r.
    rewrite (layout_displcmnt_in_range ts G n sl Hnn Htot) by lia.
    rewrite (layout_recvcount_in_range ts G n sl Hnn Htot) by lia.
    pose proof (rank_prefix_bound ts G n sl Hnn Htot (S rc) ltac:(lia)) as Hb.
    simpl in Hb.
    change (sum_to n (fun ec => component_size ts G sl ec rc))
      with (rank_total ts G n sl rc).
    apply to_int_id. unfold in_int, INT_MAX in *. lia.
  - rewrite !lookup_total_vector by lia.
    rewrite (layout_total_size_in_range ts G n sl Hnn Htot) by lia.
    rewrite (layout_displcmnt_in_range ts G n sl Hnn Htot) by lia.
    rewrite (layout_recvcount_in_range ts G n sl Hnn Htot) by lia.
    destruct G as [|G']; [lia|]. simpl. by rewrite Nat.sub_0_r.
  - rewrite Hrecv, (layout_total_size_in_range ts G n sl Hnn Htot) by lia.
    by rewrite (components_total_ranks ts G n sl).
Qed.

End GatherStatements.

(** ** Concrete inputs *)

Lemma small_wf : gather_wf small_gs small_entries small_response.
Proof.
  unfold gather_wf, in_size_t. simpl. split; [done|]. split; [lia|]. split; lia.
Defined.

Lemma small_in_range : gather_in_range small_gs small_entries small_response.
Proof.
  split.
  - intros ec rc Hec Hrc.
    destruct ec as [|[|ec]]; [| |simpl in Hec; lia];
      (destruct rc as [|[|rc]]; [| |unfold group_size in Hrc; simpl in Hrc; lia]);
      vm_compute; discriminate.
  - vm_compute. discriminate.
Defined.

Lemma big_wf : gather_wf big_gs big_entries big_response.
Proof.
  unfold gather_wf, in_size_t. simpl. split; [done|]. split; [lia|]. split; lia.
Defined.

(** The run on the small batch. *)
Example small_run :
  exists entries' log a,
    AllgatherExecute (fun _ => 1) (fun _ => tt) small_gs small_entries small_response
    = Some (Status_OK, entries', log) /\
    last log = Some (CallDoAllgather a tt) /\
    ag_recvcounts a = [28; 40] /\ ag_displcmnts a = [0; 28] /\
    ag_entry_component_sizes a = [[8; 12]; [20; 28]] /\
    ag_entry_component_offsets a = [[0; 28]; [8; 40]] /\
    ag_total_size a = 68 /\ ag_element_size a = 1.
Proof.
  eexists _, _, _. split; [vm_compute; reflexivity|]. repeat split.
Qed.

(** ** The claims about the gather layout *)

(** C1 (amended).  In the Gather operation, for every non-empty batch and
    every group size [G >= 1], provided no component size is negative and the
    total of all component sizes is at most [INT_MAX = 2^31 - 1], the run of
    [Execute] returns and, when it reaches the transport call, the offset
    table it passes satisfies: for every rank [rc], the offset of entry 0 at
    [rc] is the sum of [recvcounts[0..rc-1]], which is [displcmnts[rc]]; and
    for every entry [e > 0], the offset of [e] at [rc] is the offset of
    [e - 1] at [rc] plus the component size of [e - 1] at [rc]. *)
Theorem gather_offset_table {R : Type} (GetElementSize : DataType -> Z)
    (DoAllgather : AllgatherArgs -> R) gs entries response :
  gather_wf gs entries response ->
  gather_in_range gs entries response ->
  exists st entries' log,
    AllgatherExecute GetElementSize DoAllgather gs entries response
    = Some (st, entries', log) /\
    (Status_ok st = true ->
     exists args,
       last log = Some (CallDoAllgather args (DoAllgather args)) /\
       offset_table_ok (group_size gs) (length entries) args).
Proof.
  intros Hwf Hrange. apply AllgatherExecute_args; [done|].
  by apply gather_in_range_offsets.
Qed.

Lemma gather_offset_table_witness :
  gather_wf small_gs small_entries small_response /\
  gather_in_range small_gs small_entries small_response /\
  exists st entries' log,
    AllgatherExecute (fun _ => 1) (fun _ => tt) small_gs small_entries small_response
    = Some (st, entries', log) /\
    (Status_ok st = true ->
     exists args,
       last log = Some (CallDoAllgather args tt) /\
       offset_table_ok (group_size small_gs) (length small_entries) args).
Proof.
  split; [exact small_wf|]. split; [exact small_in_range|].
  exact (gather_offset_table (fun _ => 1) (fun _ => tt) small_gs small_entries
           small_response small_wf small_in_range).
Defined.

(** C1 as stated fails: with one entry of [3 * 2^30] elements on rank 0 of
    two ranks, [recvcounts[0]] is the [int] [-1073741824], so is
    [displcmnts[1]], while the offset of entry 0 at rank 1, computed in
    [unsigned int], is [3221225472].  No signed operation overflows in this
    run: the one conversion that changes a value is the narrowing of the
    [int64_t] product to the [int] [recvcounts[0]]. *)
Lemma gather_offset_table_overflow :
  gather_wf big_gs big_entries big_response /\
  exists entries' log args,
    AllgatherExecute (fun _ => 1) (fun _ => tt) big_gs big_entries big_response
    = Some (Status_OK, entries', log) /\
    last log = Some (CallDoAllgather args tt) /\
    ag_recvcounts args = [-1073741824; 0] /\
    ag_displcmnts args = [0; -1073741824] /\
    ag_entry_component_offsets args = [[0; 3221225472]] /\
    ~ offset_table_ok 2 1 args.
Proof.
  split; [exact big_wf|].
  eexists _, _, _. split; [vm_compute; reflexivity|].
  split; [reflexivity|]. split; [reflexivity|]. split; [reflexivity|].
  split; [reflexivity|].
  intros [H _]. destruct (H 1%nat ltac:(lia)) as [H1 _].
  vm_compute in H1. discriminate.
Qed.

(** C2 (amended).  In the Gather operation, for every non-empty batch and
    every per-entry-per-rank size table, provided no component size is
    negative and the total of all component sizes is at most
    [INT_MAX = 2^31 - 1]: the sum over all ranks of [recvcounts[rank]] equals
    the sum over all entries and ranks of the component size (the rank's
    leading-dimension extent times the element count of the entry's slice
    shape); [displcmnts[0] = 0] and
    [displcmnts[rank] = displcmnts[rank-1] + recvcounts[rank-1]]; and the
    total length passed to the transport call is
    [displcmnts[G-1] + recvcounts[G-1]], the sum of all receive counts. *)
Theorem gather_counts_and_displacements {R : Type} (GetElementSize : DataType -> Z)
    (DoAllgather : AllgatherArgs -> R) gs entries response :
  gather_wf gs entries response ->
  gather_in_range gs entries response ->
  exists st entries' log,
    AllgatherExecute GetElementSize DoAllgather gs entries response
    = Some (st, entries', log) /\
    (Status_ok st = true ->
     exists args,
       last log = Some (CallDoAllgather args (DoAllgather args)) /\
       counts_ok (group_size gs) (gather_components_total gs entries response) args).
Proof.
  intros Hwf Hrange. apply AllgatherExecute_args; [done|].
  by apply gather_in_range_counts.
Qed.

Lemma gather_counts_and_displacements_witness :
  gather_wf small_gs small_entries small_response /\
  gather_in_range small_gs small_entries small_response /\
  exists st entries' log,
    AllgatherExecute (fun _ => 1) (fun _ => tt) small_gs small_entries small_response
    = Some (st, entries', log) /\
    (Status_ok st = true ->
     exists args,
       last log = Some (CallDoAllgather args tt) /\
       counts_ok (group_size small_gs)
                 (gather_components_total small_gs small_entries small_response) args).
Proof.
  split; [exact small_wf|]. split; [exact small_in_range|].
  exact (gather_counts_and_displacements (fun _ => 1) (fun _ => tt) small_gs
           small_entries small_response small_wf small_in_range).
Defined.

(** C2 as stated fails on the same input: the only component has
    [3221225472] elements, the receive counts sum to [-1073741824], and so
    does the total length passed to the transport call. *)
Lemma gather_counts_overflow :
  gather_wf big_gs big_entries big_response /\
  gather_component_size big_gs big_entries big_response 0 0 = 3221225472 /\
  gather_components_total big_gs big_entries big_response = 3221225472 /\
  exists entries' log args,
    AllgatherExecute (fun _ => 1) (fun _ => tt) big_gs big_entries big_response
    = Some (Status_OK, entries', log) /\
    last log = Some (CallDoAllgather args tt) /\
    sumZ (ag_recvcounts args) = -1073741824 /\
    ag_total_size args = -1073741824 /\
    ~ counts_ok (group_size big_gs)
                (gather_components_total big_gs big_entries big_response) args.
Proof.
  split; [exact big_wf|]. split; [reflexivity|]. split; [reflexivity|].
  eexists _, _, _. split; [vm_compute; reflexivity|].
  split; [reflexivity|]. split; [reflexivity|]. split; [reflexivity|].
  intros (_ & _ & H & _). vm_compute in H. discriminate.
Qed.

(** C3.  For a Gather of exactly one entry across a group of 3, with
    per-rank leading-dimension extents [{2, 0, 5}] and slice shape [[4]],
    [Execute] asks for the entry's output with shape [[7, 4]] and stores the
    answer in the entry; when the allocation succeeds, it passes
    [recvcounts = {8, 0, 20}] and [displcmnts = {0, 8, 8}] to the transport
    call. *)
Theorem gather_scenario {R : Type} (GetElementSize : DataType -> Z)
    (DoAllgather : AllgatherArgs -> R) gs e response d :
  GlobalState.size gs = 3 ->
  shape_ (Tensor.shape (tensor e)) = [d; 4] ->
  tensor_sizes response = [2; 0; 5] ->
  let answer := OpContext.AllocateOutput (context e) (mkTensorShape [7; 4]) (output e) in
  exists st log,
    AllgatherExecute GetElementSize DoAllgather gs [e] response
    = Some (st, [set_output e (snd answer)], log) /\
    log !! 1%nat = Some (CallAllocateOutput 0 (mkTensorShape [7; 4]) (fst answer)) /\
    (Status_ok (fst answer) = false -> st = fst answer) /\
    (Status_ok (fst answer) = true ->
     st = Status_OK /\
     exists args,
       last log = Some (CallDoAllgather args (DoAllgather args)) /\
       ag_recvcounts args = [8; 0; 20] /\
       ag_displcmnts args = [0; 8; 8]).
Proof.
  intros Hsize Hshape Hts answer.
  assert (Hwf : gather_wf gs [e] response).
  { unfold gather_wf, in_size_t. rewrite Hsize, Hts. simpl.
    split; [done|]. split; [lia|]. split; lia. }
  assert (Hslice : single_slice_shape e = mkTensorShape [4]).
  { unfold single_slice_shape, Shape.dims, Shape.dim_size. by rewrite Hshape. }
  assert (Hout : output_shape_of [2; 0; 5] 3 0 e = mkTensorShape [7; 4]).
  { unfold output_shape_of. by rewrite Hslice. }
  assert (Hans : allocation [2; 0; 5] 3 0 e = answer).
  { unfold allocation. by rewrite Hout. }
  assert (Hentries : entries_after [2; 0; 5] 3 [e] 1 = [set_output e (snd answer)]).
  { unfold entries_after. simpl. by rewrite Hans. }
  assert (Hlog : log_after (R:=R) [2; 0; 5] 3 [e] 1
                 = [ActivityStartAll [tensor_name e] ALLOCATE_OUTPUT;
                    CallAllocateOutput 0 (mkTensorShape [7; 4]) (fst answer)]).
  { unfold log_after, allocation_calls. simpl. by rewrite Hans, Hout. }
  destruct (AllgatherExecute_spec GetElementSize DoAllgather gs [e] response Hwf)
    as [[Hrun Hall]|(k & e' & Hk & He' & Hfail & _ & Hrun)];
    unfold gather_log, gather_args in *;
    rewrite Hsize, Hts in *; change (Z.to_nat 3) with 3%nat in *;
    change (length [e]) with 1%nat in *.
  - specialize (Hall 0%nat ltac:(lia)). unfold allocation_ok in Hall. simpl in Hall.
    rewrite Hans in Hall.
    eexists _, _. split; [rewrite Hrun, Hentries; reflexivity|].
    rewrite Hlog. split; [done|]. split; [congruence|].
    intros _. split; [done|]. eexists. split; [reflexivity|].
    simpl. unfold vector. simpl. unfold layout_size, slice_elements_of. simpl.
    rewrite Hslice. split; reflexivity.
  - assert (k = 0%nat) by lia. subst k. simpl in He'. simplify_eq.
    rewrite Hans in *.
    eexists _, _. split; [rewrite Hrun, Hentries; reflexivity|].
    rewrite Hlog. split; [done|]. split; [done|]. congruence.
Qed.

Lemma gather_scenario_witness :
  GlobalState.size (GlobalState.mk 0 3 one_buffer) = 3 /\
  shape_ (Tensor.shape (tensor (byte_entry "t" accepting_context [2; 4]))) = [2; 4] /\
  tensor_sizes (mkResponse [2; 0; 5] EmptyString) = [2; 0; 5] /\
  exists st log,
    AllgatherExecute (fun _ => 1) (fun _ => tt) (GlobalState.mk 0 3 one_buffer)
                     [byte_entry "t" accepting_context [2; 4]] (mkResponse [2; 0; 5] EmptyString)
    = Some (st,
            [set_output (byte_entry "t" accepting_context [2; 4])
                        (Some (Tensor.mk 0 (mkTensorShape [7; 4]) 4096 28))],
            log) /\
    log !! 1%nat = Some (CallAllocateOutput 0 (mkTensorShape [7; 4]) Status_OK) /\
    (Status_ok Status_OK = false -> st = Status_OK) /\
    (Status_ok Status_OK = true ->
     st = Status_OK /\
     exists args,
       last log = Some (CallDoAllgather args tt) /\
       ag_recvcounts args = [8; 0; 20] /\
       ag_displcmnts args = [0; 8; 8]).
Proof.
  split; [reflexivity|]. split; [reflexivity|]. split; [reflexivity|].
  exact (gather_scenario (fun _ => 1) (fun _ => tt) (GlobalState.mk 0 3 one_buffer)
           (byte_entry "t" accepting_context [2; 4]) (mkResponse [2; 0; 5] EmptyString) 2
           eq_refl eq_refl eq_refl).
Defined.

(** ** Reduction staging *)

Lemma zip_outputs (entries : list TensorTableEntry) (outs : list Tensor.t) :
  output <$> entries = Some <$> outs ->
  (zip entries outs).*1 = entries /\
  Forall (fun eo => output eo.1 = Some eo.2) (zip entries outs).
Proof.
  revert outs. induction entries as [|e entries IH]; intros [|o outs] H;
    simplify_eq/=; [done|].
  destruct (IH outs) as [Hfst Hall]; [done|]. split; [by f_equal|].
  constructor; done.
Qed.

Section Staging.

Context {R : Type}.
Variable buffer : Z.

Local Abbreviation copy_in_from := (copy_in_from (R:=R) buffer).
Local Abbreviation copy_out_from := (copy_out_from (R:=R) buffer).

Lemma staged_length_nonneg es :
  Forall (fun e => 0 <= entry_size e) es -> 0 <= staged_length es.
Proof.
  unfold staged_length. induction 1 as [|e es He _ IH]; [done|].
  change (0 <= entry_size e + sumZ (entry_size <$> es)). lia.
Qed.

Lemma staged_length_cons e es :
  staged_length (e :: es) = entry_size e + staged_length es.
Proof. done. Qed.

Lemma staging_offset_0 es : staging_offset es 0 = 0.
Proof. done. Qed.

Lemma staging_offset_S e es i :
  staging_offset (e :: es) (S i) = entry_size e + staging_offset es i.
Proof. done. Qed.

Lemma memcpy_in_loop_spec all es offset log :
  Forall (fun e => 0 <= entry_size e) es ->
  0 <= offset -> offset + staged_length es <= INT64_MAX ->
  memcpy_in_loop (R:=R) buffer all es offset log
  = (offset + staged_length es, log ++ copy_in_from offset es).
Proof.
  intros Hnn. revert offset log.
  induction Hnn as [|e es He Hes IH]; intros offset log Hoff Hmax.
  - unfold staged_length. simpl. by rewrite Z.add_0_r, app_nil_r.
  - pose proof (staged_length_nonneg es Hes) as Hrest.
    rewrite staged_length_cons in *.
    cbn [memcpy_in_loop]. unfold MemcpyEntryInFusionBuffer. fold (entry_size e).
    rewrite (to_int64_id (offset + entry_size e))
      by (unfold in_int64, INT64_MAX in *; lia).
    rewrite (to_size_t_id (entry_size e))
      by (unfold in_size_t, INT64_MAX in *; lia).
    rewrite IH by lia. cbn [copy_in_from].
    rewrite <- app_assoc. simpl. f_equal. lia.
Qed.

Lemma memcpy_out_loop_spec all (es : list (TensorTableEntry * Tensor.t)) offset log :
  Forall (fun eo => output eo.1 = Some eo.2) es ->
  Forall (fun e => 0 <= entry_size e) es.*1 ->
  0 <= offset -> offset + staged_length es.*1 <= INT64_MAX ->
  memcpy_out_loop (R:=R) buffer all es.*1 offset log
  = Some (log ++ copy_out_from offset es).
Proof.
  intros Hout. revert offset log.
  induction Hout as [|[e o] es Ho _ IH]; intros offset log Hnn Hoff Hmax.
  - simpl. by rewrite app_nil_r.
  - rewrite fmap_cons in *. apply Forall_cons in Hnn as [He Hes].
    pose proof (staged_length_nonneg _ Hes) as Hrest.
    rewrite staged_length_cons in *. cbn [fst snd] in *.
    cbn [memcpy_out_loop]. unfold MemcpyEntryOutFusionBuffer. rewrite Ho.
    cbn [mbind option_bind]. fold (entry_size e).
    rewrite (to_int64_id (offset + entry_size e))
      by (unfold in_int64, INT64_MAX in *; lia).
    rewrite (to_size_t_id (entry_size e))
      by (unfold in_size_t, INT64_MAX in *; lia).
    rewrite IH by (done || lia). cbn [copy_out_from]. by rewrite <- app_assoc.
Qed.

Lemma memcpy_out_loop_zip all entries outs :
  output <$> entries = Some <$> outs ->
  Forall (fun e => 0 <= entry_size e) entries ->
  staged_length entries <= INT64_MAX ->
  memcpy_out_loop (R:=R) buffer all entries 0 []
  = Some (copy_out_from 0 (zip entries outs)).
Proof.
  intros Houts Hnn Hmax.
  destruct (zip_outputs entries outs Houts) as [Hfst Hall].
  pose proof (memcpy_out_loop_spec all (zip entries outs) 0 [] Hall) as H.
  rewrite Hfst in H. apply H; [done | lia | lia].
Qed.

(** The offsets of the calls are the sums of the sizes of the prior
    entries. *)
Lemma copy_in_from_offsets offset es :
  copy_in_from offset es
  = imap (fun i e => CallMemcpy (buffer + (offset + staging_offset es i))
                                (Tensor.data (tensor e)) (entry_size e)) es.
Proof.
  revert offset. induction es as [|e es IH]; intros offset; [done|].
  rewrite imap_cons. cbn [copy_in_from]. f_equal.
  - rewrite staging_offset_0. f_equal. lia.
  - rewrite IH. apply imap_ext. intros i x _. unfold compose.
    rewrite staging_offset_S. f_equal. lia.
Qed.

Lemma copy_out_from_offsets offset (es : list (TensorTableEntry * Tensor.t)) :
  copy_out_from offset es
  = imap (fun i eo => CallMemcpy (Tensor.data eo.2)
                                 (buffer + (offset + staging_offset es.*1 i))
                                 (entry_size eo.1)) es.
Proof.
  revert offset. induction es as [|[e o] es IH]; intros offset; [done|].
  rewrite imap_cons. cbn [copy_out_from]. f_equal.
  - rewrite staging_offset_0. cbn [fst snd]. f_equal. lia.
  - rewrite IH. apply imap_ext. intros i x _. unfold compose.
    rewrite fmap_cons, staging_offset_S. cbn [fst snd]. f_equal. lia.
Qed.

Lemma memcpy_dsts_imap {A : Type} (f : nat -> Z) (g h : A -> Z) (l : list A) :
  memcpy_dsts (R:=R) (imap (fun i x => CallMemcpy (f i) (g x) (h x)) l)
  = imap (fun i _ => f i) l.
Proof.
  revert f. induction l as [|x l IH]; intros f; [done|].
  rewrite !imap_cons. unfold memcpy_dsts in *. cbn [omap list_omap].
  f_equal. apply (IH (f ∘ S)).
Qed.

Lemma memcpy_srcs_imap {A : Type} (f : nat -> Z) (g h : A -> Z) (l : list A) :
  memcpy_srcs (R:=R) (imap (fun i x => CallMemcpy (g x) (f i) (h x)) l)
  = imap (fun i _ => f i) l.
Proof.
  revert f. induction l as [|x l IH]; intros f; [done|].
  rewrite !imap_cons. unfold memcpy_srcs in *. cbn [omap list_omap].
  f_equal. apply (IH (f ∘ S)).
Qed.

Lemma memcpy_dsts_copy_in offset es :
  memcpy_dsts (copy_in_from offset es)
  = imap (fun i _ => buffer + (offset + staging_offset es i)) es.
Proof.
  rewrite copy_in_from_offsets.
  apply (memcpy_dsts_imap (fun i => buffer + (offset + staging_offset es i))).
Qed.

Lemma memcpy_srcs_copy_out offset (es : list (TensorTableEntry * Tensor.t)) :
  memcpy_srcs (copy_out_from offset es)
  = imap (fun i _ => buffer + (offset + staging_offset es.*1 i)) es.*1.
Proof.
  rewrite copy_out_from_offsets.
  rewrite (memcpy_srcs_imap (fun i => buffer + (offset + staging_offset es.*1 i))
             (fun eo => Tensor.data eo.2) (fun eo => entry_size eo.1)).
  by rewrite imap_fmap.
Qed.

End Staging.

(** C4.  In Reduction staging, for every non-empty batch (of entries whose
    byte sizes are not negative and sum to at most [INT64_MAX], as the sizes
    of tensors in memory do), [MemcpyInFusionBuffer] copies each entry's input
    into the fusion buffer (the buffer that the fusion buffer manager of the
    process gives for the device and framework of the first entry, at the
    address that this buffer gives for the first entry's context) at the
    byte offset that is the sum of the byte sizes of all prior entries, sets [buffer_len] to the sum of all byte
    sizes, and [MemcpyOutFusionBuffer] copies each entry's slice back out, to
    the entry's output, from exactly the same offsets.  For three entries of
    10, 20 and 5 elements of 4 bytes the staged length is 140 and the offsets
    are 0, 40 and 120. *)
Theorem fusion_buffer_staging {R : Type} gs (entries : list TensorTableEntry) :
  entries <> [] ->
  Forall (fun e => 0 <= entry_size e) entries ->
  staged_length entries <= INT64_MAX ->
  exists fused log_in,
    MemcpyInFusionBuffer (R:=R) gs entries = Some (fused, log_in) /\
    (exists first_entry,
       entries !! 0%nat = Some first_entry /\
       buffer_data fused
       = AccessData (GetBuffer (GlobalState.fusion_buffer gs) (device first_entry)
                               (OpContext.framework (context first_entry)))
                    (context first_entry)) /\
    fused_input_data fused = buffer_data fused /\
    buffer_len fused = staged_length entries /\
    log_in = imap (fun i e => CallMemcpy (buffer_data fused + staging_offset entries i)
                                         (Tensor.data (tensor e)) (entry_size e))
                  entries /\
    (forall outs, output <$> entries = Some <$> outs ->
       exists log_out,
         MemcpyOutFusionBuffer (R:=R) entries (buffer_data fused) = Some log_out /\
         log_out = imap (fun i eo =>
                           CallMemcpy (Tensor.data eo.2)
                                      (buffer_data fused + staging_offset entries i)
                                      (entry_size eo.1))
                        (zip entries outs) /\
         memcpy_srcs log_out = memcpy_dsts log_in) /\
    (elements_of <$> entries = [10; 20; 5] ->
     Forall (fun e => entry_size e = 4 * elements_of e) entries ->
     buffer_len fused = 140 /\
     memcpy_dsts log_in
     = [buffer_data fused + 0; buffer_data fused + 40; buffer_data fused + 120]).
Proof.
  intros Hne Hnn Hmax.
  pose proof (staged_length_nonneg entries Hnn) as Hlen.
  assert (exists first, entries !! 0%nat = Some first) as [first H0]
    by (destruct entries; [done | eauto]).
  unfold MemcpyInFusionBuffer. rewrite H0. cbn [mbind option_bind].
  set (buffer := AccessData _ _).
  rewrite (memcpy_in_loop_spec buffer entries entries 0 []) by (done || lia).
  rewrite Z.add_0_l, app_nil_l.
  rewrite to_size_t_id by (unfold in_size_t, INT64_MAX in *; lia).
  eexists _, _. split; [reflexivity|]. cbn [fused_input_data buffer_data buffer_len].
  assert (Hin : copy_in_from (R:=R) buffer 0 entries
                = imap (fun i e => CallMemcpy (buffer + staging_offset entries i)
                                              (Tensor.data (tensor e)) (entry_size e))
                       entries).
  { rewrite copy_in_from_offsets. apply imap_ext. intros i x _. f_equal; lia. }
  split; [by exists first|].
  split; [done|]. split; [done|]. split; [done|]. split.
  - intros outs Houts. destruct (zip_outputs entries outs Houts) as [Hfst Hall].
    unfold MemcpyOutFusionBuffer.
    rewrite (memcpy_out_loop_zip buffer entries entries outs) by done.
    eexists. split; [reflexivity|]. split.
    + rewrite copy_out_from_offsets, Hfst. apply imap_ext. intros i x _. f_equal; lia.
    + rewrite memcpy_srcs_copy_out, memcpy_dsts_copy_in, Hfst. done.
  - intros Helts Hbytes. rewrite memcpy_dsts_copy_in. clear Hin. clearbody buffer.
    destruct entries as [|e1' [|e2 [|e3 [|? ?]]]]; simplify_eq/=.
    rename first into e1.
    apply Forall_cons in Hbytes as [Hb1 Hbytes].
    apply Forall_cons in Hbytes as [Hb2 Hbytes].
    apply Forall_cons in Hbytes as [Hb3 _].
    assert (Hs1 : entry_size e1 = 40) by lia.
    assert (Hs2 : entry_size e2 = 80) by lia.
    assert (Hs3 : entry_size e3 = 20) by lia.
    unfold staged_length, staging_offset.
    cbn [take fmap list_fmap sumZ foldr]. rewrite Hs1, Hs2, Hs3.
    split; reflexivity.
Qed.

Lemma fusion_buffer_staging_witness :
  staging_entries <> [] /\
  Forall (fun e => 0 <= entry_size e) staging_entries /\
  staged_length staging_entries <= INT64_MAX /\
  exists fused log_in,
    MemcpyInFusionBuffer (R:=unit) small_gs staging_entries = Some (fused, log_in) /\
    (exists first_entry,
       staging_entries !! 0%nat = Some first_entry /\
       buffer_data fused
       = AccessData (GetBuffer (GlobalState.fusion_buffer small_gs) (device first_entry)
                               (OpContext.framework (context first_entry)))
                    (context first_entry)) /\
    fused_input_data fused = buffer_data fused /\
    buffer_len fused = staged_length staging_entries /\
    log_in = imap (fun i e => CallMemcpy (buffer_data fused
                                          + staging_offset staging_entries i)
                                         (Tensor.data (tensor e)) (entry_size e))
                  staging_entries /\
    (forall outs, output <$> staging_entries = Some <$> outs ->
       exists log_out,
         MemcpyOutFusionBuffer (R:=unit) staging_entries (buffer_data fused)
         = Some log_out /\
         log_out = imap (fun i eo =>
                           CallMemcpy (Tensor.data eo.2)
                                      (buffer_data fused
                                       + staging_offset staging_entries i)
                                      (entry_size eo.1))
                        (zip staging_entries outs) /\
         memcpy_srcs log_out = memcpy_dsts log_in) /\
    (elements_of <$> staging_entries = [10; 20; 5] ->
     Forall (fun e => entry_size e = 4 * elements_of e) staging_entries ->
     buffer_len fused = 140 /\
     memcpy_dsts log_in
     = [buffer_data fused + 0; buffer_data fused + 40; buffer_data fused + 120]).
Proof.
  assert (H1 : staging_entries <> []) by done.
  assert (H2 : Forall (fun e => 0 <= entry_size e) staging_entries).
  { repeat constructor; vm_compute; discriminate. }
  assert (H3 : staged_length staging_entries <= INT64_MAX).
  { vm_compute. discriminate. }
  split; [exact H1|]. split; [exact H2|]. split; [exact H3|].
  exact (fusion_buffer_staging (R:=unit) small_gs staging_entries H1 H2 H3).
Defined.

(** The run of the scenario. *)
Example staging_scenario_in :
  MemcpyInFusionBuffer (R:=unit) small_gs staging_entries
  = Some (mkFusedInput 1000 1000 140,
          [CallMemcpy 1000 5000 40; CallMemcpy 1040 6000 80; CallMemcpy 1120 7000 20]).
Proof. reflexivity. Qed.

Example staging_scenario_out :
  MemcpyOutFusionBuffer (R:=unit) staging_entries 1000
  = Some [CallMemcpy 8000 1000 40; CallMemcpy 9000 1040 80; CallMemcpy 9500 1120 20].
Proof. reflexivity. Qed.

(** ** The error operation *)

(** C5.  For every single-entry batch and every Negotiated Response, the
    Error operation's [Execute] returns a precondition-failure [Status] whose
    message is the error message of the response, and makes no copy,
    allocation or transport call: the log of calls is empty and the batch is
    as it was. *)
Theorem error_execute {R : Type} (e : TensorTableEntry) (response : Response) :
  exists st,
    ErrorExecute (R:=R) [e] response = Some (st, [e], []) /\
    st = Status_PreconditionError (error_message response) /\
    type_ st = PRECONDITION_ERROR /\
    reason_ st = error_message response /\
    Status_ok st = false.
Proof. eexists. split; [reflexivity|]. repeat split. Qed.

(** The [assert] of the error operation. *)
Lemma error_execute_defined {R : Type} entries response :
  is_Some (ErrorExecute (R:=R) entries response) <-> length entries = 1%nat.
Proof.
  destruct entries as [|e [|e' rest]]; simpl; split;
    intros H; try done; try (by destruct H); eauto.
Qed.

(** ** The broadcast *)

(** C7 (amended).  For every single-entry Broadcast batch (whose entry has an
    output unless the calling process is the root): if the rank of the
    calling process equals the entry's [root_rank], the buffer passed to the
    transport primitive is the data of the entry's input tensor, otherwise
    the data of its output tensor; the transport primitive is invoked exactly
    once, with that buffer, the entry's element count converted to [int]
    (the element count itself when it is within the range of [int]), its
    dtype and the root rank; and [Enabled] returns true for every tuning
    state, batch and response. *)
Theorem broadcast_execute {R ParameterManager : Type} (DoBroadcast : BroadcastArgs -> R)
    (param_manager : ParameterManager) gs (e : TensorTableEntry) (response : Response) :
  (GlobalState.rank gs <> root_rank e -> is_Some (output e)) ->
  exists buffer,
    let args := mkBroadcastArgs [e] buffer (to_int (elements_of e))
                                (Tensor.dtype (tensor e)) (root_rank e) in
    BroadcastExecute DoBroadcast gs [e] response
    = Some (Status_OK, [e], [CallDoBroadcast args (DoBroadcast args)]) /\
    (GlobalState.rank gs = root_rank e -> buffer = Tensor.data (tensor e)) /\
    (GlobalState.rank gs <> root_rank e -> Tensor.data <$> output e = Some buffer) /\
    (in_int (elements_of e) -> bc_num_elements args = elements_of e) /\
    (forall entries response',
       BroadcastEnabled param_manager entries response' = true).
Proof.
  intros Hout. unfold BroadcastExecute.
  destruct (decide (GlobalState.rank gs = root_rank e)) as [Hroot|Hroot].
  - exists (Tensor.data (tensor e)). cbn [mbind option_bind].
    split; [reflexivity|]. split; [done|]. split; [done|].
    split; [|done]. intros Hrange. by apply to_int_id.
  - destruct (Hout Hroot) as [o Ho]. exists (Tensor.data o).
    rewrite Ho. cbn [fmap option_fmap option_map mbind option_bind].
    split; [reflexivity|]. split; [done|]. split; [done|].
    split; [|done]. intros Hrange. by apply to_int_id.
Qed.

Lemma broadcast_execute_witness :
  (GlobalState.rank receiver_gs <> root_rank (word_entry "w" 10 5000 8000) ->
   is_Some (output (word_entry "w" 10 5000 8000))) /\
  exists buffer,
    let args := mkBroadcastArgs [word_entry "w" 10 5000 8000] buffer
                                (to_int (elements_of (word_entry "w" 10 5000 8000)))
                                (Tensor.dtype (tensor (word_entry "w" 10 5000 8000)))
                                (root_rank (word_entry "w" 10 5000 8000)) in
    BroadcastExecute (fun _ => tt) receiver_gs [word_entry "w" 10 5000 8000]
                     (mkResponse [] EmptyString)
    = Some (Status_OK, [word_entry "w" 10 5000 8000], [CallDoBroadcast args tt]) /\
    (GlobalState.rank receiver_gs = root_rank (word_entry "w" 10 5000 8000) ->
     buffer = Tensor.data (tensor (word_entry "w" 10 5000 8000))) /\
    (GlobalState.rank receiver_gs <> root_rank (word_entry "w" 10 5000 8000) ->
     Tensor.data <$> output (word_entry "w" 10 5000 8000) = Some buffer) /\
    (in_int (elements_of (word_entry "w" 10 5000 8000)) ->
     bc_num_elements args = elements_of (word_entry "w" 10 5000 8000)) /\
    (forall entries response', BroadcastEnabled tt entries response' = true).
Proof.
  assert (H : GlobalState.rank receiver_gs <> root_rank (word_entry "w" 10 5000 8000) ->
              is_Some (output (word_entry "w" 10 5000 8000))).
  { intros _. simpl. eauto. }
  split; [exact H|].
  exact (broadcast_execute (fun _ => tt) tt receiver_gs (word_entry "w" 10 5000 8000)
           (mkResponse [] EmptyString) H).
Defined.

(** C7 as stated fails for the count: on the root, an entry of [2^31]
    one-byte elements is broadcast with the count [-2147483648], the value of
    the cast [(int) e.tensor->shape().num_elements()]. *)
Lemma broadcast_count_narrowed :
  elements_of (byte_entry "huge" accepting_context [2147483648]) = 2147483648 /\
  exists args,
    BroadcastExecute (fun _ => tt) small_gs
                     [byte_entry "huge" accepting_context [2147483648]] (mkResponse [] EmptyString)
    = Some (Status_OK, [byte_entry "huge" accepting_context [2147483648]],
            [CallDoBroadcast args tt]) /\
    bc_buffer_data args = Tensor.data (tensor (byte_entry "huge" accepting_context [2147483648])) /\
    bc_num_elements args = -2147483648 /\
    bc_num_elements args <> elements_of (byte_entry "huge" accepting_context [2147483648]).
Proof.
  split; [reflexivity|]. eexists. split; [reflexivity|].
  split; [reflexivity|]. split; [reflexivity|]. vm_compute. discriminate.
Qed.

(** ** What the transport primitive reports *)

Lemma allocate_loop_no_transport {R : Type} tensor_sizes size range
    (st : AllocState (R:=R)) r st' :
  allocate_loop tensor_sizes size range st = Some (r, st') ->
  Forall (fun c => is_transport c = false) (st_log st) ->
  Forall (fun c => is_transport c = false) (st_log st').
Proof.
  revert st. induction range as [|ec range IH]; intros st H Hlog.
  - simpl in H. by simplify_eq.
  - cbn [allocate_loop] in H.
    destruct (st_entries st !! ec) as [e|]; [|done]. cbn [mbind option_bind] in H.
    destruct (for_each _ _ _) as [[[total recvcounts] sizes]|]; [|done].
    cbn [mbind option_bind] in H.
    destruct (OpContext.AllocateOutput _ _ _) as [status out].
    assert (Hlog' : Forall (fun c => is_transport (R:=R) c = false)
                           (st_log st ++ [CallAllocateOutput ec
                              (Shape.AppendShape (Shape.AddDim Shape.empty total)
                                                 (single_slice_shape e)) status])).
    { apply Forall_app. split; [done|]. by constructor. }
    destruct (Status_ok status).
    + eapply IH; [exact H | exact Hlog'].
    + by simplify_eq.
Qed.

(** The transport call of a run, when there is one, is the last call, and
    the run returns [Status::OK()]. *)
Lemma transport_call_last {R : Type} (GetElementSize : DataType -> Z)
    (DoAllgather : AllgatherArgs -> R) (DoBroadcast : BroadcastArgs -> R)
    gs entries response st entries' log :
  BroadcastExecute DoBroadcast gs entries response = Some (st, entries', log) \/
  AllgatherExecute GetElementSize DoAllgather gs entries response
  = Some (st, entries', log) ->
  Forall (fun c => is_transport c = false) log \/
  exists before c,
    log = before ++ [c] /\ is_transport c = true /\
    Forall (fun c => is_transport c = false) before /\ st = Status_OK.
Proof.
  intros [H|H].
  - unfold BroadcastExecute in H.
    destruct entries as [|e [|e' rest]]; [done| |done].
    destruct (if decide _ then _ else _) as [data_ptr|]; [|done].
    cbn [mbind option_bind] in H. simplify_eq.
    right. eexists [], _. split; [reflexivity|]. by repeat split.
  - unfold AllgatherExecute in H.
    destruct (GlobalState.size gs <? 0); [done|].
    destruct (entries !! 0%nat) as [first|]; [|done]. cbn [mbind option_bind] in H.
    destruct (allocate_loop _ _ _ _) as [[[status|] st1]|] eqn:Hloop; [| |done].
    + cbn [mbind option_bind] in H. simplify_eq. left.
      apply allocate_loop_no_transport in Hloop; [done | by repeat constructor].
    + cbn [mbind option_bind] in H.
      apply allocate_loop_no_transport in Hloop; [|by repeat constructor].
      destruct (st_entries st1 !! 0%nat); cbn [mbind option_bind] in H; [|done].
      do 2 (destruct (at_int _ _); cbn [mbind option_bind] in H); [|done|done|done].
      simplify_eq. right. eexists _, _. split; [reflexivity|].
      split; [done|]. split; [|done].
      apply Forall_app. split; [done|]. by repeat constructor.
Qed.

Lemma call_threw_transport {R X : Type} (c : Call (Outcome R X)) x :
  call_threw c = Some x -> is_transport c = true.
Proof. by destruct c. Qed.

(** C8 (amended).  When the transport primitive fails during a Broadcast or
    Gather step, by raising an exception, [Execute] surfaces that failure to
    the caller as this exception and returns no [Status]: the raising call
    is the last call of the run, and [Execute] raises nothing but what the
    transport call raised.  When [Execute] returns a [Status], no transport
    call has failed, and if the transport call was made the [Status] is
    [Status::OK()] whatever the primitive handed back: [Execute] returns
    success only when the transport step did not fail, but the returned
    [Status] never carries a transport failure. *)
Theorem transport_failure_propagates {R X : Type} (GetElementSize : DataType -> Z)
    (DoAllgather : AllgatherArgs -> Outcome R X)
    (DoBroadcast : BroadcastArgs -> Outcome R X)
    gs entries response c entries' log :
  BroadcastExecute_exn DoBroadcast gs entries response = Some (c, entries', log) \/
  AllgatherExecute_exn GetElementSize DoAllgather gs entries response
  = Some (c, entries', log) ->
  (forall call x, call ∈ log -> call_threw call = Some x ->
     c = Raised x /\ last log = Some call) /\
  (forall x, c = Raised x ->
     exists call, last log = Some call /\ is_transport call = true /\
                  call_threw call = Some x) /\
  (forall st, c = Returned st ->
     Forall (fun call => call_threw call = None) log /\
     ((exists call, call ∈ log /\ is_transport call = true) -> st = Status_OK)).
Proof.
  intros H.
  assert (exists st,
            (BroadcastExecute DoBroadcast gs entries response = Some (st, entries', log) \/
             AllgatherExecute GetElementSize DoAllgather gs entries response
             = Some (st, entries', log)) /\
            c = match last log ≫= call_threw with
                | Some x => Raised x
                | None => Returned st
                end) as (st & Hrun & Hc).
  { unfold BroadcastExecute_exn, AllgatherExecute_exn, propagate in H.
    destruct H as [H|H];
      [destruct (BroadcastExecute _ _ _ _) as [[[st es] l]|]
      |destruct (AllgatherExecute _ _ _ _ _) as [[[st es] l]|]];
      cbn [mbind option_bind fst snd] in H; simplify_eq; eauto. }
  assert (Hplain : forall call : Call (Outcome R X),
            is_transport call = false -> call_threw call = None).
  { intros call Hno. destruct (call_threw call) as [x|] eqn:Hx; [|done].
    apply call_threw_transport in Hx. congruence. }
  destruct (transport_call_last _ _ _ _ _ _ _ _ _ Hrun)
    as [Hnone|(before & tc & -> & Htc & Hbefore & ->)].
  - assert (Hall : Forall (fun call => call_threw call = None) log).
    { eapply Forall_impl; [exact Hnone|]. exact Hplain. }
    assert (Hlast : last log ≫= call_threw = None).
    { destruct (last log) as [call|] eqn:Hl; [|done]. cbn [mbind option_bind].
      apply last_Some_elem_of in Hl. rewrite Forall_forall in Hall. by apply Hall. }
    rewrite Hlast in Hc. subst c. split; [|split].
    + intros call x Hin Hx. rewrite Forall_forall in Hall.
      rewrite (Hall _ Hin) in Hx. done.
    + intros x Hx. done.
    + intros st' Hst. split; [done|]. intros (call & Hin & Htr).
      rewrite Forall_forall in Hnone. rewrite (Hnone _ Hin) in Htr. done.
  - rewrite last_snoc in Hc. cbn [mbind option_bind] in Hc.
    assert (Hin_last : forall call x,
              call ∈ before ++ [tc] -> call_threw call = Some x -> call = tc).
    { intros call x Hin Hx. apply elem_of_app in Hin as [Hin|Hin].
      - rewrite Forall_forall in Hbefore.
        rewrite (Hplain _ (Hbefore _ Hin)) in Hx. done.
      - by apply list_elem_of_singleton in Hin. }
    split; [|split].
    + intros call x Hin Hx. pose proof (Hin_last _ _ Hin Hx) as ->.
      rewrite Hx in Hc. by rewrite last_snoc.
    + intros x Hx. exists tc. rewrite last_snoc. split; [done|]. split; [done|].
      destruct (call_threw tc); by simplify_eq.
    + intros st' Hst. split; [|intros _; destruct (call_threw tc); by simplify_eq].
      apply Forall_app. split.
      * eapply Forall_impl; [exact Hbefore|]. exact Hplain.
      * constructor; [|done]. destruct (call_threw tc); by simplify_eq.
Qed.

Lemma transport_failure_propagates_witness :
  BroadcastExecute_exn raising_broadcast receiver_gs [word_entry "w" 10 5000 8000]
                       (mkResponse [] EmptyString)
  = Some (Raised "MPI_Bcast failed", [word_entry "w" 10 5000 8000],
          [CallDoBroadcast (mkBroadcastArgs [word_entry "w" 10 5000 8000] 8000 10 5 0)
                           (Throws "MPI_Bcast failed")]) /\
  (forall call x,
     call ∈ [CallDoBroadcast (mkBroadcastArgs [word_entry "w" 10 5000 8000] 8000 10 5 0)
                             (Throws (R:=unit) "MPI_Bcast failed")] ->
     call_threw call = Some x ->
     Raised "MPI_Bcast failed" = Raised x /\
     last [CallDoBroadcast (mkBroadcastArgs [word_entry "w" 10 5000 8000] 8000 10 5 0)
                           (Throws (R:=unit) "MPI_Bcast failed")] = Some call) /\
  (forall x, Raised "MPI_Bcast failed" = Raised x ->
     exists call,
       last [CallDoBroadcast (mkBroadcastArgs [word_entry "w" 10 5000 8000] 8000 10 5 0)
                             (Throws (R:=unit) "MPI_Bcast failed")] = Some call /\
       is_transport call = true /\ call_threw call = Some x) /\
  (forall st, Raised "MPI_Bcast failed" = Returned st ->
     Forall (fun call => call_threw call = None)
            [CallDoBroadcast (mkBroadcastArgs [word_entry "w" 10 5000 8000] 8000 10 5 0)
                             (Throws (R:=unit) "MPI_Bcast failed")] /\
     ((exists call,
         call ∈ [CallDoBroadcast
                   (mkBroadcastArgs [word_entry "w" 10 5000 8000] 8000 10 5 0)
                   (Throws (R:=unit) "MPI_Bcast failed")]
         /\ is_transport call = true) -> st = Status_OK)).
Proof.
  assert (H : BroadcastExecute_exn raising_broadcast receiver_gs
                [word_entry "w" 10 5000 8000] (mkResponse [] EmptyString)
              = Some (Raised "MPI_Bcast failed", [word_entry "w" 10 5000 8000],
                      [CallDoBroadcast
                         (mkBroadcastArgs [word_entry "w" 10 5000 8000] 8000 10 5 0)
                         (Throws "MPI_Bcast failed")])) by reflexivity.
  split; [exact H|].
  exact (transport_failure_propagates (fun _ => 1) raising_allgather raising_broadcast
           receiver_gs [word_entry "w" 10 5000 8000] (mkResponse [] EmptyString)
           _ _ _ (or_introl H)).
Defined.

(** C8 as stated fails: the transport primitive fails, in the Broadcast and
    in the Gather, and [Execute] returns no [Status] that could carry the
    failure; the failure reaches the caller as the exception. *)
Lemma transport_failure_not_in_status :
  (exists entries' log args,
     BroadcastExecute_exn raising_broadcast receiver_gs [word_entry "w" 10 5000 8000]
                          (mkResponse [] EmptyString)
     = Some (Raised "MPI_Bcast failed", entries', log) /\
     last log = Some (CallDoBroadcast args (Throws "MPI_Bcast failed")) /\
     forall st,
       BroadcastExecute_exn raising_broadcast receiver_gs [word_entry "w" 10 5000 8000]
                            (mkResponse [] EmptyString)
       <> Some (Returned st, entries', log)) /\
  (exists entries' log args,
     AllgatherExecute_exn (fun _ => 1) raising_allgather small_gs small_entries
                          small_response
     = Some (Raised "MPI_Allgatherv failed", entries', log) /\
     last log = Some (CallDoAllgather args (Throws "MPI_Allgatherv failed")) /\
     forall st,
       AllgatherExecute_exn (fun _ => 1) raising_allgather small_gs small_entries
                            small_response
       <> Some (Returned st, entries', log)).
Proof.
  split.
  - eexists _, _, _.
    assert (H : BroadcastExecute_exn raising_broadcast receiver_gs
                  [word_entry "w" 10 5000 8000] (mkResponse [] EmptyString)
                = Some (Raised "MPI_Bcast failed", [word_entry "w" 10 5000 8000],
                        [CallDoBroadcast
                           (mkBroadcastArgs [word_entry "w" 10 5000 8000] 8000 10 5 0)
                           (Throws "MPI_Bcast failed")])) by reflexivity.
    split; [exact H|]. split; [reflexivity|].
    intros st Hst. rewrite H in Hst. discriminate.
  - destruct (AllgatherExecute_exn (fun _ => 1) raising_allgather small_gs small_entries
                                   small_response) as [[[c es] log]|] eqn:H;
      vm_compute in H; [|discriminate].
    injection H as <- <- <-.
    eexists _, _, _. split; [reflexivity|]. split; [reflexivity|].
    intros st Hst. discriminate.
Qed.

(** ** Allocation and transport in the gather *)

Section AllocationLog.

Context {R : Type}.
Variable tensor_sizes : list Z.
Variable G : nat.
Variable entries : list TensorTableEntry.

Lemma allocation_calls_plain :
  Forall (fun c => is_transport c = false /\ is_activity_end c = false)
         (allocation_calls (R:=R) tensor_sizes G entries).
Proof.
  apply Forall_lookup. intros i c. unfold allocation_calls.
  rewrite list_lookup_imap. destruct (entries !! i); simpl; [|done].
  intros. by simplify_eq.
Qed.

Lemma log_after_plain j :
  Forall (fun c => is_transport c = false /\ is_activity_end c = false)
         (log_after (R:=R) tensor_sizes G entries j).
Proof.
  unfold log_after. constructor; [done|].
  apply Forall_take. apply allocation_calls_plain.
Qed.

Lemma length_log_after j :
  (j <= length entries)%nat ->
  length (log_after (R:=R) tensor_sizes G entries j) = S j.
Proof.
  intros Hj. unfold log_after, allocation_calls. simpl.
  rewrite length_take, length_imap. lia.
Qed.

Lemma lookup_log_after j ec e :
  (ec < j)%nat -> entries !! ec = Some e ->
  log_after (R:=R) tensor_sizes G entries j !! S ec
  = Some (CallAllocateOutput ec (output_shape_of tensor_sizes G ec e)
                             (fst (allocation tensor_sizes G ec e))).
Proof.
  intros Hec He. unfold log_after, allocation_calls. simpl.
  rewrite lookup_take_lt by done. by rewrite list_lookup_imap, He.
Qed.

Lemma last_log_after j e :
  entries !! j = Some e ->
  last (log_after (R:=R) tensor_sizes G entries (S j))
  = Some (CallAllocateOutput j (output_shape_of tensor_sizes G j e)
                             (fst (allocation tensor_sizes G j e))).
Proof. intros He. rewrite <- (log_after_S _ _ _ j e He). apply last_snoc. Qed.

End AllocationLog.

(** C6.  In the Gather operation, the output of every entry is allocated
    before the transport call, and if [AllocateOutput] fails for an entry,
    [Execute] returns that failure at once (the failing call is the last call
    of the run) and the transport primitive [DoAllgather] is not invoked for
    the batch. *)
Theorem gather_allocation_before_transport {R : Type} (GetElementSize : DataType -> Z)
    (DoAllgather : AllgatherArgs -> R) gs entries response :
  gather_wf gs entries response ->
  exists st entries' log,
    AllgatherExecute GetElementSize DoAllgather gs entries response
    = Some (st, entries', log) /\
    (forall i args r, log !! i = Some (CallDoAllgather args r) ->
       forall ec e, entries !! ec = Some e ->
         exists j, (j < i)%nat /\
           log !! j = Some (CallAllocateOutput ec (gather_output_shape gs response ec e)
                                               (fst (gather_allocation gs response ec e))) /\
           Status_ok (fst (gather_allocation gs response ec e)) = true) /\
    (forall k e, entries !! k = Some e ->
       Status_ok (fst (gather_allocation gs response k e)) = false ->
       Forall (fun c => is_transport c = false) log /\
       Status_ok st = false /\
       ((forall i, (i < k)%nat -> gather_allocation_ok gs entries response i = true) ->
        st = fst (gather_allocation gs response k e) /\
        last log = Some (CallAllocateOutput k (gather_output_shape gs response k e) st))).
Proof.
  intros Hwf.
  unfold gather_output_shape, gather_allocation, gather_allocation_ok, group_size.
  set (ts := tensor_sizes response). set (G := Z.to_nat (GlobalState.size gs)).
  destruct (AllgatherExecute_spec GetElementSize DoAllgather gs entries response Hwf)
    as [[Hrun Hall]|(k0 & e0 & Hk0 & He0 & Hfail & Hbefore & Hrun)];
    fold ts G in Hrun |- *.
  - eexists _, _, _. split; [exact Hrun|]. fold ts G in Hall. split.
    + intros i args r Hi ec e He.
      pose proof (lookup_lt_Some _ _ _ He) as Hec.
      specialize (Hall ec Hec) as Hok. unfold allocation_ok in Hok. rewrite He in Hok.
      exists (S ec). split; [|split; [|done]].
      * unfold gather_log in Hi. fold ts G in Hi.
        destruct (decide (i < S (length entries))%nat) as [Hlt|]; [|lia].
        rewrite lookup_app_l in Hi by (by rewrite length_log_after).
        pose proof (log_after_plain (R:=R) ts G entries (length entries)) as Hplain.
        rewrite Forall_lookup in Hplain. destruct (Hplain _ _ Hi) as [Htr _]. done.
      * unfold gather_log. fold ts G.
        rewrite lookup_app_l by (rewrite length_log_after; lia).
        by apply lookup_log_after.
    + intros k e He Hbad. exfalso.
      pose proof (lookup_lt_Some _ _ _ He) as Hk.
      specialize (Hall k Hk). unfold allocation_ok in Hall. rewrite He in Hall.
      unfold ts, G in *. congruence.
  - eexists _, _, _. split; [exact Hrun|].
    pose proof (log_after_plain (R:=R) ts G entries (S k0)) as Hplain. split.
    + intros i args r Hi. rewrite Forall_lookup in Hplain.
      destruct (Hplain _ _ Hi) as [Htr _]. done.
    + intros k e He Hbad. split; [|split; [done|]].
      * eapply Forall_impl; [exact Hplain|]. by intros c [? _].
      * intros Hfirst.
        assert (k = k0) as ->.
        { destruct (Nat.lt_trichotomy k k0) as [Hlt|[->|Hgt]]; [|done|].
          - specialize (Hbefore k Hlt). unfold allocation_ok in Hbefore.
            rewrite He in Hbefore. unfold ts, G in *. congruence.
          - specialize (Hfirst k0 Hgt). unfold allocation_ok in Hfirst.
            rewrite He0 in Hfirst. unfold ts, G in *. congruence. }
        simplify_eq. split; [done|]. by apply last_log_after.
Qed.

Lemma refused_wf : gather_wf small_gs refused_entries refused_response.
Proof.
  unfold gather_wf, in_size_t. simpl. split; [done|]. split; [lia|]. split; lia.
Defined.

Lemma gather_allocation_before_transport_witness :
  gather_wf small_gs refused_entries refused_response /\
  exists st entries' log,
    AllgatherExecute (fun _ => 1) (fun _ => tt) small_gs refused_entries refused_response
    = Some (st, entries', log) /\
    (forall i args r, log !! i = Some (CallDoAllgather args r) ->
       forall ec e, refused_entries !! ec = Some e ->
         exists j, (j < i)%nat /\
           log !! j = Some (CallAllocateOutput ec
                              (gather_output_shape small_gs refused_response ec e)
                              (fst (gather_allocation small_gs refused_response ec e))) /\
           Status_ok (fst (gather_allocation small_gs refused_response ec e)) = true) /\
    (forall k e, refused_entries !! k = Some e ->
       Status_ok (fst (gather_allocation small_gs refused_response k e)) = false ->
       Forall (fun c => is_transport c = false) log /\
       Status_ok st = false /\
       ((forall i, (i < k)%nat ->
           gather_allocation_ok small_gs refused_entries refused_response i = true) ->
        st = fst (gather_allocation small_gs refused_response k e) /\
        last log = Some (CallAllocateOutput k
                           (gather_output_shape small_gs refused_response k e) st))).
Proof.
  split; [exact refused_wf|].
  exact (gather_allocation_before_transport (fun _ => 1) (fun _ => tt) small_gs
           refused_entries refused_response refused_wf).
Defined.

(** The run on that batch: one allocation, one refusal, nothing else. *)
Example refused_run :
  AllgatherExecute (fun _ => 1) (fun _ => tt) small_gs refused_entries refused_response
  = Some (Status_UnknownError "allocation failed",
          [set_output (byte_entry "a" accepting_context [2; 4])
                      (Some (Tensor.mk 0 (mkTensorShape [5; 4]) 4096 20));
           byte_entry "b" refusing_context [5; 4];
           byte_entry "c" accepting_context [1; 4]],
          [ActivityStartAll ["a"; "b"; "c"] ALLOCATE_OUTPUT;
           CallAllocateOutput 0 (mkTensorShape [5; 4]) Status_OK;
           CallAllocateOutput 1 (mkTensorShape [12; 4])
                              (Status_UnknownError "allocation failed")]).
Proof. vm_compute. reflexivity. Qed.

(** C10.  When [AllocateOutput] fails for the [k]-th entry of a Gather batch
    with [k > 0] (and for no entry before it), [Execute] returns that failure
    while the entries [0..k-1] keep the outputs that their allocations
    stored, the entries after [k] are untouched, and the [ALLOCATE_OUTPUT]
    activity opened by [ActivityStartAll] is not closed: the log holds no
    [ActivityEndAll]. *)
Theorem gather_failure_leaves_partial_state {R : Type} (GetElementSize : DataType -> Z)
    (DoAllgather : AllgatherArgs -> R) gs entries response k e :
  gather_wf gs entries response ->
  (0 < k)%nat ->
  entries !! k = Some e ->
  Status_ok (fst (gather_allocation gs response k e)) = false ->
  (forall i, (i < k)%nat -> gather_allocation_ok gs entries response i = true) ->
  exists entries' log,
    AllgatherExecute GetElementSize DoAllgather gs entries response
    = Some (fst (gather_allocation gs response k e), entries', log) /\
    (forall i e_i, (i < k)%nat -> entries !! i = Some e_i ->
       Status_ok (fst (gather_allocation gs response i e_i)) = true /\
       entries' !! i = Some (set_output e_i (snd (gather_allocation gs response i e_i)))) /\
    (forall i, (k < i)%nat -> entries' !! i = entries !! i) /\
    head log = Some (ActivityStartAll (tensor_name <$> entries) ALLOCATE_OUTPUT) /\
    Forall (fun c => is_activity_end c = false) log.
Proof.
  intros Hwf Hk He Hbad Hfirst.
  unfold gather_output_shape, gather_allocation, gather_allocation_ok, group_size in *.
  set (ts := tensor_sizes response) in *.
  set (G := Z.to_nat (GlobalState.size gs)) in *.
  destruct (AllgatherExecute_spec GetElementSize DoAllgather gs entries response Hwf)
    as [[Hrun Hall]|(k0 & e0 & Hk0 & He0 & Hfail & Hbefore & Hrun)];
    fold ts G in Hrun |- *.
  - exfalso. pose proof (lookup_lt_Some _ _ _ He) as Hlt. fold ts G in Hall.
    specialize (Hall k Hlt). unfold allocation_ok in Hall. rewrite He in Hall.
    unfold ts, G in *. congruence.
  - assert (k0 = k) as ->.
    { destruct (Nat.lt_trichotomy k k0) as [Hlt|[->|Hgt]]; [|done|].
      - specialize (Hbefore k Hlt). unfold allocation_ok in Hbefore.
        rewrite He in Hbefore. unfold ts, G in *. congruence.
      - specialize (Hfirst k0 Hgt). unfold allocation_ok in Hfirst.
        rewrite He0 in Hfirst. unfold ts, G in *. congruence. }
    simplify_eq. eexists _, _. split; [exact Hrun|]. split; [|split; [|split]].
    + intros i e_i Hi Hei. split.
      * specialize (Hfirst i Hi). unfold allocation_ok in Hfirst.
        by rewrite Hei in Hfirst.
      * rewrite (lookup_entries_after ts G entries (S k) i e_i Hei).
        by rewrite decide_True by lia.
    + intros i Hi. unfold entries_after. rewrite list_lookup_imap.
      destruct (entries !! i); simpl; [|done]. by rewrite decide_False by lia.
    + done.
    + eapply Forall_impl; [apply log_after_plain|]. by intros c [_ ?].
Qed.

Lemma gather_failure_leaves_partial_state_witness :
  gather_wf small_gs refused_entries refused_response /\
  (0 < 1)%nat /\
  refused_entries !! 1%nat = Some (byte_entry "b" refusing_context [5; 4]) /\
  Status_ok (fst (gather_allocation small_gs refused_response 1
                    (byte_entry "b" refusing_context [5; 4]))) = false /\
  (forall i, (i < 1)%nat ->
     gather_allocation_ok small_gs refused_entries refused_response i = true) /\
  exists entries' log,
    AllgatherExecute (fun _ => 1) (fun _ => tt) small_gs refused_entries refused_response
    = Some (fst (gather_allocation small_gs refused_response 1
                   (byte_entry "b" refusing_context [5; 4])), entries', log) /\
    (forall i e_i, (i < 1)%nat -> refused_entries !! i = Some e_i ->
       Status_ok (fst (gather_allocation small_gs refused_response i e_i)) = true /\
       entries' !! i
       = Some (set_output e_i (snd (gather_allocation small_gs refused_response i e_i)))) /\
    (forall i, (1 < i)%nat -> entries' !! i = refused_entries !! i) /\
    head log = Some (ActivityStartAll (tensor_name <$> refused_entries) ALLOCATE_OUTPUT) /\
    Forall (fun c => is_activity_end c = false) log.
Proof.
  assert (H1 : (0 < 1)%nat) by lia.
  assert (H2 : refused_entries !! 1%nat = Some (byte_entry "b" refusing_context [5; 4]))
    by reflexivity.
  assert (H3 : Status_ok (fst (gather_allocation small_gs refused_response 1
                                 (byte_entry "b" refusing_context [5; 4]))) = false)
    by reflexivity.
  assert (H4 : forall i, (i < 1)%nat ->
                 gather_allocation_ok small_gs refused_entries refused_response i = true).
  { intros i Hi. destruct i as [|i]; [reflexivity | lia]. }
  split; [exact refused_wf|]. split; [exact H1|]. split; [exact H2|].
  split; [exact H3|]. split; [exact H4|].
  exact (gather_failure_leaves_partial_state (fun _ => 1) (fun _ => tt) small_gs
           refused_entries refused_response 1 (byte_entry "b" refusing_context [5; 4])
           refused_wf H1 H2 H3 H4).
Defined.

(** ** Zero extents *)

Lemma delete_vector {A : Type} n k (f : nat -> A) :
  (k < n)%nat -> delete k (vector n f) = vector (n - 1) (fun i => f (skip k i)).
Proof.
  intros Hk. apply list_eq. intros i. unfold skip.
  destruct (decide (i < k)%nat) as [Hi|Hi].
  - rewrite list_lookup_delete_lt by done. rewrite !lookup_vector by lia.
    by rewrite decide_True.
  - rewrite list_lookup_delete_ge by lia.
    destruct (decide (S i < n)%nat).
    + rewrite !lookup_vector by lia. by rewrite decide_False.
    + rewrite !lookup_vector_ge by lia. done.
Qed.

Lemma extent_remove_row tensor_sizes G n k ec rc :
  (k < n)%nat -> (n * G <= length tensor_sizes)%nat ->
  (rc < G)%nat -> (ec < n - 1)%nat ->
  extent (remove_row G k tensor_sizes) G ec rc = extent tensor_sizes G (skip k ec) rc.
Proof.
  intros Hk Htab Hrc Hec. unfold extent, remove_row, skip.
  assert (Hlen : length (take (k * G) tensor_sizes) = (k * G)%nat).
  { rewrite length_take. nia. }
  destruct (decide (ec < k)%nat) as [Hlt|Hge].
  - rewrite lookup_total_app_l by (rewrite Hlen; nia).
    apply lookup_total_take_lt. nia.
  - rewrite lookup_total_app_r by (rewrite Hlen; nia).
    rewrite Hlen, lookup_total_drop. f_equal. nia.
Qed.

Lemma slice_elements_of_delete entries k ec :
  slice_elements_of (delete k entries) ec = slice_elements_of entries (skip k ec).
Proof.
  unfold slice_elements_of, skip. destruct (decide (ec < k)%nat).
  - by rewrite list_lookup_delete_lt.
  - by rewrite list_lookup_delete_ge by lia.
Qed.

Section ZeroExtent.

Variable ts ts' : list Z.
Variable G n k : nat.
Variable sl sl' : nat -> Z.

Hypothesis Hk : (k < n)%nat.
Hypothesis Hext : forall ec rc, (ec < n - 1)%nat -> (rc < G)%nat ->
                    extent ts' G ec rc = extent ts G (skip k ec) rc.
Hypothesis Hsl : forall ec, sl' ec = sl (skip k ec).

Local Abbreviation lsize := (layout_size ts G sl).
Local Abbreviation lrecv := (layout_recvcount ts G sl).
Local Abbreviation ldispl := (layout_displcmnt ts G n sl).
Local Abbreviation lrank := (layout_rank_displacement ts G n sl).
Local Abbreviation loffset := (layout_offset ts G n sl).
Local Abbreviation lsize' := (layout_size ts' G sl').
Local Abbreviation lrecv' := (layout_recvcount ts' G sl').
Local Abbreviation ldispl' := (layout_displcmnt ts' G (n - 1) sl').
Local Abbreviation lrank' := (layout_rank_displacement ts' G (n - 1) sl').
Local Abbreviation loffset' := (layout_offset ts' G (n - 1) sl').

(** A zero extent is a component of size zero. *)
Lemma layout_size_zero ec rc : extent ts G ec rc = 0 -> lsize ec rc = 0.
Proof. intros H. unfold layout_size. by rewrite H. Qed.

Lemma layout_recvcount_range j rc : in_int (lrecv j rc).
Proof. destruct j; [apply in_int_0 | apply to_int_range]. Qed.

Lemma layout_rank_displacement_range rc : in_uint (lrank rc).
Proof. destruct rc; [apply in_uint_0 | apply to_uint_range]. Qed.

Lemma layout_offset_range ec rc : in_int64 (loffset ec rc).
Proof.
  destruct ec; simpl; [|apply to_int64_range].
  apply in_uint_int64, layout_rank_displacement_range.
Qed.

(** A component of size zero adds nothing to the receive count of its
    rank, and the next entry starts at the same offset. *)
Lemma layout_recvcount_zero ec rc :
  extent ts G ec rc = 0 -> lrecv (S ec) rc = lrecv ec rc.
Proof.
  intros H. simpl. rewrite layout_size_zero, Z.add_0_r by done.
  pose proof (layout_recvcount_range ec rc) as Hr.
  rewrite to_int64_id by (by apply in_int_int64). by apply to_int_id.
Qed.

Lemma layout_offset_zero ec rc :
  extent ts G ec rc = 0 -> loffset (S ec) rc = loffset ec rc.
Proof.
  intros H. simpl. rewrite layout_size_zero, Z.add_0_r by done.
  apply to_int64_id, layout_offset_range.
Qed.

Lemma layout_size_skip ec rc :
  (ec < n - 1)%nat -> (rc < G)%nat -> lsize' ec rc = lsize (skip k ec) rc.
Proof. intros Hec Hrc. unfold layout_size. by rewrite Hext, Hsl. Qed.

Lemma layout_total_dimension_skip ec j :
  (ec < n - 1)%nat -> (j <= G)%nat ->
  layout_total_dimension ts' G ec j = layout_total_dimension ts G (skip k ec) j.
Proof.
  intros Hec Hj. induction j as [|j IH]; [done|]. simpl.
  by rewrite IH, Hext by lia.
Qed.

(** The receive count of a rank that contributes nothing to entry [k]. *)
Lemma layout_recvcount_skip j rc :
  (rc < G)%nat -> extent ts G k rc = 0 -> (j <= n - 1)%nat ->
  lrecv' j rc = lrecv (if decide (j <= k)%nat then j else S j) rc.
Proof.
  intros Hrc Hzero Hj. induction j as [|j IH].
  - by rewrite decide_True by lia.
  - cbn [layout_recvcount]. rewrite IH, layout_size_skip by lia. unfold skip.
    destruct (decide (j < k)%nat) as [Hlt|Hge].
    + rewrite !decide_True by lia. done.
    + rewrite (decide_False (P := (S j <= k)%nat)) by lia.
      destruct (decide (j <= k)%nat) as [Hle|Hgt]; [|done].
      assert (j = k) as -> by lia.
      change (lrecv (S (S k)) rc)
        with (to_int (to_int64 (lrecv (S k) rc + lsize (S k) rc))).
      by rewrite layout_recvcount_zero.
Qed.

Lemma layout_recvcount_removed rc :
  (rc < G)%nat -> extent ts G k rc = 0 -> lrecv' (n - 1) rc = lrecv n rc.
Proof.
  intros Hrc Hzero. rewrite layout_recvcount_skip by (done || lia).
  destruct (decide (n - 1 <= k)%nat) as [Hle|Hgt].
  - assert (n = S k) as -> by lia.
    rewrite layout_recvcount_zero by done. f_equal. lia.
  - f_equal. lia.
Qed.

Hypothesis Hzero : forall rc, (rc < G)%nat -> extent ts G k rc = 0.

Lemma layout_displcmnt_removed rc : (rc <= G)%nat -> ldispl' rc = ldispl rc.
Proof.
  intros Hrc. induction rc as [|rc IH]; [done|]. simpl.
  rewrite IH, layout_recvcount_removed by (lia || (apply Hzero; lia)). done.
Qed.

Lemma layout_rank_displacement_removed rc : (rc <= G)%nat -> lrank' rc = lrank rc.
Proof.
  intros Hrc. induction rc as [|rc IH]; [done|]. simpl.
  rewrite IH, layout_recvcount_removed by (lia || (apply Hzero; lia)). done.
Qed.

Lemma layout_offset_removed ec rc :
  (ec < n - 1)%nat -> (rc < G)%nat -> loffset' ec rc = loffset (skip k ec) rc.
Proof.
  intros Hec Hrc. induction ec as [|ec IH].
  - change (loffset' 0 rc) with (lrank' rc).
    rewrite layout_rank_displacement_removed by lia.
    unfold skip. destruct (decide (0 < k)%nat) as [Hlt|Hge]; [done|].
    assert (k = 0%nat) as Hk0 by lia.
    rewrite (layout_offset_zero 0 rc) by (rewrite <- Hk0; by apply Hzero). done.
  - change (loffset' (S ec) rc) with (to_int64 (loffset' ec rc + lsize' ec rc)).
    rewrite IH, layout_size_skip by lia. unfold skip.
    destruct (decide (S ec < k)%nat) as [Hlt|Hge].
    + by rewrite decide_True by lia.
    + destruct (decide (ec < k)%nat) as [Hlt'|Hge']; [|done].
      assert (k = S ec) as Hk' by lia.
      rewrite (layout_offset_zero (S ec) rc) by (rewrite <- Hk'; by apply Hzero).
      done.
Qed.

Lemma layout_total_size_removed :
  (1 <= G)%nat ->
  layout_total_size ts' G (n - 1) sl' = layout_total_size ts G n sl.
Proof.
  intros HG. unfold layout_total_size.
  rewrite layout_displcmnt_removed, layout_recvcount_removed
    by (lia || (apply Hzero; lia)). done.
Qed.

End ZeroExtent.

Lemma without_entry_wf gs entries response k :
  gather_wf gs entries response ->
  (k < length entries)%nat -> (1 < length entries)%nat ->
  gather_wf gs (delete k entries) (without_entry_response gs k response).
Proof.
  intros (Hne & HG & Hlen & Htab) Hk Hn. unfold gather_wf, without_entry_response.
  cbn [tensor_sizes]. unfold group_size, remove_row, in_size_t in *.
  rewrite length_delete by (by apply lookup_lt_is_Some_2).
  rewrite length_app, length_take, length_drop.
  split; [|split; [done|split; nia]].
  intros Hnil. apply (f_equal length) in Hnil.
  rewrite length_delete in Hnil by (by apply lookup_lt_is_Some_2). simpl in Hnil. lia.
Qed.

Lemma allocation_without_entry tensor_sizes G n k ec e :
  (k < n)%nat -> (n * G <= length tensor_sizes)%nat -> (ec < n - 1)%nat ->
  allocation (remove_row G k tensor_sizes) G ec e
  = allocation tensor_sizes G (skip k ec) e.
Proof.
  intros Hk Htab Hec. unfold allocation, output_shape_of.
  rewrite (layout_total_dimension_skip tensor_sizes (remove_row G k tensor_sizes) G n k)
    by (done || intros; by apply (extent_remove_row tensor_sizes G n k)).
  done.
Qed.

Lemma lookup_delete_skip {A : Type} (l : list A) k ec :
  delete k l !! ec = l !! skip k ec.
Proof.
  unfold skip. destruct (decide (ec < k)%nat).
  - by rewrite list_lookup_delete_lt.
  - by rewrite list_lookup_delete_ge by lia.
Qed.

(** C9.  In the Gather layout computation a leading-dimension extent of zero
    is valid.  The run returns, and a failure it returns is the answer of an
    [AllocateOutput] call.  When the run reaches the transport call: a zero
    extent of entry [k] at rank [rc] is a component of size 0 and the next
    entry starts at the same offset at that rank; the batch without entry
    [k] (and the table without its row) has the same component sizes for
    the other entries and, at every rank where the extent of [k] is zero,
    the same receive count; and when the extent of [k] is zero at every
    rank, the batch without it has the same receive counts, displacements
    and total length, and the same offsets for every other (entry, rank)
    pair. *)
Theorem gather_zero_extent {R : Type} (GetElementSize : DataType -> Z)
    (DoAllgather : AllgatherArgs -> R) gs entries response k :
  gather_wf gs entries response ->
  (k < length entries)%nat ->
  exists st entries1 log,
    AllgatherExecute GetElementSize DoAllgather gs entries response
    = Some (st, entries1, log) /\
    (Status_ok st = false ->
     exists j e, entries !! j = Some e /\ st = fst (gather_allocation gs response j e)) /\
    (Status_ok st = true ->
     exists a,
       last log = Some (CallDoAllgather a (DoAllgather a)) /\
       (forall rc, (rc < group_size gs)%nat -> gather_extent gs response k rc = 0 ->
          get2 (ag_entry_component_sizes a) k rc = 0 /\
          ((S k < length entries)%nat ->
           get2 (ag_entry_component_offsets a) (S k) rc
           = get2 (ag_entry_component_offsets a) k rc)) /\
       ((1 < length entries)%nat ->
        exists st' entries1' log' a',
          AllgatherExecute GetElementSize DoAllgather gs (delete k entries)
                           (without_entry_response gs k response)
          = Some (st', entries1', log') /\
          Status_ok st' = true /\
          last log' = Some (CallDoAllgather a' (DoAllgather a')) /\
          ag_entry_component_sizes a' = delete k (ag_entry_component_sizes a) /\
          (forall rc, (rc < group_size gs)%nat -> gather_extent gs response k rc = 0 ->
             ag_recvcounts a' !! rc = ag_recvcounts a !! rc) /\
          ((forall rc, (rc < group_size gs)%nat -> gather_extent gs response k rc = 0) ->
           ag_recvcounts a' = ag_recvcounts a /\
           ag_displcmnts a' = ag_displcmnts a /\
           ag_total_size a' = ag_total_size a /\
           ag_entry_component_offsets a'
           = delete k (ag_entry_component_offsets a)))).
Proof.
  intros Hwf Hk.
  pose proof Hwf as (Hne & HG & Hlen & Htab).
  unfold gather_extent, gather_allocation, group_size in *.
  set (ts := tensor_sizes response) in *.
  set (G := Z.to_nat (GlobalState.size gs)) in *.
  set (n := length entries) in *.
  set (sl := slice_elements_of entries).
  destruct (AllgatherExecute_spec GetElementSize DoAllgather gs entries response Hwf)
    as [[Hrun Hall]|(k0 & e0 & Hk0 & He0 & Hfail & Hbefore & Hrun)].
  2:{ eexists _, _, _. split; [exact Hrun|]. split; [by eauto|]. congruence. }
  fold ts G n in Hrun, Hall.
  eexists _, _, _. split; [exact Hrun|]. split; [done|]. intros _.
  exists (gather_args GetElementSize gs entries response).
  split; [unfold gather_log; by rewrite last_app|].
  unfold gather_args at 1 2 3. cbn [ag_entry_component_sizes ag_entry_component_offsets].
  fold ts G n sl. split.
  - intros rc Hrc Hzero. split.
    + rewrite get2_matrix by done. by apply layout_size_zero.
    + intros HSk. rewrite !get2_matrix by lia. by apply layout_offset_zero.
  - intros Hn.
    pose proof (without_entry_wf gs entries response k Hwf Hk Hn) as Hwf'.
    set (response' := without_entry_response gs k response) in *.
    set (ts' := remove_row G k ts).
    set (sl' := slice_elements_of (delete k entries)).
    assert (Hts' : tensor_sizes response' = ts') by done.
    assert (Hn' : length (delete k entries) = (n - 1)%nat).
    { rewrite length_delete by (by apply lookup_lt_is_Some_2). done. }
    assert (Hext : forall ec rc, (ec < n - 1)%nat -> (rc < G)%nat ->
                     extent ts' G ec rc = extent ts G (skip k ec) rc).
    { intros ec rc Hec Hrc. by apply (extent_remove_row ts G n k). }
    assert (Hsl : forall ec, sl' ec = sl (skip k ec)).
    { intros ec. apply slice_elements_of_delete. }
    destruct (AllgatherExecute_spec GetElementSize DoAllgather gs (delete k entries)
                response' Hwf')
      as [[Hrun' _]|(k0 & e0 & Hk0 & He0 & Hfail & _ & _)];
      rewrite ?Hts', ?Hn' in *; fold G in Hrun' || fold G in Hfail.
    2:{ exfalso. rewrite lookup_delete_skip in He0. unfold ts' in Hfail.
        rewrite (allocation_without_entry ts G n k k0 e0) in Hfail by (done || lia).
        assert (Hlt : (skip k k0 < n)%nat) by (unfold skip; case_decide; lia).
        specialize (Hall _ Hlt). unfold allocation_ok in Hall. rewrite He0 in Hall.
        congruence. }
    eexists _, _, _, (gather_args GetElementSize gs (delete k entries) response').
    split; [exact Hrun'|]. split; [done|].
    split; [unfold gather_log; by rewrite last_app|].
    unfold gather_args.
    cbn [ag_entry_component_sizes ag_entry_component_offsets ag_recvcounts
         ag_displcmnts ag_total_size].
    rewrite Hts', Hn'. fold G n sl sl' ts. split; [|split].
    + unfold matrix. rewrite delete_vector by done.
      apply vector_ext. intros ec Hec. apply vector_ext. intros rc Hrc.
      by apply (layout_size_skip ts ts' G n k sl sl').
    + intros rc Hrc Hzero. rewrite !lookup_vector by done. f_equal.
      by apply (layout_recvcount_removed ts ts' G n k sl sl').
    + intros Hzero. split; [|split; [|split]].
      * apply vector_ext. intros rc Hrc.
        apply (layout_recvcount_removed ts ts' G n k sl sl'); auto.
      * apply vector_ext. intros rc Hrc.
        apply (layout_displcmnt_removed ts ts' G n k sl sl'); auto. lia.
      * apply (layout_total_size_removed ts ts' G n k sl sl'); auto. lia.
      * unfold matrix. rewrite delete_vector by done.
        apply vector_ext. intros ec Hec. apply vector_ext. intros rc Hrc.
        by apply (layout_offset_removed ts ts' G n k sl sl').
Qed.

Lemma zero_wf : gather_wf small_gs zero_entries zero_response.
Proof.
  unfold gather_wf, in_size_t. simpl. split; [done|]. split; [lia|]. split; lia.
Defined.

Lemma gather_zero_extent_witness :
  gather_wf small_gs zero_entries zero_response /\
  (1 < length zero_entries)%nat /\
  exists st entries1 log,
    AllgatherExecute (fun _ => 1) (fun _ => tt) small_gs zero_entries zero_response
    = Some (st, entries1, log) /\
    (Status_ok st = false ->
     exists j e, zero_entries !! j = Some e /\
                 st = fst (gather_allocation small_gs zero_response j e)) /\
    (Status_ok st = true ->
     exists a,
       last log = Some (CallDoAllgather a tt) /\
       (forall rc, (rc < group_size small_gs)%nat ->
          gather_extent small_gs zero_response 1 rc = 0 ->
          get2 (ag_entry_component_sizes a) 1 rc = 0 /\
          ((2 < length zero_entries)%nat ->
           get2 (ag_entry_component_offsets a) 2 rc
           = get2 (ag_entry_component_offsets a) 1 rc)) /\
       ((1 < length zero_entries)%nat ->
        exists st' entries1' log' a',
          AllgatherExecute (fun _ => 1) (fun _ => tt) small_gs (delete 1%nat zero_entries)
                           (without_entry_response small_gs 1 zero_response)
          = Some (st', entries1', log') /\
          Status_ok st' = true /\
          last log' = Some (CallDoAllgather a' tt) /\
          ag_entry_component_sizes a' = delete 1%nat (ag_entry_component_sizes a) /\
          (forall rc, (rc < group_size small_gs)%nat ->
             gather_extent small_gs zero_response 1 rc = 0 ->
             ag_recvcounts a' !! rc = ag_recvcounts a !! rc) /\
          ((forall rc, (rc < group_size small_gs)%nat ->
              gather_extent small_gs zero_response 1 rc = 0) ->
           ag_recvcounts a' = ag_recvcounts a /\
           ag_displcmnts a' = ag_displcmnts a /\
           ag_total_size a' = ag_total_size a /\
           ag_entry_component_offsets a'
           = delete 1%nat (ag_entry_component_offsets a)))).
Proof.
  assert (H : (1 < length zero_entries)%nat) by (simpl; lia).
  split; [exact zero_wf|]. split; [exact H|].
  exact (gather_zero_extent (fun _ => 1) (fun _ => tt) small_gs zero_entries
           zero_response 1 zero_wf H).
Defined.

(** The two runs: with the empty entry, and without it. *)
Example zero_extent_run :
  exists entries1 log a,
    AllgatherExecute (fun _ => 1) (fun _ => tt) small_gs zero_entries zero_response
    = Some (Status_OK, entries1, log) /\
    last log = Some (CallDoAllgather a tt) /\
    ag_recvcounts a = [28; 40] /\ ag_displcmnts a = [0; 28] /\
    ag_entry_component_sizes a = [[8; 12]; [0; 0]; [20; 28]] /\
    ag_entry_component_offsets a = [[0; 28]; [8; 40]; [8; 40]] /\
    ag_total_size a = 68.
Proof.
  eexists _, _, _. split; [vm_compute; reflexivity|]. repeat split.
Qed.

Example zero_extent_run_without :
  exists entries1 log a,
    AllgatherExecute (fun _ => 1) (fun _ => tt) small_gs (delete 1%nat zero_entries)
                     (without_entry_response small_gs 1 zero_response)
    = Some (Status_OK, entries1, log) /\
    last log = Some (CallDoAllgather a tt) /\
    ag_recvcounts a = [28; 40] /\ ag_displcmnts a = [0; 28] /\
    ag_entry_component_sizes a = [[8; 12]; [20; 28]] /\
    ag_entry_component_offsets a = [[0; 28]; [8; 40]] /\
    ag_total_size a = 68.
Proof.
  eexists _, _, _. split; [vm_compute; reflexivity|]. repeat split.
Qed.

(** * Further properties of the code *)

(** ** Machine integers, modulo *)

Lemma to_int64_add_l a b : to_int64 (to_int64 a + b) = to_int64 (a + b).
Proof.
  unfold to_int64, wrap_signed. f_equal.
  replace ((a + 2 ^ (64 - 1)) mod 2 ^ 64 - 2 ^ (64 - 1) + b + 2 ^ (64 - 1))
    with ((a + 2 ^ (64 - 1)) mod 2 ^ 64 + b) by lia.
  rewrite Zplus_mod_idemp_l. f_equal. lia.
Qed.

Lemma to_int64_add_r a b : to_int64 (a + to_int64 b) = to_int64 (a + b).
Proof. rewrite (Z.add_comm a), to_int64_add_l. f_equal. lia. Qed.

Lemma to_uint_add_r a b : to_uint (a + to_uint b) = to_uint (a + b).
Proof. unfold to_uint, wrap_unsigned. apply Zplus_mod_idemp_r. Qed.

Lemma to_uint_add_l a b : to_uint (to_uint a + b) = to_uint (a + b).
Proof. unfold to_uint, wrap_unsigned. apply Zplus_mod_idemp_l. Qed.

(** ** [AllreduceOp::NumElements] *)

Lemma NumElements_from a entries :
  foldl (fun num_elements e =>
           to_int64 (num_elements + Shape.num_elements (Tensor.shape (tensor e))))
        (to_int64 a) entries
  = to_int64 (a + sumZ (elements_of <$> entries)).
Proof.
  revert a. induction entries as [|e entries IH]; intros a.
  - simpl. f_equal. lia.
  - cbn [foldl]. rewrite to_int64_add_l, IH. rewrite fmap_cons.
    change (sumZ (elements_of e :: (elements_of <$> entries)))
      with (elements_of e + sumZ (elements_of <$> entries)).
    fold (elements_of e). f_equal. lia.
Qed.

(** X1.  [NumElements] is the sum of the element counts of the entries,
    converted to [int64_t]: it is that sum whenever the sum is within the
    range of [int64_t], it is 0 for the empty batch, and the count of a
    concatenated batch is the converted sum of the two counts. *)
Theorem NumElements_sum (entries more : list TensorTableEntry) :
  NumElements entries = to_int64 (sumZ (elements_of <$> entries)) /\
  (in_int64 (sumZ (elements_of <$> entries)) ->
   NumElements entries = sumZ (elements_of <$> entries)) /\
  NumElements [] = 0 /\
  NumElements (entries ++ more) = to_int64 (NumElements entries + NumElements more).
Proof.
  assert (H : forall l, NumElements l = to_int64 (sumZ (elements_of <$> l))).
  { intros l. unfold NumElements. change 0 with (to_int64 0) at 1.
    rewrite NumElements_from. f_equal. }
  split; [apply H|]. split; [|split; [done|]].
  - intros Hrange. rewrite H. by apply to_int64_id.
  - rewrite !H, fmap_app, sumZ_app, to_int64_add_l, to_int64_add_r. done.
Qed.

Lemma NumElements_sum_witness :
  in_int64 (sumZ (elements_of <$> staging_entries)) /\
  NumElements staging_entries = sumZ (elements_of <$> staging_entries).
Proof.
  assert (H : in_int64 (sumZ (elements_of <$> staging_entries))).
  { vm_compute. split; discriminate. }
  split; [exact H|].
  exact (proj1 (proj2 (NumElements_sum staging_entries [])) H).
Defined.

(** ** The slice shape *)

Lemma slice_loop (dims : list Z) (acc : TensorShape) k m :
  (k + m <= length dims)%nat ->
  shape_ (foldl (fun slice i => Shape.AddDim slice (dims !!! i)) acc (seq k m))
  = shape_ acc ++ take m (drop k dims).
Proof.
  intros H. induction m as [|m IH].
  - simpl. by rewrite take_0, app_nil_r.
  - rewrite seq_S, foldl_app. cbn [foldl]. unfold Shape.AddDim at 1. cbn [shape_].
    rewrite IH by lia.
    assert (Hm : drop k dims !! m = Some (dims !!! (k + m)%nat)).
    { rewrite lookup_drop. apply list_lookup_lookup_total_lt. lia. }
    rewrite (take_S_r _ _ _ Hm). by rewrite app_assoc.
Qed.

Lemma shape_single_slice_shape (e : TensorTableEntry) :
  shape_ (single_slice_shape e) = drop 1 (shape_ (Tensor.shape (tensor e))).
Proof.
  unfold single_slice_shape, Shape.dim_size, Shape.dims.
  set (dims := shape_ (Tensor.shape (tensor e))).
  destruct (decide (length dims = 0)%nat) as [H0|H0].
  - rewrite H0. simpl. destruct dims; [done | simpl in H0; lia].
  - rewrite slice_loop by lia. simpl.
    apply take_ge. rewrite length_drop. lia.
Qed.

(** X2.  The slice shape of an entry is the shape of its tensor without the
    first dimension; a tensor of no or one dimension has the empty slice
    shape, whose element count is 1. *)
Theorem single_slice_shape_tail (e : TensorTableEntry) :
  shape_ (single_slice_shape e) = drop 1 (shape_ (Tensor.shape (tensor e))) /\
  Shape.dims (single_slice_shape e) = (Shape.dims (Tensor.shape (tensor e)) - 1)%nat /\
  ((Shape.dims (Tensor.shape (tensor e)) <= 1)%nat ->
   single_slice_shape e = Shape.empty /\
   Shape.num_elements (single_slice_shape e) = 1).
Proof.
  pose proof (shape_single_slice_shape e) as H.
  split; [exact H|]. split.
  - unfold Shape.dims. rewrite H, length_drop. done.
  - intros Hd. unfold Shape.dims in Hd.
    assert (Hnil : shape_ (single_slice_shape e) = []).
    { rewrite H. apply drop_ge. lia. }
    destruct (single_slice_shape e) as [l]. simpl in Hnil. subst l. done.
Qed.

Lemma single_slice_shape_tail_witness :
  (Shape.dims (Tensor.shape (tensor (word_entry "w" 10 5000 8000))) <= 1)%nat /\
  single_slice_shape (word_entry "w" 10 5000 8000) = Shape.empty /\
  Shape.num_elements (single_slice_shape (word_entry "w" 10 5000 8000)) = 1.
Proof.
  assert (H : (Shape.dims (Tensor.shape (tensor (word_entry "w" 10 5000 8000))) <= 1)%nat).
  { vm_compute. lia. }
  split; [exact H|].
  exact (proj2 (proj2 (single_slice_shape_tail (word_entry "w" 10 5000 8000))) H).
Defined.

(** ** Runs of the gather, inverted *)

Section GatherInversion.

Context {R : Type}.
Variable GetElementSize : DataType -> Z.
Variable DoAllgather : AllgatherArgs -> R.
Variable gs : GlobalState.t.
Variable entries : list TensorTableEntry.
Variable response : Response.
Hypothesis Hwf : gather_wf gs entries response.

Local Abbreviation ts := (tensor_sizes response).
Local Abbreviation G := (group_size gs).
Local Abbreviation n := (length entries).

(** A run that returns success is the run in closed form. *)
Lemma AllgatherExecute_success st entries' log :
  AllgatherExecute GetElementSize DoAllgather gs entries response
  = Some (st, entries', log) ->
  Status_ok st = true ->
  st = Status_OK /\ entries' = entries_after ts G entries n /\
  log = gather_log GetElementSize DoAllgather gs entries response /\
  forall i, (i < n)%nat -> allocation_ok ts G entries i = true.
Proof.
  intros Hrun Hok.
  destruct (AllgatherExecute_spec GetElementSize DoAllgather gs entries response Hwf)
    as [[Hrun' Hall]|(k & e & _ & _ & Hfail & _ & Hrun')];
    rewrite Hrun' in Hrun; simplify_eq; try done.
  unfold group_size in *. congruence.
Qed.

(** A run that returns a failure stopped at the first failing allocation. *)
Lemma AllgatherExecute_failure st entries' log :
  AllgatherExecute GetElementSize DoAllgather gs entries response
  = Some (st, entries', log) ->
  Status_ok st = false ->
  exists k e, (k < n)%nat /\ entries !! k = Some e /\
    st = fst (allocation ts G k e) /\
    (forall i, (i < k)%nat -> allocation_ok ts G entries i = true) /\
    entries' = entries_after ts G entries (S k) /\
    log = log_after ts G entries (S k).
Proof.
  intros Hrun Hok.
  destruct (AllgatherExecute_spec GetElementSize DoAllgather gs entries response Hwf)
    as [[Hrun' Hall]|(k & e & Hk & He & Hfail & Hbefore & Hrun')];
    rewrite Hrun' in Hrun; simplify_eq; try done.
  exists k, e. done.
Qed.

(** The returned batch and the log of every run. *)
Lemma AllgatherExecute_returns st entries' log :
  AllgatherExecute GetElementSize DoAllgather gs entries response
  = Some (st, entries', log) ->
  exists k, (k <= n)%nat /\ entries' = entries_after ts G entries k /\
    exists rest, log = log_after ts G entries k ++ rest /\
                 Forall (fun c => is_allocation_call c = false) rest.
Proof.
  intros Hrun. destruct (Status_ok st) eqn:Hok.
  - destruct (AllgatherExecute_success _ _ _ Hrun Hok) as (_ & -> & -> & _).
    exists n. split; [done|]. split; [done|].
    eexists. split; [reflexivity|]. by repeat constructor.
  - destruct (AllgatherExecute_failure _ _ _ Hrun Hok)
      as (k & e & Hk & _ & _ & _ & -> & ->).
    exists (S k). split; [lia|]. split; [done|].
    exists []. by rewrite app_nil_r.
Qed.

End GatherInversion.

(** ** The output shapes *)

Lemma layout_total_dimension_in_range tensor_sizes G ec k :
  (forall rc, (rc < k)%nat -> 0 <= extent tensor_sizes G ec rc) ->
  sum_to k (extent tensor_sizes G ec) <= INT64_MAX ->
  layout_total_dimension tensor_sizes G ec k = sum_to k (extent tensor_sizes G ec).
Proof.
  induction k as [|k IH]; intros Hnn Hle; [done|]. simpl in *.
  pose proof (Hnn k ltac:(lia)).
  pose proof (sum_to_nonneg k (extent tensor_sizes G ec) ltac:(intros; apply Hnn; lia)).
  rewrite IH by (try lia; intros; apply Hnn; lia).
  apply to_int64_id. unfold in_int64. lia.
Qed.

Lemma shape_output_shape_of tensor_sizes G ec e :
  shape_ (output_shape_of tensor_sizes G ec e)
  = layout_total_dimension tensor_sizes G ec G
    :: drop 1 (shape_ (Tensor.shape (tensor e))).
Proof.
  unfold output_shape_of. simpl. by rewrite shape_single_slice_shape.
Qed.

(** Where an allocation call can stand in the log of a run. *)
Lemma lookup_log_after_allocation {R : Type} tensor_sizes G entries k j ec shape status :
  log_after (R:=R) tensor_sizes G entries k !! j
  = Some (CallAllocateOutput ec shape status) ->
  exists e, entries !! ec = Some e /\ j = S ec /\ (ec < k)%nat /\
    shape = output_shape_of tensor_sizes G ec e /\
    status = fst (allocation tensor_sizes G ec e).
Proof.
  unfold log_after, allocation_calls. destruct j as [|j]; [done|]. simpl.
  intros H. apply lookup_take_Some in H as [H Hj].
  rewrite list_lookup_imap in H.
  destruct (entries !! j) as [e|] eqn:He; simplify_eq/=.
  exists e. done.
Qed.

Lemma AllgatherExecute_defined {R : Type} (GetElementSize : DataType -> Z)
    (DoAllgather : AllgatherArgs -> R) gs entries response :
  gather_wf gs entries response ->
  exists st entries' log,
    AllgatherExecute GetElementSize DoAllgather gs entries response
    = Some (st, entries', log).
Proof.
  intros Hwf.
  destruct (AllgatherExecute_spec GetElementSize DoAllgather gs entries response Hwf)
    as [[Hrun _]|(k & e & _ & _ & _ & _ & Hrun)]; eauto.
Qed.

(** X3.  When no extent of the table is negative and the extents of every
    entry sum to at most [INT64_MAX], every [AllocateOutput] call of a gather
    run asks, for its entry, for the shape of the entry's tensor with the
    first dimension replaced by the sum of the extents of all ranks; a run
    that succeeds makes this call for every entry. *)
Theorem gather_output_shapes {R : Type} (GetElementSize : DataType -> Z)
    (DoAllgather : AllgatherArgs -> R) gs entries response :
  gather_wf gs entries response ->
  (forall ec rc, (ec < length entries)%nat -> (rc < group_size gs)%nat ->
                 0 <= gather_extent gs response ec rc) ->
  (forall ec, (ec < length entries)%nat ->
              sum_to (group_size gs) (gather_extent gs response ec) <= INT64_MAX) ->
  exists st entries' log,
    AllgatherExecute GetElementSize DoAllgather gs entries response
    = Some (st, entries', log) /\
    (forall j ec shape status,
       log !! j = Some (CallAllocateOutput ec shape status) ->
       exists e, entries !! ec = Some e /\ j = S ec /\
         shape_ shape
         = sum_to (group_size gs) (gather_extent gs response ec)
           :: drop 1 (shape_ (Tensor.shape (tensor e)))) /\
    (Status_ok st = true ->
     forall ec e, entries !! ec = Some e ->
       exists shape status,
         log !! S ec = Some (CallAllocateOutput ec shape status) /\
         shape_ shape
         = sum_to (group_size gs) (gather_extent gs response ec)
           :: drop 1 (shape_ (Tensor.shape (tensor e)))).
Proof.
  intros Hwf Hnn Hsum.
  assert (Hshape : forall ec e, entries !! ec = Some e ->
            shape_ (output_shape_of (tensor_sizes response) (group_size gs) ec e)
            = sum_to (group_size gs) (gather_extent gs response ec)
              :: drop 1 (shape_ (Tensor.shape (tensor e)))).
  { intros ec e He. pose proof (lookup_lt_Some _ _ _ He) as Hec.
    rewrite shape_output_shape_of. f_equal.
    apply layout_total_dimension_in_range; [|by apply Hsum].
    intros rc Hrc. by apply Hnn. }
  destruct (AllgatherExecute_defined GetElementSize DoAllgather gs entries response Hwf)
    as (st & entries' & log & Hrun).
  exists st, entries', log. split; [exact Hrun|]. split.
  - intros j ec shape status Hj.
    destruct (AllgatherExecute_returns GetElementSize DoAllgather gs entries response
                Hwf _ _ _ Hrun) as (k & Hk & _ & rest & -> & Hrest).
    apply lookup_app_Some in Hj as [Hj|[_ Hj]].
    + apply lookup_log_after_allocation in Hj as (e & He & -> & _ & -> & _).
      exists e. split; [done|]. split; [done|]. by apply Hshape.
    + pose proof (Forall_lookup_1 _ _ _ _ Hrest Hj) as Hc. done.
  - intros Hok ec e He.
    destruct (AllgatherExecute_success GetElementSize DoAllgather gs entries response
                Hwf _ _ _ Hrun Hok) as (_ & _ & -> & _).
    pose proof (lookup_lt_Some _ _ _ He) as Hec.
    eexists _, _. split; [|by apply Hshape].
    unfold gather_log. rewrite lookup_app_l by (rewrite length_log_after; lia).
    by apply lookup_log_after.
Qed.

Lemma gather_output_shapes_witness :
  exists st entries' log,
    AllgatherExecute (fun _ => 1) (fun _ => tt) small_gs small_entries small_response
    = Some (st, entries', log) /\
    (forall j ec shape status,
       log !! j = Some (CallAllocateOutput ec shape status) ->
       exists e, small_entries !! ec = Some e /\ j = S ec /\
         shape_ shape
         = sum_to (group_size small_gs) (gather_extent small_gs small_response ec)
           :: drop 1 (shape_ (Tensor.shape (tensor e)))) /\
    (Status_ok st = true ->
     forall ec e, small_entries !! ec = Some e ->
       exists shape status,
         log !! S ec = Some (CallAllocateOutput ec shape status) /\
         shape_ shape
         = sum_to (group_size small_gs) (gather_extent small_gs small_response ec)
           :: drop 1 (shape_ (Tensor.shape (tensor e)))).
Proof.
  apply (gather_output_shapes (fun _ => 1) (fun _ => tt) small_gs small_entries
           small_response small_wf).
  - intros ec rc Hec Hrc.
    destruct ec as [|[|ec]]; [| |simpl in Hec; lia];
      (destruct rc as [|[|rc]]; [| |unfold group_size in Hrc; simpl in Hrc; lia]);
      vm_compute; discriminate.
  - intros ec Hec.
    destruct ec as [|[|ec]]; [| |simpl in Hec; lia]; vm_compute; discriminate.
Defined.

(** ** The layout in machine arithmetic *)

Section MachineLayout.

Variable tensor_sizes : list Z.
Variable G n : nat.
Variable slice_elements : nat -> Z.

Local Abbreviation lsize := (layout_size tensor_sizes G slice_elements).
Local Abbreviation lrecv := (layout_recvcount tensor_sizes G slice_elements).
Local Abbreviation ldispl := (layout_displcmnt tensor_sizes G n slice_elements).
Local Abbreviation lrank := (layout_rank_displacement tensor_sizes G n slice_elements).
Local Abbreviation loffset := (layout_offset tensor_sizes G n slice_elements).

Lemma layout_displcmnt_range rc : in_int (ldispl rc).
Proof. destruct rc; [apply in_int_0 | apply to_int_range]. Qed.

(** The running [unsigned int] displacement of the offsets loop is the
    [int] displacement of the loop before it, read as unsigned. *)
Lemma layout_rank_displacement_unsigned rc : lrank rc = to_uint (ldispl rc).
Proof.
  induction rc as [|rc IH]; [done|].
  change (lrank (S rc)) with (to_uint (lrank rc + to_uint (lrecv n rc))).
  change (ldispl (S rc)) with (to_int (ldispl rc + lrecv n rc)).
  by rewrite IH, to_uint_add_l, to_uint_add_r, to_uint_to_int.
Qed.

Lemma to_uint_negative x : in_int x -> x < 0 -> to_uint x = x + 2 ^ 32.
Proof.
  unfold in_int, to_uint, wrap_unsigned. intros H Hneg.
  rewrite <- (Z.mod_add x 1 (2 ^ 32)) by lia. apply Z.mod_small. lia.
Qed.

End MachineLayout.

Lemma gather_args_first_offsets (GetElementSize : DataType -> Z) gs entries response :
  gather_wf gs entries response ->
  first_offsets_unsigned (group_size gs)
                         (gather_args GetElementSize gs entries response).
Proof.
  intros (Hne & HG & Hlen & Htab) rc Hrc. unfold group_size in *.
  assert (Hn : (0 < length entries)%nat) by (destruct entries; [done | simpl; lia]).
  unfold gather_args. cbn [ag_entry_component_offsets ag_displcmnts].
  rewrite get2_matrix, lookup_total_vector by lia.
  cbn [layout_offset]. rewrite layout_rank_displacement_unsigned.
  pose proof (layout_displcmnt_range (tensor_sizes response)
                (Z.to_nat (GlobalState.size gs)) (length entries)
                (slice_elements_of entries) rc) as Hr.
  split; [done|]. split; intros Hd.
  - apply to_uint_id. unfold in_int, in_uint, INT_MAX in *. lia.
  - by apply to_uint_negative.
Qed.

(** X4.  In every gather run that reaches the transport call, the offset
    passed for entry 0 at a rank is the [int] displacement of that rank read
    as an [unsigned int]: the displacement itself when it is not negative,
    and [2^32] more when it is. *)
Theorem gather_first_offset_unsigned {R : Type} (GetElementSize : DataType -> Z)
    (DoAllgather : AllgatherArgs -> R) gs entries response :
  gather_wf gs entries response ->
  exists st entries' log,
    AllgatherExecute GetElementSize DoAllgather gs entries response
    = Some (st, entries', log) /\
    (Status_ok st = true ->
     exists args,
       last log = Some (CallDoAllgather args (DoAllgather args)) /\
       first_offsets_unsigned (group_size gs) args).
Proof.
  intros Hwf. apply AllgatherExecute_args; [done|].
  by apply gather_args_first_offsets.
Qed.

Lemma gather_first_offset_unsigned_witness :
  exists st entries' log,
    AllgatherExecute (fun _ => 1) (fun _ => tt) big_gs big_entries big_response
    = Some (st, entries', log) /\
    (Status_ok st = true ->
     exists args,
       last log = Some (CallDoAllgather args tt) /\
       first_offsets_unsigned (group_size big_gs) args).
Proof.
  exact (gather_first_offset_unsigned (fun _ => 1) (fun _ => tt) big_gs big_entries
           big_response big_wf).
Defined.

(** ** The layout as a tiling of the buffer *)

Section Tiling.

Variable tensor_sizes : list Z.
Variable G n : nat.
Variable slice_elements : nat -> Z.

Local Abbreviation component_size := (component_size tensor_sizes G slice_elements).
Local Abbreviation rank_total := (rank_total tensor_sizes G n slice_elements).
Local Abbreviation components_total := (components_total tensor_sizes G n slice_elements).
Local Abbreviation lsize := (layout_size tensor_sizes G slice_elements).
Local Abbreviation lrecv := (layout_recvcount tensor_sizes G slice_elements).
Local Abbreviation loffset := (layout_offset tensor_sizes G n slice_elements).
Local Abbreviation ltotal := (layout_total_size tensor_sizes G n slice_elements).

Hypothesis Hnonneg :
  forall ec rc, (ec < n)%nat -> (rc < G)%nat -> 0 <= component_size ec rc.
Hypothesis Htotal : components_total <= INT_MAX.
Hypothesis HG : (1 <= G)%nat.

Lemma layout_component_within ec rc :
  (ec < n)%nat -> (rc < G)%nat ->
  0 <= loffset ec rc /\ 0 <= lsize ec rc /\ loffset ec rc + lsize ec rc <= ltotal.
Proof.
  intros Hec Hrc.
  rewrite (layout_offset_in_range tensor_sizes G n slice_elements Hnonneg Htotal) by lia.
  rewrite (layout_size_in_range tensor_sizes G n slice_elements Hnonneg Htotal) by lia.
  rewrite (layout_total_size_in_range tensor_sizes G n slice_elements Hnonneg Htotal)
    by lia.
  pose proof (rank_prefix_bound tensor_sizes G n slice_elements Hnonneg Htotal rc
                ltac:(lia)) as Hp.
  pose proof (entry_prefix_bound tensor_sizes G n slice_elements Hnonneg ec rc
                ltac:(lia) Hrc) as He.
  pose proof (entry_prefix_bound tensor_sizes G n slice_elements Hnonneg (S ec) rc
                ltac:(lia) Hrc) as He'.
  pose proof (sum_to_le (S rc) G rank_total ltac:(lia)
                (rank_total_nonneg tensor_sizes G n slice_elements Hnonneg)) as Hle.
  pose proof (Hnonneg ec rc Hec Hrc).
  cbn [sum_to] in He', Hle. lia.
Qed.

Lemma layout_rank_end rc :
  (1 <= n)%nat -> (rc < G)%nat ->
  loffset (n - 1) rc + lsize (n - 1) rc
  = if decide (S rc < G)%nat then loffset 0 (S rc) else ltotal.
Proof.
  intros Hn Hrc.
  rewrite (layout_offset_in_range tensor_sizes G n slice_elements Hnonneg Htotal) by lia.
  rewrite (layout_size_in_range tensor_sizes G n slice_elements Hnonneg Htotal) by lia.
  assert (Hrow : sum_to (n - 1) (fun e => component_size e rc) + component_size (n - 1) rc
                 = rank_total rc).
  { unfold rank_total. destruct n as [|n']; [lia|]. simpl. by rewrite Nat.sub_0_r. }
  destruct (decide (S rc < G)%nat) as [Hnext|Hlast].
  - rewrite (layout_offset_in_range tensor_sizes G n slice_elements Hnonneg Htotal)
      by lia.
    cbn [sum_to]. lia.
  - rewrite (layout_total_size_in_range tensor_sizes G n slice_elements Hnonneg Htotal)
      by lia.
    assert (Hs : sum_to G rank_total = sum_to (S rc) rank_total) by (f_equal; lia).
    rewrite Hs. cbn [sum_to]. lia.
Qed.

Lemma layout_recvcount_sizes rc :
  (rc < G)%nat -> lrecv n rc = sum_to n (fun ec => lsize ec rc).
Proof.
  intros Hrc.
  rewrite (layout_recvcount_in_range tensor_sizes G n slice_elements Hnonneg Htotal)
    by lia.
  apply sum_to_ext. intros ec Hec.
  by rewrite (layout_size_in_range tensor_sizes G n slice_elements Hnonneg Htotal) by lia.
Qed.

End Tiling.

Lemma gather_in_range_tiling (GetElementSize : DataType -> Z) gs entries response :
  gather_wf gs entries response ->
  gather_in_range gs entries response ->
  tiling_ok (group_size gs) (length entries)
            (gather_args GetElementSize gs entries response).
Proof.
  intros (Hne & HG & Hlen & Htab) [Hnn Htot].
  unfold gather_component_size, gather_components_total, group_size in *.
  set (ts := tensor_sizes response) in *.
  set (G := Z.to_nat (GlobalState.size gs)) in *.
  set (n := length entries) in *.
  set (sl := slice_elements_of entries) in *.
  assert (Hn : (0 < n)%nat) by (subst n; destruct entries; [done | simpl; lia]).
  assert (HG' : (1 <= G)%nat) by lia.
  unfold tiling_ok, gather_args. simpl. fold ts G n sl. split; [|split].
  - intros ec rc Hec Hrc. rewrite !get2_matrix by lia.
    apply layout_component_within; first [done | lia].
  - intros rc Hrc. rewrite !get2_matrix by lia.
    rewrite (layout_rank_end ts G n sl) by first [done | lia].
    destruct (decide (S rc < G)%nat); [|done].
    by rewrite get2_matrix by lia.
  - intros rc Hrc. rewrite lookup_total_vector by lia.
    rewrite (layout_recvcount_sizes ts G n sl) by first [done | lia].
    apply sum_to_ext. intros ec Hec. by rewrite get2_matrix by lia.
Qed.

(** X6.  When no component size is negative and their total is at most
    [INT_MAX], the layout that a gather run passes to the transport call
    tiles the buffer: every component lies within [0 .. total_size], at each
    rank the component of the last entry ends where the first component of
    the next rank starts (at [total_size] for the last rank), and the
    receive count of a rank is the sum of the sizes of its components. *)
Theorem gather_layout_tiles_buffer {R : Type} (GetElementSize : DataType -> Z)
    (DoAllgather : AllgatherArgs -> R) gs entries response :
  gather_wf gs entries response ->
  gather_in_range gs entries response ->
  exists st entries' log,
    AllgatherExecute GetElementSize DoAllgather gs entries response
    = Some (st, entries', log) /\
    (Status_ok st = true ->
     exists args,
       last log = Some (CallDoAllgather args (DoAllgather args)) /\
       tiling_ok (group_size gs) (length entries) args).
Proof.
  intros Hwf Hrange. apply AllgatherExecute_args; [done|].
  by apply gather_in_range_tiling.
Qed.

Lemma gather_layout_tiles_buffer_witness :
  exists st entries' log,
    AllgatherExecute (fun _ => 1) (fun _ => tt) small_gs small_entries small_response
    = Some (st, entries', log) /\
    (Status_ok st = true ->
     exists args,
       last log = Some (CallDoAllgather args tt) /\
       tiling_ok (group_size small_gs) (length small_entries) args).
Proof.
  exact (gather_layout_tiles_buffer (fun _ => 1) (fun _ => tt) small_gs small_entries
           small_response small_wf small_in_range).
Defined.

(** ** The staging copies on the memory *)

Lemma apart_sub p n q k q' k' :
  apart p n q k -> q <= q' -> q' + k' <= q + k -> apart p n q' k'.
Proof. unfold apart. lia. Qed.

Lemma staging_offset_bound es i e :
  Forall (fun e => 0 <= entry_size e) es -> es !! i = Some e ->
  0 <= staging_offset es i /\ staging_offset es i + entry_size e <= staged_length es.
Proof.
  intros Hnn. revert i. induction Hnn as [|e0 es He0 Hes IH]; intros i Hi; [done|].
  pose proof (staged_length_nonneg es Hes) as Hrest.
  rewrite staged_length_cons. destruct i as [|i].
  - simplify_eq/=. rewrite staging_offset_0. lia.
  - rewrite staging_offset_S. simpl in Hi. specialize (IH i Hi). lia.
Qed.

Lemma memcpy_apart m dst src n :
  apart src n dst n ->
  memcpy m dst src n
  = Some (fun a => if decide (dst <= a < dst + n) then m (src + (a - dst)) else m a).
Proof.
  intros H. unfold memcpy. destruct (decide _) as [|Hno]; [done|].
  unfold apart in H. lia.
Qed.

Lemma all_apart_cons_outputs e o (es : list (TensorTableEntry * Tensor.t)) :
  all_apart (output_region <$> (e, o) :: es) ->
  Forall (fun eo => apart (Tensor.data o) (entry_size e)
                          (Tensor.data eo.2) (entry_size eo.1)) es /\
  all_apart (output_region <$> es).
Proof.
  rewrite fmap_cons. intros [H1 H2]. split; [|done].
  rewrite Forall_fmap in H1. exact H1.
Qed.

Section StagingMemory.

Context {R : Type}.
Variable buffer : Z.

Local Abbreviation copy_in_from := (copy_in_from (R:=R) buffer).
Local Abbreviation copy_out_from := (copy_out_from (R:=R) buffer).

(** The copies into the buffer: the slice of every entry receives the bytes
    of the entry's input, and no byte outside the slices changes. *)
Lemma run_copy_in es : forall offset m,
  Forall (fun e => 0 <= entry_size e) es ->
  Forall (fun e => apart (Tensor.data (tensor e)) (entry_size e)
                         (buffer + offset) (staged_length es)) es ->
  exists m', run_memcpys (copy_in_from offset es) m = Some m' /\
    (forall i e j, es !! i = Some e -> 0 <= j < entry_size e ->
       m' (buffer + (offset + staging_offset es i) + j) = m (Tensor.data (tensor e) + j)) /\
    (forall a, ~ in_region (buffer + offset) (staged_length es) a -> m' a = m a).
Proof.
  induction es as [|e es' IH]; intros offset m Hnn Hap.
  - exists m. split; [done|]. split; [|done]. intros i e j Hi. done.
  - apply Forall_cons in Hnn as [He Hes]. apply Forall_cons in Hap as [Hape Hapes].
    pose proof (staged_length_nonneg es' Hes) as Hrest.
    rewrite staged_length_cons in *.
    cbn [copy_in_from run_memcpys].
    rewrite memcpy_apart by (unfold apart in *; lia).
    cbn [mbind option_bind].
    set (m1 := fun a : Z => if decide (buffer + offset <= a < buffer + offset + entry_size e)
                            then m (Tensor.data (tensor e) + (a - (buffer + offset)))
                            else m a).
    destruct (IH (offset + entry_size e) m1 Hes) as (m' & Hrun & Hin & Hframe).
    { eapply Forall_impl; [exact Hapes|]. intros e' H'. cbn beta in H'.
      eapply apart_sub; [exact H' | lia | lia]. }
    exists m'. split; [exact Hrun|]. split.
    + intros i e' j Hi Hj. destruct i as [|i].
      * simplify_eq/=. rewrite staging_offset_0.
        rewrite Hframe by (unfold in_region; lia).
        unfold m1. destruct (decide _) as [|Hno]; [f_equal; lia | lia].
      * simpl in Hi. rewrite staging_offset_S.
        replace (buffer + (offset + (entry_size e + staging_offset es' i)) + j)
          with (buffer + (offset + entry_size e + staging_offset es' i) + j) by lia.
        rewrite (Hin i e' j Hi Hj).
        pose proof (Forall_lookup_1 _ _ _ _ Hapes Hi) as Hap'. cbn beta in Hap'.
        unfold m1. destruct (decide _) as [Hyes|]; [|done].
        unfold apart in Hap'. lia.
    + intros a Ha. unfold in_region in *.
      rewrite Hframe by (unfold in_region; lia).
      unfold m1. destruct (decide _) as [Hyes|]; [lia | done].
Qed.

(** The copies out of the buffer: every output receives the bytes of its
    entry's slice, and no byte outside the outputs changes. *)
Lemma run_copy_out (es : list (TensorTableEntry * Tensor.t)) : forall offset m,
  Forall (fun e => 0 <= entry_size e) es.*1 ->
  Forall (fun eo => apart (Tensor.data eo.2) (entry_size eo.1)
                          (buffer + offset) (staged_length es.*1)) es ->
  all_apart (output_region <$> es) ->
  exists m', run_memcpys (copy_out_from offset es) m = Some m' /\
    (forall i eo j, es !! i = Some eo -> 0 <= j < entry_size eo.1 ->
       m' (Tensor.data eo.2 + j) = m (buffer + (offset + staging_offset es.*1 i) + j)) /\
    (forall a, Forall (fun eo => ~ in_region (Tensor.data eo.2) (entry_size eo.1) a) es ->
       m' a = m a).
Proof.
  induction es as [|[e o] es' IH]; intros offset m Hnn Hap Hall.
  - exists m. split; [done|]. split; [|done]. intros i e j Hi. done.
  - apply all_apart_cons_outputs in Hall as [Hfirst Hall].
    rewrite fmap_cons in Hnn, Hap. cbn [fst snd] in Hnn, Hap.
    apply Forall_cons in Hnn as [He Hes]. apply Forall_cons in Hap as [Hape Hapes].
    cbn [fst snd] in Hape.
    pose proof (staged_length_nonneg _ Hes) as Hrest.
    rewrite staged_length_cons in *.
    cbn [copy_out_from run_memcpys].
    rewrite memcpy_apart by (unfold apart in *; lia).
    cbn [mbind option_bind].
    set (m1 := fun a : Z => if decide (Tensor.data o <= a < Tensor.data o + entry_size e)
                            then m (buffer + offset + (a - Tensor.data o))
                            else m a).
    destruct (IH (offset + entry_size e) m1 Hes) as (m' & Hrun & Hin & Hframe).
    { eapply Forall_impl; [exact Hapes|]. intros eo H'. cbn beta in H'.
      eapply apart_sub; [exact H' | lia | lia]. }
    { exact Hall. }
    exists m'. split; [exact Hrun|]. split.
    + intros i eo j Hi Hj. destruct i as [|i].
      * simplify_eq/=. rewrite staging_offset_0.
        rewrite Hframe.
        -- unfold m1. destruct (decide _) as [|Hno]; [f_equal; lia | lia].
        -- eapply Forall_impl; [exact Hfirst|]. intros eo H'.
           unfold apart, in_region in *. cbn beta in H'. lia.
      * simpl in Hi. rewrite fmap_cons, staging_offset_S. cbn [fst].
        rewrite (Hin i eo j Hi Hj).
        pose proof (Forall_lookup_1 _ _ _ _ Hapes Hi) as Hap'. cbn beta in Hap'.
        assert (Hi' : es'.*1 !! i = Some eo.1) by (by rewrite list_lookup_fmap, Hi).
        pose proof (staging_offset_bound _ _ _ Hes Hi') as Hb.
        unfold m1. destruct (decide _) as [Hyes|]; [|f_equal; lia].
        unfold apart in Hape. lia.
    + intros a Ha. apply Forall_cons in Ha as [Ha0 Ha]. cbn [fst snd] in Ha0.
      rewrite Hframe by done.
      unfold m1, in_region in *. destruct (decide _) as [Hyes|]; [lia | done].
Qed.

End StagingMemory.

Lemma run_memcpys_app {R : Type} (l1 l2 : list (Call R)) m :
  run_memcpys (l1 ++ l2) m = m1 ← run_memcpys l1 m; run_memcpys l2 m1.
Proof.
  revert m. induction l1 as [|c l1 IH]; intros m; [done|].
  destruct c; cbn [app run_memcpys]; try apply IH.
  destruct (memcpy m dst src n) as [m1|]; [apply IH | done].
Qed.

Lemma MemcpyInFusionBuffer_log {R : Type} gs (entries : list TensorTableEntry) :
  entries <> [] ->
  Forall (fun e => 0 <= entry_size e) entries ->
  staged_length entries <= INT64_MAX ->
  MemcpyInFusionBuffer (R:=R) gs entries
  = Some (mkFusedInput (fusion_buffer_data gs entries) (fusion_buffer_data gs entries)
                       (staged_length entries),
          copy_in_from (fusion_buffer_data gs entries) 0 entries).
Proof.
  intros Hne Hnn Hmax.
  pose proof (staged_length_nonneg entries Hnn) as Hlen.
  assert (exists first, entries !! 0%nat = Some first) as [first H0]
    by (destruct entries; [done | eauto]).
  assert (Hbuf : fusion_buffer_data gs entries
                 = AccessData (GetBuffer (GlobalState.fusion_buffer gs) (device first)
                                         (OpContext.framework (context first)))
                              (context first)).
  { destruct entries; simplify_eq/=; done. }
  unfold MemcpyInFusionBuffer. rewrite H0. cbn [mbind option_bind].
  rewrite <- Hbuf.
  rewrite (memcpy_in_loop_spec (fusion_buffer_data gs entries) entries entries 0 [])
    by (done || lia).
  rewrite Z.add_0_l, app_nil_l.
  by rewrite to_size_t_id by (unfold in_size_t, INT64_MAX in *; lia).
Qed.

Lemma lookup_zip_outputs (entries : list TensorTableEntry) (outs : list Tensor.t) i e o :
  entries !! i = Some e -> outs !! i = Some o -> zip entries outs !! i = Some (e, o).
Proof.
  intros He Ho. apply lookup_zip_with_Some. eauto.
Qed.

(** X7.  Copying a batch into the fusion buffer (byte sizes not negative,
    total at most [INT64_MAX], no input overlapping the buffer) packs the
    inputs tightly: the byte [j] of the input of entry [i] lands at the
    buffer address plus the sizes of the entries before [i] plus [j], and no
    byte outside the first [buffer_len] bytes of the buffer changes. *)
Theorem fusion_buffer_holds_inputs {R : Type} gs (entries : list TensorTableEntry)
    (m : Memory) :
  entries <> [] ->
  Forall (fun e => 0 <= entry_size e) entries ->
  staged_length entries <= INT64_MAX ->
  Forall (fun e => apart (Tensor.data (tensor e)) (entry_size e)
                         (fusion_buffer_data gs entries) (staged_length entries))
         entries ->
  exists fused log_in m',
    MemcpyInFusionBuffer (R:=R) gs entries = Some (fused, log_in) /\
    buffer_data fused = fusion_buffer_data gs entries /\
    run_memcpys log_in m = Some m' /\
    (forall i e j, entries !! i = Some e -> 0 <= j < entry_size e ->
       m' (buffer_data fused + staging_offset entries i + j)
       = m (Tensor.data (tensor e) + j)) /\
    (forall a, ~ in_region (buffer_data fused) (buffer_len fused) a -> m' a = m a).
Proof.
  intros Hne Hnn Hmax Hap.
  destruct (run_copy_in (R:=R) (fusion_buffer_data gs entries) entries 0 m Hnn)
    as (m' & Hrun & Hin & Hframe).
  { eapply Forall_impl; [exact Hap|]. intros e H. cbn beta in H.
    by rewrite Z.add_0_r. }
  eexists _, _, m'. split; [by apply MemcpyInFusionBuffer_log|].
  cbn [buffer_data buffer_len]. split; [done|]. split; [exact Hrun|]. split.
  - intros i e j Hi Hj. rewrite <- (Hin i e j Hi Hj). f_equal; lia.
  - intros a Ha. apply Hframe. by rewrite Z.add_0_r.
Qed.

Lemma staging_entries_apart_buffer :
  Forall (fun e => apart (Tensor.data (tensor e)) (entry_size e)
                         (fusion_buffer_data small_gs staging_entries)
                         (staged_length staging_entries))
         staging_entries.
Proof. repeat constructor; unfold apart; vm_compute; intuition discriminate. Defined.

Lemma staging_entries_nonneg : Forall (fun e => 0 <= entry_size e) staging_entries.
Proof. repeat constructor; vm_compute; discriminate. Defined.

Lemma staging_entries_bounded : staged_length staging_entries <= INT64_MAX.
Proof. vm_compute. discriminate. Defined.

Lemma staging_entries_nonempty : staging_entries <> [].
Proof. discriminate. Defined.

Lemma fusion_buffer_holds_inputs_witness :
  exists fused log_in m',
    MemcpyInFusionBuffer (R:=unit) small_gs staging_entries = Some (fused, log_in) /\
    buffer_data fused = fusion_buffer_data small_gs staging_entries /\
    run_memcpys log_in address_memory = Some m' /\
    (forall i e j, staging_entries !! i = Some e -> 0 <= j < entry_size e ->
       m' (buffer_data fused + staging_offset staging_entries i + j)
       = address_memory (Tensor.data (tensor e) + j)) /\
    (forall a, ~ in_region (buffer_data fused) (buffer_len fused) a ->
       m' a = address_memory a).
Proof.
  exact (fusion_buffer_holds_inputs (R:=unit) small_gs staging_entries address_memory
           staging_entries_nonempty staging_entries_nonneg staging_entries_bounded
           staging_entries_apart_buffer).
Defined.

(** X8.  Copying a batch out of a buffer (byte sizes not negative, total at
    most [INT64_MAX], every entry with an output, the outputs overlapping
    neither the buffer nor each other) gives every output the bytes of its
    entry's slice of the buffer, and changes no byte outside the outputs. *)
Theorem outputs_hold_buffer_slices {R : Type} (entries : list TensorTableEntry)
    (outs : list Tensor.t) (buffer : Z) (m : Memory) :
  Forall (fun e => 0 <= entry_size e) entries ->
  staged_length entries <= INT64_MAX ->
  output <$> entries = Some <$> outs ->
  Forall (fun eo => apart (Tensor.data eo.2) (entry_size eo.1)
                          buffer (staged_length entries))
         (zip entries outs) ->
  all_apart (output_region <$> zip entries outs) ->
  exists log_out m',
    MemcpyOutFusionBuffer (R:=R) entries buffer = Some log_out /\
    run_memcpys log_out m = Some m' /\
    (forall i e o j, entries !! i = Some e -> outs !! i = Some o ->
       0 <= j < entry_size e ->
       m' (Tensor.data o + j) = m (buffer + staging_offset entries i + j)) /\
    (forall a,
       Forall (fun eo => ~ in_region (Tensor.data eo.2) (entry_size eo.1) a)
              (zip entries outs) ->
       m' a = m a).
Proof.
  intros Hnn Hmax Houts Hap Hall.
  destruct (zip_outputs entries outs Houts) as [Hfst _].
  destruct (run_copy_out (R:=R) buffer (zip entries outs) 0 m)
    as (m' & Hrun & Hin & Hframe).
  { by rewrite Hfst. }
  { rewrite Hfst. eapply Forall_impl; [exact Hap|]. intros eo H. cbn beta in H.
    by rewrite Z.add_0_r. }
  { exact Hall. }
  exists (copy_out_from buffer 0 (zip entries outs)), m'.
  split; [by apply memcpy_out_loop_zip|]. split; [exact Hrun|]. split; [|exact Hframe].
  intros i e o j He Ho Hj.
  pose proof (Hin i (e, o) j (lookup_zip_outputs _ _ _ _ _ He Ho) Hj) as H.
  cbn [fst snd] in H. rewrite H, Hfst. f_equal; lia.
Qed.

Lemma staging_outputs_of : output <$> staging_entries = Some <$> staging_outputs.
Proof. reflexivity. Defined.

Lemma staging_outputs_apart_buffer :
  Forall (fun eo => apart (Tensor.data eo.2) (entry_size eo.1)
                          1000 (staged_length staging_entries))
         (zip staging_entries staging_outputs).
Proof. repeat constructor; unfold apart; vm_compute; intuition discriminate. Defined.

Lemma staging_outputs_apart :
  all_apart (output_region <$> zip staging_entries staging_outputs).
Proof.
  cbn [zip zip_with staging_entries staging_outputs fmap list_fmap all_apart].
  repeat split; repeat constructor; unfold apart; vm_compute; intuition discriminate.
Defined.

Lemma outputs_hold_buffer_slices_witness :
  exists log_out m',
    MemcpyOutFusionBuffer (R:=unit) staging_entries 1000 = Some log_out /\
    run_memcpys log_out address_memory = Some m' /\
    (forall i e o j, staging_entries !! i = Some e -> staging_outputs !! i = Some o ->
       0 <= j < entry_size e ->
       m' (Tensor.data o + j) = address_memory (1000 + staging_offset staging_entries i + j)) /\
    (forall a,
       Forall (fun eo => ~ in_region (Tensor.data eo.2) (entry_size eo.1) a)
              (zip staging_entries staging_outputs) ->
       m' a = address_memory a).
Proof.
  exact (outputs_hold_buffer_slices (R:=unit) staging_entries staging_outputs 1000
           address_memory staging_entries_nonneg staging_entries_bounded
           staging_outputs_of staging_outputs_apart_buffer staging_outputs_apart).
Defined.

(** X9.  Staging round trip: copying a batch into the fusion buffer and then
    out of it (the buffer overlapping no input and no output, the outputs
    not overlapping each other; an output may be its entry's input) leaves
    in every output the bytes that its entry's input held before. *)
Theorem staging_round_trip {R : Type} gs (entries : list TensorTableEntry)
    (outs : list Tensor.t) (m : Memory) :
  entries <> [] ->
  Forall (fun e => 0 <= entry_size e) entries ->
  staged_length entries <= INT64_MAX ->
  output <$> entries = Some <$> outs ->
  Forall (fun e => apart (Tensor.data (tensor e)) (entry_size e)
                         (fusion_buffer_data gs entries) (staged_length entries))
         entries ->
  Forall (fun eo => apart (Tensor.data eo.2) (entry_size eo.1)
                          (fusion_buffer_data gs entries) (staged_length entries))
         (zip entries outs) ->
  all_apart (output_region <$> zip entries outs) ->
  exists fused log_in log_out m',
    MemcpyInFusionBuffer (R:=R) gs entries = Some (fused, log_in) /\
    MemcpyOutFusionBuffer (R:=R) entries (buffer_data fused) = Some log_out /\
    run_memcpys (log_in ++ log_out) m = Some m' /\
    forall i e o j, entries !! i = Some e -> outs !! i = Some o ->
      0 <= j < entry_size e ->
      m' (Tensor.data o + j) = m (Tensor.data (tensor e) + j).
Proof.
  intros Hne Hnn Hmax Houts Hin_ap Hout_ap Hall.
  set (buffer := fusion_buffer_data gs entries) in *.
  destruct (zip_outputs entries outs Houts) as [Hfst _].
  destruct (run_copy_in (R:=R) buffer entries 0 m Hnn) as (m1 & Hrun1 & Hin1 & _).
  { eapply Forall_impl; [exact Hin_ap|]. intros e H. cbn beta in H.
    by rewrite Z.add_0_r. }
  destruct (run_copy_out (R:=R) buffer (zip entries outs) 0 m1)
    as (m2 & Hrun2 & Hin2 & _).
  { by rewrite Hfst. }
  { rewrite Hfst. eapply Forall_impl; [exact Hout_ap|]. intros eo H. cbn beta in H.
    by rewrite Z.add_0_r. }
  { exact Hall. }
  eexists _, _, (copy_out_from buffer 0 (zip entries outs)), m2.
  split; [by apply MemcpyInFusionBuffer_log|]. cbn [buffer_data].
  split; [by apply memcpy_out_loop_zip|]. split.
  - rewrite run_memcpys_app. fold buffer. rewrite Hrun1. exact Hrun2.
  - intros i e o j He Ho Hj.
    pose proof (Hin2 i (e, o) j (lookup_zip_outputs _ _ _ _ _ He Ho) Hj) as H.
    cbn [fst snd] in H. rewrite H, Hfst. apply (Hin1 i e j He Hj).
Qed.

Lemma staging_round_trip_witness :
  exists fused log_in log_out m',
    MemcpyInFusionBuffer (R:=unit) small_gs staging_entries = Some (fused, log_in) /\
    MemcpyOutFusionBuffer (R:=unit) staging_entries (buffer_data fused) = Some log_out /\
    run_memcpys (log_in ++ log_out) address_memory = Some m' /\
    forall i e o j, staging_entries !! i = Some e -> staging_outputs !! i = Some o ->
      0 <= j < entry_size e ->
      m' (Tensor.data o + j) = address_memory (Tensor.data (tensor e) + j).
Proof.
  exact (staging_round_trip (R:=unit) small_gs staging_entries staging_outputs
           address_memory staging_entries_nonempty staging_entries_nonneg
           staging_entries_bounded staging_outputs_of staging_entries_apart_buffer
           staging_outputs_apart_buffer staging_outputs_apart).
Defined.

(** ** The two staging loops, for sizes of any value *)

Section StagingLoops.

Context {R : Type}.
Variable buffer : Z.
Variable all : list TensorTableEntry.

Lemma memcpy_out_loop_defined es : forall offset log,
  is_Some (memcpy_out_loop (R:=R) buffer all es offset log)
  <-> Forall (fun e => is_Some (output e)) es.
Proof.
  induction es as [|e es' IH]; intros offset log.
  - simpl. split; [constructor | eauto].
  - cbn [memcpy_out_loop]. unfold MemcpyEntryOutFusionBuffer.
    rewrite Forall_cons. destruct (output e) as [o|]; cbn [mbind option_bind].
    + rewrite IH. split; [eauto | by intros [_ ?]].
    + split; [by intros [? ?] | by intros [[? ?] _]].
Qed.

Lemma memcpy_loops_mirror es : forall offset log1 log2 log_out,
  memcpy_out_loop (R:=R) buffer all es offset log2 = Some log_out ->
  exists calls_in calls_out,
    snd (memcpy_in_loop (R:=R) buffer all es offset log1) = log1 ++ calls_in /\
    log_out = log2 ++ calls_out /\
    Forall2 mirrors calls_in calls_out /\
    Forall2 copies_input es calls_in /\
    Forall2 copies_to_output es calls_out.
Proof.
  induction es as [|e es' IH]; intros offset log1 log2 log_out Hout.
  - simpl in *. simplify_eq. exists [], []. rewrite !app_nil_r.
    repeat split; constructor.
  - cbn [memcpy_out_loop memcpy_in_loop] in *.
    unfold MemcpyEntryOutFusionBuffer, MemcpyEntryInFusionBuffer in *.
    destruct (output e) as [o|] eqn:Ho; cbn [mbind option_bind] in Hout; [|done].
    destruct (IH _ (log1 ++ [CallMemcpy (buffer + offset) (Tensor.data (tensor e))
                                        (to_size_t (Tensor.size (tensor e)))])
                 _ _ Hout)
      as (calls_in & calls_out & Hin & -> & Hm & Hi & Ho').
    eexists (_ :: calls_in), (_ :: calls_out).
    split; [by rewrite Hin, <- app_assoc|]. split; [by rewrite <- app_assoc|].
    split; [|split]; constructor; try done.
    simpl. by rewrite Ho.
Qed.

Lemma memcpy_in_loop_inputs es : forall offset log,
  exists calls_in,
    snd (memcpy_in_loop (R:=R) buffer all es offset log) = log ++ calls_in /\
    Forall2 copies_input es calls_in.
Proof.
  induction es as [|e es' IH]; intros offset log.
  - exists []. simpl. rewrite app_nil_r. split; [done | constructor].
  - cbn [memcpy_in_loop]. unfold MemcpyEntryInFusionBuffer.
    destruct (IH (to_int64 (offset + Tensor.size (tensor e)))
                 (log ++ [CallMemcpy (buffer + offset) (Tensor.data (tensor e))
                                     (to_size_t (Tensor.size (tensor e)))]))
      as (calls_in & Hin & Hi).
    eexists (_ :: calls_in). split; [by rewrite Hin, <- app_assoc|].
    by constructor.
Qed.

End StagingLoops.

Lemma MemcpyInFusionBuffer_unfold {R : Type} gs entries :
  MemcpyInFusionBuffer (R:=R) gs entries
  = match entries with
    | [] => None
    | _ :: _ =>
        let r := memcpy_in_loop (fusion_buffer_data gs entries) entries entries 0 [] in
        Some (mkFusedInput (fusion_buffer_data gs entries) (fusion_buffer_data gs entries)
                           (to_size_t (fst r)), snd r)
    end.
Proof.
  unfold MemcpyInFusionBuffer. destruct entries as [|e es]; [done|].
  cbn [lookup list_lookup mbind option_bind fusion_buffer_data].
  by destruct (memcpy_in_loop _ _ _ _ _).
Qed.

(** X10.  For byte sizes of any value: [MemcpyInFusionBuffer] is defined
    exactly for a batch that is not empty and copies the input of every
    entry, in order; [MemcpyOutFusionBuffer] is defined exactly when every
    entry has an output and copies to the output of every entry, in order;
    and each copy out reads, with the same byte count, the address that the
    copy in of its entry wrote. *)
Theorem staging_copies_mirror {R : Type} gs (entries : list TensorTableEntry) :
  (is_Some (MemcpyInFusionBuffer (R:=R) gs entries) <-> entries <> []) /\
  (forall buffer, is_Some (MemcpyOutFusionBuffer (R:=R) entries buffer)
                  <-> Forall (fun e => is_Some (output e)) entries) /\
  (forall fused log_in,
     MemcpyInFusionBuffer (R:=R) gs entries = Some (fused, log_in) ->
     fused_input_data fused = fusion_buffer_data gs entries /\
     buffer_data fused = fusion_buffer_data gs entries /\
     Forall2 copies_input entries log_in /\
     forall log_out,
       MemcpyOutFusionBuffer (R:=R) entries (buffer_data fused) = Some log_out ->
       Forall2 copies_to_output entries log_out /\
       Forall2 mirrors log_in log_out).
Proof.
  split; [|split].
  - rewrite MemcpyInFusionBuffer_unfold. destruct entries; simpl.
    + split; [by intros [? ?] | done].
    + split; [done | eauto].
  - intros buffer. apply memcpy_out_loop_defined.
  - intros fused log_in Hin. rewrite MemcpyInFusionBuffer_unfold in Hin.
    destruct entries as [|e es]; [done|]. cbv beta iota zeta in Hin.
    remember (e :: es) as batch eqn:E. clear E.
    injection Hin as <- <-. cbn [fused_input_data buffer_data].
    split; [done|]. split; [done|].
    set (b := fusion_buffer_data gs batch).
    split.
    + destruct (memcpy_in_loop_inputs (R:=R) b batch batch 0 [])
        as (calls_in & -> & Hi). done.
    + intros log_out Hout. unfold MemcpyOutFusionBuffer in Hout.
      destruct (memcpy_loops_mirror (R:=R) b batch batch 0 [] [] log_out Hout)
        as (calls_in & calls_out & -> & -> & Hm & _ & Ho). done.
Qed.

Lemma staging_copies_mirror_witness :
  (is_Some (MemcpyInFusionBuffer (R:=unit) small_gs staging_entries)
   <-> staging_entries <> []) /\
  (forall buffer, is_Some (MemcpyOutFusionBuffer (R:=unit) staging_entries buffer)
                  <-> Forall (fun e => is_Some (output e)) staging_entries) /\
  (forall fused log_in,
     MemcpyInFusionBuffer (R:=unit) small_gs staging_entries = Some (fused, log_in) ->
     fused_input_data fused = fusion_buffer_data small_gs staging_entries /\
     buffer_data fused = fusion_buffer_data small_gs staging_entries /\
     Forall2 copies_input staging_entries log_in /\
     forall log_out,
       MemcpyOutFusionBuffer (R:=unit) staging_entries (buffer_data fused)
       = Some log_out ->
       Forall2 copies_to_output staging_entries log_out /\
       Forall2 mirrors log_in log_out).
Proof.
  exact (staging_copies_mirror (R:=unit) small_gs staging_entries).
Defined.

(** ** What the layout depends on *)

Section LayoutExt.

Variable tensor_sizes : list Z.
Variable G n : nat.
Variable sl sl' : nat -> Z.
Hypothesis Hsl : forall ec, sl ec = sl' ec.

Lemma layout_size_ext ec rc :
  layout_size tensor_sizes G sl ec rc = layout_size tensor_sizes G sl' ec rc.
Proof. unfold layout_size. by rewrite Hsl. Qed.

Lemma layout_recvcount_ext j rc :
  layout_recvcount tensor_sizes G sl j rc = layout_recvcount tensor_sizes G sl' j rc.
Proof. induction j as [|j IH]; [done|]. simpl. by rewrite IH, layout_size_ext. Qed.

Lemma layout_displcmnt_ext rc :
  layout_displcmnt tensor_sizes G n sl rc = layout_displcmnt tensor_sizes G n sl' rc.
Proof. induction rc as [|rc IH]; [done|]. simpl. by rewrite IH, layout_recvcount_ext. Qed.

Lemma layout_rank_displacement_ext rc :
  layout_rank_displacement tensor_sizes G n sl rc
  = layout_rank_displacement tensor_sizes G n sl' rc.
Proof. induction rc as [|rc IH]; [done|]. simpl. by rewrite IH, layout_recvcount_ext. Qed.

Lemma layout_offset_ext ec rc :
  layout_offset tensor_sizes G n sl ec rc = layout_offset tensor_sizes G n sl' ec rc.
Proof.
  induction ec as [|ec IH]; simpl; [apply layout_rank_displacement_ext|].
  by rewrite IH, layout_size_ext.
Qed.

Lemma layout_total_size_ext :
  layout_total_size tensor_sizes G n sl = layout_total_size tensor_sizes G n sl'.
Proof.
  unfold layout_total_size. by rewrite layout_displcmnt_ext, layout_recvcount_ext.
Qed.

End LayoutExt.

Lemma slice_elements_of_same entries entries' ec :
  Forall2 same_slice_shape entries entries' ->
  slice_elements_of entries ec = slice_elements_of entries' ec.
Proof.
  intros H. unfold slice_elements_of.
  destruct (entries !! ec) as [e|] eqn:He.
  - destruct (Forall2_lookup_l _ _ _ _ _ H He) as (e' & -> & Hs).
    f_equal. unfold same_slice_shape in Hs.
    rewrite <- !shape_single_slice_shape in Hs.
    destruct (single_slice_shape e), (single_slice_shape e'). simpl in Hs. by subst.
  - apply lookup_ge_None in He. rewrite (Forall2_length _ _ _ H) in He.
    apply lookup_ge_None in He. by rewrite He.
Qed.

Lemma gather_args_layout_same (GetElementSize GetElementSize' : DataType -> Z)
    gs gs' entries entries' response :
  GlobalState.size gs' = GlobalState.size gs ->
  Forall2 same_slice_shape entries entries' ->
  layout_of (gather_args GetElementSize gs entries response)
  = layout_of (gather_args GetElementSize' gs' entries' response).
Proof.
  intros Hsize Hshape. unfold layout_of, gather_args. simpl.
  rewrite Hsize, <- (Forall2_length _ _ _ Hshape).
  pose proof (fun ec => slice_elements_of_same entries entries' ec Hshape) as Hsl.
  repeat apply (f_equal2 pair).
  - apply vector_ext. intros. by apply layout_recvcount_ext.
  - apply vector_ext. intros. by apply layout_displcmnt_ext.
  - apply matrix_ext. intros. by apply layout_offset_ext.
  - apply matrix_ext. intros. by apply layout_size_ext.
  - by apply layout_total_size_ext.
Qed.

(** X11.  The layout of a gather does not depend on the process: two
    processes of groups of the same size that run the gather on the same
    table of sizes, with batches whose entries agree in their dimensions
    after the first, pass the same receive counts, displacements, component
    offsets, component sizes and total size to the transport call, whatever
    their ranks, element types, contexts, outputs and first dimensions. *)
Theorem gather_layout_process_independent {R R' : Type}
    (GetElementSize GetElementSize' : DataType -> Z)
    (DoAllgather : AllgatherArgs -> R) (DoAllgather' : AllgatherArgs -> R')
    gs gs' entries entries' response :
  gather_wf gs entries response ->
  GlobalState.size gs' = GlobalState.size gs ->
  Forall2 same_slice_shape entries entries' ->
  exists st es log st' es' log',
    AllgatherExecute GetElementSize DoAllgather gs entries response
    = Some (st, es, log) /\
    AllgatherExecute GetElementSize' DoAllgather' gs' entries' response
    = Some (st', es', log') /\
    (Status_ok st = true -> Status_ok st' = true ->
     exists args args',
       last log = Some (CallDoAllgather args (DoAllgather args)) /\
       last log' = Some (CallDoAllgather args' (DoAllgather' args')) /\
       layout_of args = layout_of args').
Proof.
  intros Hwf Hsize Hshape.
  assert (Hwf' : gather_wf gs' entries' response).
  { destruct Hwf as (Hne & HG & Hlen & Htab). unfold gather_wf.
    rewrite Hsize, <- (Forall2_length _ _ _ Hshape).
    split; [|done]. intros ->. apply Forall2_nil_inv_r in Hshape. done. }
  destruct (AllgatherExecute_defined GetElementSize DoAllgather gs entries response Hwf)
    as (st & es & log & Hrun).
  destruct (AllgatherExecute_defined GetElementSize' DoAllgather' gs' entries' response
              Hwf') as (st' & es' & log' & Hrun').
  exists st, es, log, st', es', log'. split; [done|]. split; [done|].
  intros Hok Hok'.
  destruct (AllgatherExecute_success _ _ _ _ _ Hwf _ _ _ Hrun Hok) as (_ & _ & -> & _).
  destruct (AllgatherExecute_success _ _ _ _ _ Hwf' _ _ _ Hrun' Hok') as (_ & _ & -> & _).
  eexists _, _. unfold gather_log. rewrite !last_app. simpl.
  split; [reflexivity|]. split; [reflexivity|].
  by apply gather_args_layout_same.
Qed.

Lemma other_same_slice_shape : Forall2 same_slice_shape small_entries other_entries.
Proof. repeat constructor. Defined.

Lemma gather_layout_process_independent_witness :
  exists st es log st' es' log',
    AllgatherExecute (fun _ => 1) (fun _ => tt) small_gs small_entries small_response
    = Some (st, es, log) /\
    AllgatherExecute (fun _ => 4) (fun _ => tt) other_gs other_entries small_response
    = Some (st', es', log') /\
    (Status_ok st = true -> Status_ok st' = true ->
     exists args args',
       last log = Some (CallDoAllgather args tt) /\
       last log' = Some (CallDoAllgather args' tt) /\
       layout_of args = layout_of args').
Proof.
  exact (gather_layout_process_independent (fun _ => 1) (fun _ => 4) (fun _ => tt)
           (fun _ => tt) small_gs other_gs small_entries other_entries small_response
           small_wf eq_refl other_same_slice_shape).
Defined.

(** ** What a gather run changes and what it calls *)

(** X12.  A gather run changes nothing of an entry but its output: the
    returned batch has the entries of the given one, each with the name,
    context, tensor, root rank and device it had.  After a run that
    succeeds every entry holds the output that its [AllocateOutput] call
    stored, and that batch is the one passed to the transport call. *)
Theorem gather_changes_outputs_only {R : Type} (GetElementSize : DataType -> Z)
    (DoAllgather : AllgatherArgs -> R) gs entries response st entries' log :
  gather_wf gs entries response ->
  AllgatherExecute GetElementSize DoAllgather gs entries response
  = Some (st, entries', log) ->
  Forall2 (fun e e' => e' = set_output e (output e')) entries entries' /\
  (Status_ok st = true ->
   (forall i e, entries !! i = Some e ->
      entries' !! i = Some (set_output e (snd (gather_allocation gs response i e)))) /\
   forall args r, CallDoAllgather args r ∈ log -> ag_entries args = entries').
Proof.
  intros Hwf Hrun. split.
  - destruct (AllgatherExecute_returns GetElementSize DoAllgather gs entries response
                Hwf _ _ _ Hrun) as (k & _ & -> & _).
    apply Forall2_same_length_lookup. split; [by rewrite length_entries_after|].
    intros i e e' He He'. rewrite (lookup_entries_after _ _ _ _ _ _ He) in He'.
    simplify_eq. case_decide; by destruct e.
  - intros Hok.
    destruct (AllgatherExecute_success GetElementSize DoAllgather gs entries response
                Hwf _ _ _ Hrun Hok) as (_ & -> & -> & _).
    split.
    + intros i e He. pose proof (lookup_lt_Some _ _ _ He).
      rewrite (lookup_entries_after _ _ _ _ _ _ He). by rewrite decide_True by lia.
    + intros args r Hin. unfold gather_log in Hin.
      apply elem_of_app in Hin as [Hin|Hin].
      * pose proof (log_after_plain (R:=R) (tensor_sizes response) (group_size gs)
                      entries (length entries)) as Hplain.
        rewrite Forall_forall in Hplain. by destruct (Hplain _ Hin).
      * apply elem_of_cons in Hin as [Hin|Hin]; [done|].
        apply list_elem_of_singleton in Hin. by simplify_eq.
Qed.

Lemma gather_changes_outputs_only_witness :
  exists st entries' log,
    AllgatherExecute (fun _ => 1) (fun _ => tt) small_gs small_entries small_response
    = Some (st, entries', log) /\
    Forall2 (fun e e' => e' = set_output e (output e')) small_entries entries' /\
    (Status_ok st = true ->
     (forall i e, small_entries !! i = Some e ->
        entries' !! i
        = Some (set_output e (snd (gather_allocation small_gs small_response i e)))) /\
     forall args r, CallDoAllgather args r ∈ log -> ag_entries args = entries').
Proof.
  eexists _, _, _. split; [vm_compute; reflexivity|].
  apply (gather_changes_outputs_only (fun _ => 1) (fun _ => tt) small_gs small_entries
           small_response _ _ _ small_wf).
  vm_compute. reflexivity.
Defined.

(** X13.  The calls of a gather run that succeeds on a batch of [n]
    entries are [n + 3]: the start of the [ALLOCATE_OUTPUT] activity for
    the names of the batch, one allocation per entry, the end of the
    activity for the same names, and last the transport call, whose element
    size is the size of the element type of the first entry.  A run that
    fails at entry [k] makes [k + 2] calls. *)
Theorem gather_run_calls {R : Type} (GetElementSize : DataType -> Z)
    (DoAllgather : AllgatherArgs -> R) gs entries response st entries' log :
  gather_wf gs entries response ->
  AllgatherExecute GetElementSize DoAllgather gs entries response
  = Some (st, entries', log) ->
  log !! 0%nat = Some (ActivityStartAll (tensor_name <$> entries) ALLOCATE_OUTPUT) /\
  (Status_ok st = true ->
   length log = (length entries + 3)%nat /\
   log !! S (length entries) = Some (ActivityEndAll (tensor_name <$> entries)) /\
   exists args first,
     log !! S (S (length entries)) = Some (CallDoAllgather args (DoAllgather args)) /\
     entries !! 0%nat = Some first /\
     ag_element_size args = GetElementSize (Tensor.dtype (tensor first))) /\
  (Status_ok st = false ->
   exists k, (k < length entries)%nat /\ length log = (k + 2)%nat /\
     gather_allocation_ok gs entries response k = false /\
     forall i, (i < k)%nat -> gather_allocation_ok gs entries response i = true).
Proof.
  intros Hwf Hrun. split; [|split].
  - destruct (AllgatherExecute_returns GetElementSize DoAllgather gs entries response
                Hwf _ _ _ Hrun) as (k & _ & _ & rest & -> & _).
    done.
  - intros Hok.
    destruct (AllgatherExecute_success GetElementSize DoAllgather gs entries response
                Hwf _ _ _ Hrun Hok) as (_ & _ & -> & _).
    assert (Hlen : length (log_after (R:=R) (tensor_sizes response)
                                     (Z.to_nat (GlobalState.size gs))
                                     entries (length entries))
                   = S (length entries)) by (by apply length_log_after).
    unfold gather_log. split; [|split].
    + rewrite length_app, Hlen. simpl. lia.
    + rewrite lookup_app_r by lia. by rewrite Hlen, Nat.sub_diag.
    + destruct Hwf as (Hne & _).
      destruct entries as [|first rest] eqn:E; [done|]. rewrite <- E in *.
      exists (gather_args GetElementSize gs entries response), first.
      split; [|split].
      * rewrite lookup_app_r by lia. rewrite Hlen.
        by replace (S (S (length entries)) - S (length entries))%nat with 1%nat by lia.
      * by rewrite E.
      * unfold gather_args. simpl. by rewrite E.
  - intros Hok.
    destruct (AllgatherExecute_failure GetElementSize DoAllgather gs entries response
                Hwf _ _ _ Hrun Hok) as (k & e & Hk & He & -> & Hbefore & _ & ->).
    exists k. split; [done|]. split; [rewrite length_log_after; lia|].
    split; [|done].
    unfold gather_allocation_ok, allocation_ok. by rewrite He.
Qed.

Lemma gather_run_calls_witness :
  exists st entries' log,
    AllgatherExecute (fun _ => 1) (fun _ => tt) small_gs refused_entries refused_response
    = Some (st, entries', log) /\
    log !! 0%nat
    = Some (ActivityStartAll (tensor_name <$> refused_entries) ALLOCATE_OUTPUT) /\
    (Status_ok st = true ->
     length log = (length refused_entries + 3)%nat /\
     log !! S (length refused_entries)
     = Some (ActivityEndAll (tensor_name <$> refused_entries)) /\
     exists args first,
       log !! S (S (length refused_entries)) = Some (CallDoAllgather args tt) /\
       refused_entries !! 0%nat = Some first /\
       ag_element_size args = 1) /\
    (Status_ok st = false ->
     exists k, (k < length refused_entries)%nat /\ length log = (k + 2)%nat /\
       gather_allocation_ok small_gs refused_entries refused_response k = false /\
       forall i, (i < k)%nat ->
         gather_allocation_ok small_gs refused_entries refused_response i = true).
Proof.
  eexists _, _, _. split; [vm_compute; reflexivity|].
  eapply (gather_run_calls (fun _ => 1) (fun _ => tt) small_gs refused_entries
            refused_response); [exact refused_wf|].
  vm_compute. reflexivity.
Defined.

(** ** The components in the buffer *)

Section Ordered.

Variable tensor_sizes : list Z.
Variable G n : nat.
Variable slice_elements : nat -> Z.

Local Abbreviation component_size := (component_size tensor_sizes G slice_elements).
Local Abbreviation rank_total := (rank_total tensor_sizes G n slice_elements).
Local Abbreviation components_total := (components_total tensor_sizes G n slice_elements).
Local Abbreviation lsize := (layout_size tensor_sizes G slice_elements).
Local Abbreviation loffset := (layout_offset tensor_sizes G n slice_elements).

Hypothesis Hnonneg :
  forall ec rc, (ec < n)%nat -> (rc < G)%nat -> 0 <= component_size ec rc.
Hypothesis Htotal : components_total <= INT_MAX.

Lemma layout_components_ordered ec rc ec' rc' :
  (ec < n)%nat -> (rc < G)%nat -> (ec' < n)%nat -> (rc' < G)%nat ->
  (rc < rc')%nat \/ (rc = rc' /\ (ec < ec')%nat) ->
  loffset ec rc + lsize ec rc <= loffset ec' rc'.
Proof.
  intros Hec Hrc Hec' Hrc' Horder.
  rewrite !(layout_offset_in_range tensor_sizes G n slice_elements Hnonneg Htotal)
    by lia.
  rewrite (layout_size_in_range tensor_sizes G n slice_elements Hnonneg Htotal) by lia.
  pose proof (entry_prefix_bound tensor_sizes G n slice_elements Hnonneg (S ec) rc
                ltac:(lia) Hrc) as He. cbn [sum_to] in He.
  pose proof (entry_prefix_bound tensor_sizes G n slice_elements Hnonneg ec' rc'
                ltac:(lia) Hrc') as He'.
  destruct Horder as [Hlt|[-> Hlt]].
  - pose proof (sum_to_le (S rc) rc' rank_total ltac:(lia)
                  (fun i Hi => rank_total_nonneg tensor_sizes G n slice_elements
                                 Hnonneg i ltac:(lia))) as Hle.
    cbn [sum_to] in Hle. lia.
  - pose proof (sum_to_le (S ec) ec' (fun e => component_size e rc') ltac:(lia)
                  (fun i Hi => Hnonneg i rc' ltac:(lia) Hrc')) as Hle.
    cbn [sum_to] in Hle. lia.
Qed.

End Ordered.

(** X16.  When no component size is negative and their total is at most
    [INT_MAX], the components that a gather run passes to the transport call
    are laid out rank by rank and, within a rank, entry by entry: each
    component ends at or before the start of every component after it, so
    no two components overlap. *)
Theorem gather_components_disjoint {R : Type} (GetElementSize : DataType -> Z)
    (DoAllgather : AllgatherArgs -> R) gs entries response :
  gather_wf gs entries response ->
  gather_in_range gs entries response ->
  exists st entries' log,
    AllgatherExecute GetElementSize DoAllgather gs entries response
    = Some (st, entries', log) /\
    (Status_ok st = true ->
     exists args,
       last log = Some (CallDoAllgather args (DoAllgather args)) /\
       components_ordered (group_size gs) (length entries) args).
Proof.
  intros Hwf [Hnn Htot]. apply AllgatherExecute_args; [done|].
  unfold gather_component_size, gather_components_total, group_size in *.
  intros ec rc ec' rc' Hec Hrc Hec' Hrc' Horder.
  unfold gather_args. cbn [ag_entry_component_offsets ag_entry_component_sizes].
  rewrite !get2_matrix by lia.
  by apply layout_components_ordered.
Qed.

Lemma gather_components_disjoint_witness :
  exists st entries' log,
    AllgatherExecute (fun _ => 1) (fun _ => tt) small_gs small_entries small_response
    = Some (st, entries', log) /\
    (Status_ok st = true ->
     exists args,
       last log = Some (CallDoAllgather args tt) /\
       components_ordered (group_size small_gs) (length small_entries) args).
Proof.
  exact (gather_components_disjoint (fun _ => 1) (fun _ => tt) small_gs small_entries
           small_response small_wf small_in_range).
Defined.

(** ** The allocated outputs and the layout *)

Lemma foldl_mul a l : foldl Z.mul a l = a * foldl Z.mul 1 l.
Proof.
  revert a. induction l as [|x l IH]; intros a; cbn [foldl]; [lia|].
  rewrite (IH (a * x)), (IH (1 * x)). lia.
Qed.

Lemma num_elements_output_shape_of tensor_sizes G ec e :
  Shape.num_elements (output_shape_of tensor_sizes G ec e)
  = layout_total_dimension tensor_sizes G ec G
    * Shape.num_elements (single_slice_shape e).
Proof.
  unfold output_shape_of, Shape.num_elements, Shape.AppendShape, Shape.AddDim.
  cbn [shape_ Shape.empty app]. cbn [foldl]. rewrite foldl_mul. lia.
Qed.

Lemma sum_to_mul_r k f c : sum_to k (fun i => f i * c) = sum_to k f * c.
Proof. induction k as [|k IH]; simpl; lia. Qed.

Lemma layout_total_dimension_exact tensor_sizes G ec k :
  (forall j, (j <= k)%nat -> in_int64 (sum_to j (extent tensor_sizes G ec))) ->
  layout_total_dimension tensor_sizes G ec k = sum_to k (extent tensor_sizes G ec).
Proof.
  induction k as [|k IH]; intros H; [done|]. simpl.
  rewrite IH by (intros; apply H; lia).
  apply to_int64_id. apply (H (S k)). lia.
Qed.

Section OutputElements.

Variable tensor_sizes : list Z.
Variable G n : nat.
Variable slice_elements : nat -> Z.

Local Abbreviation component_size := (component_size tensor_sizes G slice_elements).
Local Abbreviation components_total := (components_total tensor_sizes G n slice_elements).

Hypothesis Hnonneg :
  forall ec rc, (ec < n)%nat -> (rc < G)%nat -> 0 <= component_size ec rc.
Hypothesis Htotal : components_total <= INT_MAX.

(** The components of one entry sum to the entry's total extent times the
    element count of its slice, whether or not the extents themselves are
    summed exactly. *)
Lemma entry_components_total ec :
  (ec < n)%nat ->
  layout_total_dimension tensor_sizes G ec G * slice_elements ec
  = sum_to G (fun rc => component_size ec rc).
Proof.
  intros Hec. unfold component_size. rewrite sum_to_mul_r.
  destruct (decide (slice_elements ec = 0)) as [->|Hsl]; [lia|].
  f_equal. apply layout_total_dimension_exact. intros j Hj.
  assert (Hpart : 0 <= sum_to j (extent tensor_sizes G ec) * slice_elements ec
                  <= INT_MAX).
  { rewrite <- sum_to_mul_r. split.
    - apply sum_to_nonneg. intros rc Hrc. apply (Hnonneg ec rc Hec). lia.
    - pose proof (sum_to_le j G (fun rc => component_size ec rc) Hj
                    (fun rc Hrc => Hnonneg ec rc Hec Hrc)) as H1.
      pose proof (sum_to_term_le ec n
                    (fun ec => sum_to G (fun rc => component_size ec rc)) Hec) as H2.
      cbn beta in H2. unfold component_size in H1, H2.
      unfold components_total, component_size in Htotal.
      etrans; [exact H1|]. etrans; [apply H2|exact Htotal].
      intros i Hi. apply sum_to_nonneg. intros rc Hrc. by apply Hnonneg. }
  unfold in_int64, INT64_MAX, INT_MAX in *. nia.
Qed.

End OutputElements.

(** X17.  When no component size is negative and their total is at most
    [INT_MAX], the output that a gather run asks [AllocateOutput] for, for an
    entry, has as many elements as the components of all ranks that the
    layout passed to the transport call holds for that entry. *)
Theorem gather_output_matches_layout {R : Type} (GetElementSize : DataType -> Z)
    (DoAllgather : AllgatherArgs -> R) gs entries response :
  gather_wf gs entries response ->
  gather_in_range gs entries response ->
  exists st entries' log,
    AllgatherExecute GetElementSize DoAllgather gs entries response
    = Some (st, entries', log) /\
    (Status_ok st = true ->
     exists args,
       last log = Some (CallDoAllgather args (DoAllgather args)) /\
       forall ec e, entries !! ec = Some e ->
         exists shape status,
           log !! S ec = Some (CallAllocateOutput ec shape status) /\
           Shape.num_elements shape
           = sum_to (group_size gs)
                    (fun rc => get2 (ag_entry_component_sizes args) ec rc)).
Proof.
  intros Hwf [Hnn Htot].
  destruct (AllgatherExecute_defined GetElementSize DoAllgather gs entries response Hwf)
    as (st & entries' & log & Hrun).
  exists st, entries', log. split; [exact Hrun|]. intros Hok.
  destruct (AllgatherExecute_success GetElementSize DoAllgather gs entries response
              Hwf _ _ _ Hrun Hok) as (_ & _ & -> & _).
  destruct Hwf as (Hne & HG & Hlen & Htab).
  unfold gather_component_size, gather_components_total, group_size in *.
  eexists. split; [unfold gather_log; by rewrite last_app|].
  intros ec e He. pose proof (lookup_lt_Some _ _ _ He) as Hec.
  eexists _, _. split.
  - unfold gather_log. rewrite lookup_app_l by (rewrite length_log_after; lia).
    by apply lookup_log_after.
  - rewrite num_elements_output_shape_of.
    assert (Hsl : Shape.num_elements (single_slice_shape e)
                  = slice_elements_of entries ec)
      by (unfold slice_elements_of; by rewrite He).
    rewrite Hsl.
    rewrite (entry_components_total _ _ (length entries) _ Hnn Htot ec Hec).
    apply sum_to_ext. intros rc Hrc.
    unfold gather_args. cbn [ag_entry_component_sizes].
    rewrite get2_matrix by lia.
    by rewrite (layout_size_in_range _ _ (length entries) _ Hnn Htot) by lia.
Qed.

Lemma gather_output_matches_layout_witness :
  exists st entries' log,
    AllgatherExecute (fun _ => 1) (fun _ => tt) small_gs small_entries small_response
    = Some (st, entries', log) /\
    (Status_ok st = true ->
     exists args,
       last log = Some (CallDoAllgather args tt) /\
       forall ec e, small_entries !! ec = Some e ->
         exists shape status,
           log !! S ec = Some (CallAllocateOutput ec shape status) /\
           Shape.num_elements shape
           = sum_to (group_size small_gs)
                    (fun rc => get2 (ag_entry_component_sizes args) ec rc)).
Proof.
  exact (gather_output_matches_layout (fun _ => 1) (fun _ => tt) small_gs small_entries
           small_response small_wf small_in_range).
Defined.
